(** * AppStore (app/src/lib/stores/app-store.ts): state slices, gates,
    fast-forward planning, progress composition, selection staleness,
    compare banner and merge preview.

    The store is single-threaded and cooperative: a method runs without
    interruption up to its next [await].  Every [async] method is therefore
    embedded as the sequence of its atomic segments, each a function on the
    store; what the command layer answers at an [await] is an argument of
    the segment that resumes after it. *)

From Stdlib Require Import ZArith QArith Qround Lqa Lia List Sorted.
From stdpp Require Import base option list gmap strings pretty.

Local Open Scope Z_scope.

(** ** Data model *)

(** Repositories are told apart by their persisted numeric id
    ([localRepositoryStateLookup] is keyed the same way). *)
Definition RepositoryId := N.

(** A [Repository] object as a method receives it.  Its id keys the
    slices; [repository_ref] is the identity of the object, which is what
    [===] compares: there can be several objects for one repository, since
    the repositories store hands out a new object whenever a repository is
    updated.  A method that only keys the cache with its argument takes the
    id. *)
Record RepositoryObject := mkRepositoryObject {
  repository_ref : nat;
  repository_id : RepositoryId;
}.
Coercion repository_id : RepositoryObject >-> RepositoryId.

(** [Popup] and [Foldout], as far as the store looks at them: the type,
    and the repository of a popup that carries one.  The types that no
    modelled method tells apart are [OtherPopup] and [OtherFoldout]. *)
Inductive PopupType :=
  | CloneRepository
  | PublishRepository
  | OtherPopup (name : string).

#[global] Instance PopupType_eq_dec : EqDecision PopupType.
Proof. solve_decision. Defined.

Record Popup := mkPopup {
  popup_type : PopupType;
  popup_repository : option RepositoryId;
}.

#[global] Instance Popup_eq_dec : EqDecision Popup.
Proof. solve_decision. Defined.

Inductive FoldoutType :=
  | AppMenu
  | OtherFoldout (name : string).

#[global] Instance FoldoutType_eq_dec : EqDecision FoldoutType.
Proof. solve_decision. Defined.

(** [Branch] of models/branch: the fields the store reads. *)
Record Branch := mkBranch {
  branch_name : string;
  branch_upstream : option string;
  branch_tip_sha : string;
}.

#[global] Instance Branch_eq_dec : EqDecision Branch.
Proof. solve_decision. Defined.

(** [Tip] of models/tip, a tagged union over [TipState]. *)
Inductive Tip :=
  | TipUnknown
  | TipUnborn
  | TipDetached (currentSha : string)
  | TipValid (branch : Branch).

#[global] Instance Tip_eq_dec : EqDecision Tip.
Proof. solve_decision. Defined.

(** [IAheadBehind]: commit counts, JS numbers holding integers. *)
Record IAheadBehind := mkAheadBehind {
  ahead : Z;
  behind : Z;
}.

#[global] Instance IAheadBehind_eq_dec : EqDecision IAheadBehind.
Proof. solve_decision. Defined.

(** [CommittedFileChange]: compared through its [id]. *)
Record CommittedFileChange := mkFile {
  file_id : string;
  file_path : string;
}.

#[global] Instance CommittedFileChange_eq_dec : EqDecision CommittedFileChange.
Proof. solve_decision. Defined.

Inductive DiffType :=
  | DiffText
  | DiffImage
  | DiffBinary
  | DiffSketch
  | DiffLargeText
  | DiffUnrenderable.

#[global] Instance DiffType_eq_dec : EqDecision DiffType.
Proof. solve_decision. Defined.

(** [IDiff]: its kind, its payload, and the previews that the sketch
    preview callback merges into it ([merge(state.diff, diff)]). *)
Record IDiff := mkDiff {
  diff_kind : DiffType;
  diff_body : string;
  diff_previews : option string;
}.

#[global] Instance IDiff_eq_dec : EqDecision IDiff.
Proof. solve_decision. Defined.

(** The [loadingDiff] token is [Math.random()]: a number that is only
    compared with [!==] and tested for falsiness, so a natural number stands
    for it, [0] being the falsy one. *)
Definition DiffId := N.

(** [ICommitSelection]. *)
Record ICommitSelection := mkCommitSelection {
  cs_sha : option string;
  cs_file : option CommittedFileChange;
  cs_changedFiles : list CommittedFileChange;
  cs_diff : option IDiff;
  cs_loadingDiff : option DiffId;
}.

#[global] Instance ICommitSelection_eq_dec : EqDecision ICommitSelection.
Proof. solve_decision. Defined.

(** The part of [IChangesState] that the sketch preview callback writes. *)
Record IChangesState := mkChangesState {
  chg_diff : option IDiff;
  chg_loadingDiff : option DiffId;
}.

#[global] Instance IChangesState_eq_dec : EqDecision IChangesState.
Proof. solve_decision. Defined.

Inductive ComparisonMode := Ahead | Behind.

#[global] Instance ComparisonMode_eq_dec : EqDecision ComparisonMode.
Proof. solve_decision. Defined.

(** [IDisplayHistory | ICompareBranch]. *)
Inductive FormState :=
  | DisplayHistory
  | CompareBranch (comparisonBranch : Branch) (comparisonMode : ComparisonMode)
      (aheadBehind : IAheadBehind).

#[global] Instance FormState_eq_dec : EqDecision FormState.
Proof. solve_decision. Defined.

(** [MergeResultStatus]. *)
Inductive MergeResult :=
  | MergeLoading
  | MergeClean
  | MergeConflicts (conflictedFiles : Z).

#[global] Instance MergeResult_eq_dec : EqDecision MergeResult.
Proof. solve_decision. Defined.

Record InferredComparisonBranch := mkInferred {
  icb_branch : option Branch;
  icb_aheadBehind : option IAheadBehind;
}.

#[global] Instance InferredComparisonBranch_eq_dec :
  EqDecision InferredComparisonBranch.
Proof. solve_decision. Defined.

(** Modelled from the spec: [ComparisonCache] (not under src/) is "a cache
    keyed by an unordered pair of commit SHAs, value = {ahead, behind}".
    The pair is kept as the two SHAs in either order. *)
Definition ComparisonCache := list ((string * string) * IAheadBehind).

Fixpoint cache_get (c : ComparisonCache) (from to : string)
  : option IAheadBehind :=
  match c with
  | [] => None
  | ((a, b), v) :: c' =>
      if bool_decide ((a = from ∧ b = to) ∨ (a = to ∧ b = from))
      then Some v else cache_get c' from to
  end.

(** [ICompareState]. *)
Record ICompareState := mkCompareState {
  cmp_formState : FormState;
  cmp_tip : option string;
  cmp_mergeStatus : option MergeResult;
  cmp_showBranchList : bool;
  cmp_filterText : string;
  cmp_commitSHAs : list string;
  cmp_allBranches : list Branch;
  cmp_recentBranches : list Branch;
  cmp_defaultBranch : option Branch;
  cmp_aheadBehindCache : option ComparisonCache;
  cmp_inferredComparisonBranch : InferredComparisonBranch;
  cmp_isDivergingBranchBannerVisible : bool;
}.

#[global] Instance ICompareState_eq_dec : EqDecision ICompareState.
Proof. solve_decision. Defined.

(** [IBranchesState]; a pull request is known by its number. *)
Record IBranchesState := mkBranchesState {
  bs_tip : Tip;
  bs_defaultBranch : option Branch;
  bs_allBranches : list Branch;
  bs_recentBranches : list Branch;
  bs_currentPullRequest : option Z;
}.

#[global] Instance IBranchesState_eq_dec : EqDecision IBranchesState.
Proof. solve_decision. Defined.

(** [Progress]: [value] is a JS number in [0,1], a rational here, as
    every finite double is one.  Exact rationals stand for the doubles in
    the weights of a push and of a pull; the values of a fetch are computed
    as the doubles are ([Double]), because there the rounding shows:
    [0.9 + 0.1 * 0.5] is 0.9500000000000001. *)
Record Progress := mkProgress {
  p_kind : string;
  p_title : string;
  p_description : option string;
  p_value : Q;
}.

(** [IRepositoryState]: the slices and scalar flags the store coordinates. *)
Record IRepositoryState := mkRepositoryState {
  commitSelection : ICommitSelection;
  changesState : IChangesState;
  compareState : ICompareState;
  branchesState : IBranchesState;
  remote : option string;
  isCommitting : bool;
  isPushPullFetchInProgress : bool;
  pushPullFetchProgress : option Progress;
}.

(** The slice that [RepositoryStateCache.get] creates on first access. *)
Definition initialCommitSelection : ICommitSelection :=
  mkCommitSelection None None [] None None.

Definition initialCompareState : ICompareState :=
  mkCompareState DisplayHistory None None false "" [] [] [] None None
    (mkInferred None None) false.

Definition initialRepositoryState : IRepositoryState :=
  {| commitSelection := initialCommitSelection;
     changesState := mkChangesState None None;
     compareState := initialCompareState;
     branchesState := mkBranchesState TipUnknown None [] [] None;
     remote := None;
     isCommitting := false;
     isPushPullFetchInProgress := false;
     pushPullFetchProgress := None |}.

(** ** The store *)

(** The fields of [AppStore] that the modelled methods read or write.
    [emitted] counts the snapshots handed to the subscribers by
    [emitUpdateNow]; [nextPromise] numbers the promises the store creates;
    [currentFoldout] is the type of the foldout that is open;
    [resolveOpenInKactus] is the promise that the stored resolver
    settles. *)
Record AppStore := mkAppStore {
  repositoryStateCache : gmap N IRepositoryState;
  selectedRepository : option RepositoryObject;
  windowHidden : bool;
  emitQueued : bool;
  emitted : nat;
  currentMergeTreePromise : option nat;
  nextPromise : nat;
  currentPopup : option Popup;
  currentFoldout : option FoldoutType;
  resolveOpenInKactus : option nat;
}.

Definition emptyStore : AppStore :=
  mkAppStore ∅ None false false 0 None 0 None None None.

(** *** RepositoryStateCache

    Modelled from the spec: [RepositoryStateCache] (not under src/) keeps
    "exactly one slice per RepositoryIdentity", "created lazily on first
    access" and changed only through its scoped updates, which merge the
    returned fields into a fresh slice object. *)

Definition get (s : AppStore) (r : RepositoryId) : IRepositoryState :=
  default initialRepositoryState (repositoryStateCache s !! r).

Definition update (s : AppStore) (r : RepositoryId)
    (f : IRepositoryState -> IRepositoryState) : AppStore :=
  {| repositoryStateCache := <[r := f (get s r)]> (repositoryStateCache s);
     selectedRepository := selectedRepository s;
     windowHidden := windowHidden s;
     emitQueued := emitQueued s;
     emitted := emitted s;
     currentMergeTreePromise := currentMergeTreePromise s;
     nextPromise := nextPromise s;
     currentPopup := currentPopup s;
     currentFoldout := currentFoldout s;
     resolveOpenInKactus := resolveOpenInKactus s |}.

Definition with_commitSelection (f : ICommitSelection -> ICommitSelection)
    (st : IRepositoryState) : IRepositoryState :=
  {| commitSelection := f (commitSelection st);
     changesState := changesState st;
     compareState := compareState st;
     branchesState := branchesState st;
     remote := remote st;
     isCommitting := isCommitting st;
     isPushPullFetchInProgress := isPushPullFetchInProgress st;
     pushPullFetchProgress := pushPullFetchProgress st |}.

Definition with_changesState (f : IChangesState -> IChangesState)
    (st : IRepositoryState) : IRepositoryState :=
  {| commitSelection := commitSelection st;
     changesState := f (changesState st);
     compareState := compareState st;
     branchesState := branchesState st;
     remote := remote st;
     isCommitting := isCommitting st;
     isPushPullFetchInProgress := isPushPullFetchInProgress st;
     pushPullFetchProgress := pushPullFetchProgress st |}.

Definition with_compareState (f : ICompareState -> ICompareState)
    (st : IRepositoryState) : IRepositoryState :=
  {| commitSelection := commitSelection st;
     changesState := changesState st;
     compareState := f (compareState st);
     branchesState := branchesState st;
     remote := remote st;
     isCommitting := isCommitting st;
     isPushPullFetchInProgress := isPushPullFetchInProgress st;
     pushPullFetchProgress := pushPullFetchProgress st |}.

Definition with_isCommitting (b : bool) (st : IRepositoryState)
  : IRepositoryState :=
  {| commitSelection := commitSelection st;
     changesState := changesState st;
     compareState := compareState st;
     branchesState := branchesState st;
     remote := remote st;
     isCommitting := b;
     isPushPullFetchInProgress := isPushPullFetchInProgress st;
     pushPullFetchProgress := pushPullFetchProgress st |}.

Definition with_isPushPullFetchInProgress (b : bool) (st : IRepositoryState)
  : IRepositoryState :=
  {| commitSelection := commitSelection st;
     changesState := changesState st;
     compareState := compareState st;
     branchesState := branchesState st;
     remote := remote st;
     isCommitting := isCommitting st;
     isPushPullFetchInProgress := b;
     pushPullFetchProgress := pushPullFetchProgress st |}.

Definition with_pushPullFetchProgress (p : option Progress)
    (st : IRepositoryState) : IRepositoryState :=
  {| commitSelection := commitSelection st;
     changesState := changesState st;
     compareState := compareState st;
     branchesState := branchesState st;
     remote := remote st;
     isCommitting := isCommitting st;
     isPushPullFetchInProgress := isPushPullFetchInProgress st;
     pushPullFetchProgress := p |}.

Definition updateCommitSelection (s : AppStore) (r : RepositoryId)
    (f : ICommitSelection -> ICommitSelection) : AppStore :=
  update s r (with_commitSelection f).

Definition updateChangesState (s : AppStore) (r : RepositoryId)
    (f : IChangesState -> IChangesState) : AppStore :=
  update s r (with_changesState f).

Definition updateCompareState (s : AppStore) (r : RepositoryId)
    (f : ICompareState -> ICompareState) : AppStore :=
  update s r (with_compareState f).

(** *** emitUpdate (lines 462-489) *)

Definition emitUpdateNow (s : AppStore) : AppStore :=
  {| repositoryStateCache := repositoryStateCache s;
     selectedRepository := selectedRepository s;
     windowHidden := windowHidden s;
     emitQueued := false;
     emitted := S (emitted s);
     currentMergeTreePromise := currentMergeTreePromise s;
     nextPromise := nextPromise s;
     currentPopup := currentPopup s;
     currentFoldout := currentFoldout s;
     resolveOpenInKactus := resolveOpenInKactus s |}.

(** A hidden window emits at once; otherwise one animation frame is
    requested unless one is already queued.  The frame itself is
    [emitUpdateNow], run by the event loop later. *)
Definition emitUpdate (s : AppStore) : AppStore :=
  if windowHidden s then emitUpdateNow s
  else if emitQueued s then s
  else
    {| repositoryStateCache := repositoryStateCache s;
       selectedRepository := selectedRepository s;
       windowHidden := windowHidden s;
       emitQueued := true;
       emitted := emitted s;
       currentMergeTreePromise := currentMergeTreePromise s;
       nextPromise := nextPromise s;
     currentPopup := currentPopup s;
     currentFoldout := currentFoldout s;
     resolveOpenInKactus := resolveOpenInKactus s |}.

(** ** Popups and foldouts (lines 2371-2428 and 3851-3864) *)

Definition with_currentPopup (popup : option Popup) (s : AppStore) : AppStore :=
  {| repositoryStateCache := repositoryStateCache s;
     selectedRepository := selectedRepository s;
     windowHidden := windowHidden s;
     emitQueued := emitQueued s;
     emitted := emitted s;
     currentMergeTreePromise := currentMergeTreePromise s;
     nextPromise := nextPromise s;
     currentPopup := popup;
     currentFoldout := currentFoldout s;
     resolveOpenInKactus := resolveOpenInKactus s |}.

Definition with_currentFoldout (foldout : option FoldoutType) (s : AppStore)
  : AppStore :=
  {| repositoryStateCache := repositoryStateCache s;
     selectedRepository := selectedRepository s;
     windowHidden := windowHidden s;
     emitQueued := emitQueued s;
     emitted := emitted s;
     currentMergeTreePromise := currentMergeTreePromise s;
     nextPromise := nextPromise s;
     currentPopup := currentPopup s;
     currentFoldout := foldout;
     resolveOpenInKactus := resolveOpenInKactus s |}.

Definition with_resolveOpenInKactus (resolve : option nat) (s : AppStore)
  : AppStore :=
  {| repositoryStateCache := repositoryStateCache s;
     selectedRepository := selectedRepository s;
     windowHidden := windowHidden s;
     emitQueued := emitQueued s;
     emitted := emitted s;
     currentMergeTreePromise := currentMergeTreePromise s;
     nextPromise := nextPromise s;
     currentPopup := currentPopup s;
     currentFoldout := currentFoldout s;
     resolveOpenInKactus := resolve |}.

(** [_completeOpenInKactus] up to its [await fn()]: the resolver is taken
    out of the store; the flow it belongs to is resolved after the
    [await], outside the store. *)
Definition _completeOpenInKactus_start (s : AppStore) : AppStore :=
  with_resolveOpenInKactus None s.

Definition _closePopup (s : AppStore) : AppStore :=
  match currentPopup s with
  | None => s
  | Some popup =>
      let s1 :=
        match popup_type popup with
        | CloneRepository => _completeOpenInKactus_start s
        | _ => s
        end in
      emitUpdate (with_currentPopup None s1)
  end.

(** [_closeFoldout] called with a foldout type, as [_showPopup] calls
    it. *)
Definition _closeFoldout (s : AppStore) (foldout : FoldoutType) : AppStore :=
  match currentFoldout s with
  | None => s
  | Some current =>
      if bool_decide (current ≠ foldout) then s
      else emitUpdate (with_currentFoldout None s)
  end.

(** Always close the app menu when showing a pop up. *)
Definition _showPopup (s : AppStore) (popup : Popup) : AppStore :=
  let s1 := _closePopup s in
  let s2 := _closeFoldout s1 AppMenu in
  emitUpdate (with_currentPopup (Some popup) s2).

(** ** Commit selection (lines 606-636) *)

Definition clearSelectedCommit (s : AppStore) (r : RepositoryId) : AppStore :=
  updateCommitSelection s r (fun _ => mkCommitSelection None None [] None None).

Definition _changeCommitSelection (s : AppStore) (r : RepositoryId)
    (sha : string) : AppStore :=
  if bool_decide (cs_sha (commitSelection (get s r)) = Some sha) then s
  else
    emitUpdate
      (updateCommitSelection s r
         (fun _ => mkCommitSelection (Some sha) None [] None None)).

(** ** Reentrancy gates (lines 2904-2928 and 2990-3013) *)

(** How an awaited function ends: it returns, or it throws. *)
Inductive Outcome (A : Type) :=
  | Returned (a : A)
  | Thrown (err : string).
Arguments Returned {A} a.
Arguments Thrown {A} err.

(** The method [isCommitting] (the flag of the same name is the field of
    the slice).  [fn] is the wrapped function: it resumes from the store it
    is given and hands back the store as it is when its promise settles, so
    whatever else ran while it was suspended is part of it.  [None] is the
    [undefined] it may resolve to, and the [undefined] of the early
    return. *)
Definition isCommitting_gate (s : AppStore) (r : RepositoryId)
    (fn : AppStore -> AppStore * Outcome (option string))
  : AppStore * Outcome (option bool) :=
  if isCommitting (get s r) then (s, Returned None)
  else
    let s1 := emitUpdate (update s r (with_isCommitting true)) in
    let '(s2, res) := fn s1 in
    (* finally *)
    let s3 := emitUpdate (update s2 r (with_isCommitting false)) in
    (s3, match res with
         | Returned sha => Returned (Some (bool_decide (sha ≠ None)))
         | Thrown e => Thrown e
         end).

(** [withPushPull] up to its [await fn()]: [None] when the gate is held. *)
Definition withPushPull_enter (s : AppStore) (r : RepositoryId)
  : option AppStore :=
  if isPushPullFetchInProgress (get s r) then None
  else Some (emitUpdate (update s r (with_isPushPullFetchInProgress true))).

(** The [finally] block of [withPushPull]. *)
Definition withPushPull_exit (s : AppStore) (r : RepositoryId) : AppStore :=
  emitUpdate (update s r (with_isPushPullFetchInProgress false)).

Definition withPushPull (s : AppStore) (r : RepositoryId)
    (fn : AppStore -> AppStore * Outcome unit) : AppStore * Outcome unit :=
  match withPushPull_enter s r with
  | None => (s, Returned tt)
  | Some s1 =>
      let '(s2, res) := fn s1 in
      (withPushPull_exit s2 r, res)
  end.

(** *** Network operations in flight

    [_fetch], [_fetchRemote], [_push] and [_pull] reach the command layer
    through [withPushPull] ([performFetch], [performPush], [performPull]);
    [_fetchRefspec] (lines 3335-3357) calls [gitStore.fetchRefspec] without
    it, and so does the fetch of [refreshIndicatorForRepository] (lines
    2297-2302), which calls [gitStore.fetch].  A request is the call that
    [withAuthenticatingUser] makes to the function it was given; the
    operation is in flight from the moment its body starts until its
    promise settles.  The bodies never write [isPushPullFetchInProgress]:
    its only writers are lines 3001 and 3009. *)

Inductive NetworkOp :=
  | OpFetch
  | OpPush
  | OpPull
  | OpFetchRefspec
  | OpIndicatorFetch.

#[global] Instance NetworkOp_eq_dec : EqDecision NetworkOp.
Proof. solve_decision. Defined.

Definition usesWithPushPull (op : NetworkOp) : bool :=
  match op with
  | OpFetch | OpPush | OpPull => true
  | OpFetchRefspec | OpIndicatorFetch => false
  end.

Record NetworkRuntime := mkNetworkRuntime {
  net_store : AppStore;
  net_inFlight : list (NetworkOp * RepositoryId);
}.

(** What can happen between two suspension points: an operation is
    requested, the body of one in flight ends, or some other code writes a
    slice (progress reports, refreshes, selections) and leaves
    [isPushPullFetchInProgress] as it finds it. *)
Inductive NetworkEvent :=
  | Request (op : NetworkOp) (r : RepositoryId)
  | Settle (i : nat)
  | Write (r : RepositoryId) (f : IRepositoryState -> IRepositoryState).

(** The popup of lines 2782-2785. *)
Definition publishRepositoryPopup (r : RepositoryId) : Popup :=
  mkPopup PublishRepository (Some r).

(** [performPush] returns before the gate when the repository has no
    remote (lines 2781-2788): it shows the popup and starts nothing; the
    other gated operations go straight to [withPushPull]. *)
Definition request (rt : NetworkRuntime) (op : NetworkOp) (r : RepositoryId)
  : NetworkRuntime :=
  if usesWithPushPull op then
    if bool_decide (op = OpPush) && bool_decide (remote (get (net_store rt) r) = None)
    then mkNetworkRuntime (_showPopup (net_store rt) (publishRepositoryPopup r))
           (net_inFlight rt)
    else
      match withPushPull_enter (net_store rt) r with
      | None => rt
      | Some s1 => mkNetworkRuntime s1 (net_inFlight rt ++ [(op, r)])
      end
  else mkNetworkRuntime (net_store rt) (net_inFlight rt ++ [(op, r)]).

(** The body of the [i]-th operation in flight ends, normally or by an
    exception: a gated one runs the [finally] of [withPushPull]. *)
Definition settle (rt : NetworkRuntime) (i : nat) : NetworkRuntime :=
  match net_inFlight rt !! i with
  | None => rt
  | Some (op, r) =>
      mkNetworkRuntime
        (if usesWithPushPull op then withPushPull_exit (net_store rt) r
         else net_store rt)
        (delete i (net_inFlight rt))
  end.

Definition network_step (rt : NetworkRuntime) (e : NetworkEvent)
  : NetworkRuntime :=
  match e with
  | Request op r => request rt op r
  | Settle i => settle rt i
  | Write r f =>
      mkNetworkRuntime
        (emitUpdate
           (update (net_store rt) r (fun st =>
              with_isPushPullFetchInProgress (isPushPullFetchInProgress st) (f st))))
        (net_inFlight rt)
  end.

Definition network_run (rt : NetworkRuntime) (es : list NetworkEvent)
  : NetworkRuntime :=
  fold_left network_step es rt.

(** The operations in flight on [r]: all of them, and those behind the
    gate. *)
Definition inFlightOn (r : RepositoryId) (rt : NetworkRuntime)
  : list (NetworkOp * RepositoryId) :=
  filter (fun t => t.2 = r) (net_inFlight rt).

Definition gatedInFlightOn (r : RepositoryId) (rt : NetworkRuntime)
  : list (NetworkOp * RepositoryId) :=
  filter (fun t => usesWithPushPull t.1 = true ∧ t.2 = r) (net_inFlight rt).

(** What the gate maintains: on every repository at most one gated
    operation is in flight, and the flag is set exactly while one is. *)
Definition gateInvariant (rt : NetworkRuntime) : Prop :=
  forall r,
    (length (gatedInFlightOn r rt) <= 1)%nat
    /\ (isPushPullFetchInProgress (get (net_store rt) r) = true
        <-> gatedInFlightOn r rt ≠ []).

(** ** Progress reporting (lines 2748-2759) *)

(** The test of line 2756 is [===] on the objects: an update is emitted
    only for the very object that is selected. *)
Definition sameObject (selected : option RepositoryObject)
    (repository : RepositoryObject) : bool :=
  bool_decide (repository_ref <$> selected = Some (repository_ref repository)).

Definition updatePushPullFetchProgress (s : AppStore) (r : RepositoryObject)
    (pushPullFetchProgress : option Progress) : AppStore :=
  let s1 := update s r (with_pushPullFetchProgress pushPullFetchProgress) in
  if sameObject (selectedRepository s) r then emitUpdate s1 else s1.

(** What one command-layer call did: the progress objects it passed to its
    callback, in order (their [value] is the phase-local fraction), and
    whether it returned rather than threw. *)
Record PhaseRun := mkPhaseRun {
  reports : list Progress;
  completed : bool;
}.

Definition with_value (v : Q) (p : Progress) : Progress :=
  mkProgress (p_kind p) (p_title p) (p_description p) v.

Definition with_title (t : string) (p : Progress) : Progress :=
  mkProgress (p_kind p) t (p_description p) (p_value p).

(** *** The progress of [performPush] (lines 2806-2888) *)
Module Push.

(** [let pushWeight = 2.5], [let fetchWeight = 1] before scaling. *)
Definition pushWeight0 : Q := 2.5.
Definition fetchWeight0 : Q := 1.

(** Let's leave 10% at the end for refreshing. *)
Definition refreshWeight : Q := 0.1.

Definition scale : Q := (1 / (pushWeight0 + fetchWeight0)) * (1 - refreshWeight).

(** [pushWeight *= scale], [fetchWeight *= scale]. *)
Definition pushWeight : Q := pushWeight0 * scale.
Definition fetchWeight : Q := fetchWeight0 * scale.

Definition refreshStartProgress : Q := pushWeight + fetchWeight.

Definition refreshTitle : string := "Refreshing Repository".

(** Every argument handed to [updatePushPullFetchProgress], in order, by
    the body that [performPush] runs under [withPushPull] when the tip is
    a branch.  The steps sit inside [performFailableOperation], which
    swallows what they throw, so the phases after a failed one are
    skipped and the final [null] is always reported. *)
Definition progressReports (remoteName branchName : string)
    (push fetch : PhaseRun) (refreshed : bool) : list (option Progress) :=
  let pushTitle := "Pushing to " +:+ remoteName in
  [Some (mkProgress "push" pushTitle None 0)]
  ++ map (fun progress =>
            Some (with_value (pushWeight * p_value progress)
                    (with_title pushTitle progress)))
       (reports push)
  ++ (if completed push then
        map (fun fetchProgress =>
               Some (with_value (pushWeight + p_value fetchProgress * fetchWeight)
                       fetchProgress))
          (reports fetch)
        ++ (if completed fetch then
              [Some (mkProgress "generic" refreshTitle None refreshStartProgress)]
              ++ (if refreshed then
                    [Some (mkProgress "generic" refreshTitle
                             (Some "Fast-forwarding branches")
                             (refreshStartProgress + refreshWeight * 0.5))]
                  else [])
            else [])
      else [])
  ++ [None].

(** The store after those reports. *)
Definition reportAll (s : AppStore) (r : RepositoryObject)
    (ps : list (option Progress)) : AppStore :=
  fold_left (fun s p => updatePushPullFetchProgress s r p) ps s.

End Push.

(** [performPush] (lines 2775-2902) when nothing else runs while it is
    suspended: without a remote it shows the popup and returns before the
    gate; under the gate an unborn or detached tip throws, and a branch is
    pushed with the reports above.  [state] is read before the gate is
    entered. *)
Definition performPush (s : AppStore) (r : RepositoryObject)
    (push fetch : PhaseRun) (refreshed : bool) : AppStore * Outcome unit :=
  let state := get s r in
  match remote state with
  | None => (_showPopup s (publishRepositoryPopup r), Returned tt)
  | Some remoteName =>
      withPushPull s r (fun s1 =>
        match bs_tip (branchesState state) with
        | TipUnborn => (s1, Thrown "The current branch is unborn.")
        | TipDetached _ =>
            (s1, Thrown "The current repository is in a detached HEAD state.")
        | TipValid branch =>
            (Push.reportAll s1 r
               (Push.progressReports remoteName (branch_name branch)
                  push fetch refreshed),
             Returned tt)
        | TipUnknown => (s1, Returned tt)
        end)
  end.

(** The values of the reports that carry a progress object. *)
Definition progressValues (log : list (option Progress)) : list Q :=
  omap (fmap p_value) log.

(** ** Background fetch policy (lines 1317-1354) *)

Definition BackgroundFetchMinimumInterval : Z := 30 * 60 * 1000.

(** Dates are their [getTime()] in milliseconds; [lastFetched] is
    [gitStore.lastFetched] and [now] is [new Date()]. *)
Definition shouldBackgroundFetch (lastFetched : option Z) (now : Z)
    (lastPush : option Z) : bool :=
  match lastFetched with
  | None => true
  | Some lastFetched =>
      let timeSinceFetch := now - lastFetched in
      if timeSinceFetch <? BackgroundFetchMinimumInterval then false
      else
        match lastPush with
        | None => true
        | Some lastPush =>
            (* we should fetch if the last push happened after the last fetch *)
            if lastFetched <? lastPush then true else false
        end
  end.

(** The policy that [startBackgroundFetching] hands to the fetcher
    (line 1384): [r => this.shouldBackgroundFetch(r, null)]. *)
Definition backgroundFetchPolicy (lastFetched : option Z) (now : Z) : bool :=
  shouldBackgroundFetch lastFetched now None.

(** ** Fast-forwarding branches (lines 214-219 and 3155-3206) *)

Definition FastForwardBranchesThreshold : nat := 20.

(** Modelled from the spec: [eligibleForFastForward] (models/branch, not
    under src/) selects the branches "tracking a remote branch, and not
    equal to the current branch". *)
Definition eligibleForFastForward (b : Branch)
    (currentBranchName : option string) : bool :=
  bool_decide (branch_upstream b ≠ None)
  && bool_decide (Some (branch_name b) ≠ currentBranchName).

(** Modelled from the spec: the refs of the repository on disk, which the
    command layer (../git, not under src/) reads and writes: full ref name
    to commit SHA. *)
Abbreviation Refs := (gmap string string).

(** Modelled from the spec: [formatAsLocalRef] names "the local branch
    ref" of a branch. *)
Definition formatAsLocalRef (name : string) : string := "refs/heads/" +:+ name.

(** Modelled from the spec: the "upstream tip" is what the remote-tracking
    ref of the upstream points at. *)
Definition upstreamTip (refs : Refs) (upstream : string) : option string :=
  refs !! ("refs/remotes/" +:+ upstream).

(** Modelled from the spec: [updateRef(repository, ref, oldValue, newValue,
    reason)] is "a pure ref update, never a merge or rebase": [ref] is
    moved to the tip of [newValue], nothing else changes.  The command is
    taken to succeed. *)
Definition updateRef (refs : Refs) (ref oldValue newValue : string) : Refs :=
  partial_alter (fun _ => upstreamTip refs newValue) ref refs.

Definition currentBranchNameOf (tip : Tip) : option string :=
  match tip with
  | TipValid branch => Some (branch_name branch)
  | _ => None
  end.

(** [eligibleBranches] as first assigned (lines 3163-3165). *)
Definition eligibleBranches (state : IRepositoryState) : list Branch :=
  let branches := bs_allBranches (branchesState state) in
  let currentBranchName := currentBranchNameOf (bs_tip (branchesState state)) in
  List.filter (fun b => eligibleForFastForward b currentBranchName) branches.

(** What is assigned to [eligibleBranches] inside the threshold test
    (lines 3174-3179). *)
Definition defaultBranchIfEligible (state : IRepositoryState) : list Branch :=
  let currentBranchName := currentBranchNameOf (bs_tip (branchesState state)) in
  match bs_defaultBranch (branchesState state) with
  | Some defaultBranch =>
      if eligibleForFastForward defaultBranch currentBranchName
      then [defaultBranch] else []
  | None => []
  end.

(** [eligibleBranches] as the loop sees it (lines 3167-3180). *)
Definition branchesToFastForward (state : IRepositoryState) : list Branch :=
  if (FastForwardBranchesThreshold <=? length (eligibleBranches state))%nat
  then defaultBranchIfEligible state
  else eligibleBranches state.

(** One turn of the loop (lines 3183-3204).  [getBranchAheadBehind] is the
    command layer's answer for the branch on the refs as they are at that
    turn; [None] is its [null].  [branch.upstream!] is never [null] here,
    the eligibility test has excluded it; the model leaves the refs alone
    in that case. *)
Definition fastForwardBranch
    (getBranchAheadBehind : Refs -> Branch -> option IAheadBehind)
    (refs : Refs) (branch : Branch) : Refs :=
  match getBranchAheadBehind refs branch with
  | None => refs
  | Some aheadBehind =>
      if (ahead aheadBehind =? 0) && (0 <? behind aheadBehind) then
        match branch_upstream branch with
        | Some upstreamRef =>
            let localRef := formatAsLocalRef (branch_name branch) in
            updateRef refs localRef (branch_tip_sha branch) upstreamRef
        | None => refs
        end
      else refs
  end.

Definition fastForwardLoop
    (getBranchAheadBehind : Refs -> Branch -> option IAheadBehind)
    (branches : list Branch) (refs : Refs) : Refs :=
  fold_left (fastForwardBranch getBranchAheadBehind) branches refs.

Definition fastForwardBranches
    (getBranchAheadBehind : Refs -> Branch -> option IAheadBehind)
    (state : IRepositoryState) (refs : Refs) : Refs :=
  fastForwardLoop getBranchAheadBehind (branchesToFastForward state) refs.

(** ** Diff loading for the selected file (lines 1091-1154, 1856-1919) *)

(** [!sha] for a [string | null]. *)
Definition falsyString (o : option string) : bool :=
  match o with
  | None => true
  | Some s => bool_decide (s = "")
  end.

Definition falsyNumber (n : N) : bool := bool_decide (n = 0%N).

(** [_changeFileSelection] up to [await getCommitDiff(...)].  [diffId] is
    the token minted by [Math.random()].  When a commit is selected the
    method is suspended and the result is [stateBeforeLoad], which the rest
    of the method keeps; otherwise it is over ([None]), by [return] or, in
    a development build, by [throw]. *)
Definition _changeFileSelection_start (s : AppStore) (r : RepositoryId)
    (file : CommittedFileChange) (diffId : DiffId)
  : AppStore * option IRepositoryState :=
  let s1 :=
    emitUpdate
      (updateCommitSelection s r (fun cs =>
         mkCommitSelection (cs_sha cs) (Some file) (cs_changedFiles cs)
           None (Some diffId))) in
  let stateBeforeLoad := get s1 r in
  let sha := cs_sha (commitSelection stateBeforeLoad) in
  if falsyString sha then
    (emitUpdate
       (updateCommitSelection s1 r (fun cs =>
          mkCommitSelection (cs_sha cs) (cs_file cs) (cs_changedFiles cs)
            (cs_diff cs) None)),
     None)
  else (s1, Some stateBeforeLoad).

(** [_changeFileSelection] from the moment [getCommitDiff] resolves with
    [diff], on the store as it is then. *)
Definition _changeFileSelection_resume (s : AppStore) (r : RepositoryId)
    (file : CommittedFileChange) (stateBeforeLoad : IRepositoryState)
    (diff : IDiff) : AppStore :=
  let stateAfterLoad := get s r in
  (* A whole bunch of things could have happened since we initiated the diff load *)
  if bool_decide (cs_sha (commitSelection stateAfterLoad)
                  ≠ cs_sha (commitSelection stateBeforeLoad)) then s
  else
    match cs_file (commitSelection stateAfterLoad) with
    | None => s
    | Some selected =>
        if bool_decide (file_id selected ≠ file_id file) then s
        else
          emitUpdate
            (updateCommitSelection s r (fun state =>
               mkCommitSelection (cs_sha state) (cs_file state)
                 (cs_changedFiles state) (Some diff)
                 (if bool_decide (diff_kind diff ≠ DiffSketch) then None
                  else cs_loadingDiff state)))
    end.

(** [merge(state.diff, diff)] with the previews of the callback. *)
Definition mergePreviews (d : IDiff) (previews : string) : IDiff :=
  mkDiff (diff_kind d) (diff_body d) (Some previews).

Definition previewedDiff (current : option IDiff) (previews : string)
  : option IDiff :=
  match current with
  | Some d =>
      if bool_decide (diff_kind d ≠ DiffSketch) then None
      else Some (mergePreviews d previews)
  | None => None
  end.

(** The callback built by [updateDiffWithSketchPreview(repository, diffId,
    fromFileSelection)], called by the command layer with [(err, diff)].
    The boolean tells whether the callback re-armed itself with
    [setTimeout(..., 100)]. *)
Definition updateDiffWithSketchPreview (r : RepositoryId) (diffId : DiffId)
    (fromFileSelection : bool) (s : AppStore) (err : option string)
    (diff : option string) : AppStore * bool :=
  match err, diff with
  | Some _, _ => (s, false)
  | None, None => (s, false)
  | None, Some previews =>
      let stateBeforeUpdate := get s r in
      let loading :=
        if fromFileSelection
        then cs_loadingDiff (commitSelection stateBeforeUpdate)
        else chg_loadingDiff (changesState stateBeforeUpdate) in
      let current :=
        if fromFileSelection
        then cs_diff (commitSelection stateBeforeUpdate)
        else chg_diff (changesState stateBeforeUpdate) in
      if falsyNumber diffId || bool_decide (loading ≠ Some diffId) then (s, false)
      else
        match current with
        | None => (s, true)
        | Some _ =>
            (emitUpdate
               (if fromFileSelection then
                  updateCommitSelection s r (fun state =>
                    mkCommitSelection (cs_sha state) (cs_file state)
                      (cs_changedFiles state)
                      (previewedDiff (cs_diff state) previews) None)
                else
                  updateChangesState s r (fun state =>
                    mkChangesState (previewedDiff (chg_diff state) previews) None)),
             false)
        end
  end.

(** ** The compare view *)

(** Get the behind count (or 0) of the ahead/behind counter
    (lines 4720-4729). *)
Definition getBehindOrDefault (aheadBehind : option IAheadBehind) : Z :=
  match aheadBehind with
  | None => 0
  | Some ab => behind ab
  end.

Definition with_bannerVisible (visible : bool) (cs : ICompareState)
  : ICompareState :=
  mkCompareState (cmp_formState cs) (cmp_tip cs) (cmp_mergeStatus cs)
    (cmp_showBranchList cs) (cmp_filterText cs) (cmp_commitSHAs cs)
    (cmp_allBranches cs) (cmp_recentBranches cs) (cmp_defaultBranch cs)
    (cmp_aheadBehindCache cs) (cmp_inferredComparisonBranch cs) visible.

Definition with_mergeStatus (m : option MergeResult) (cs : ICompareState)
  : ICompareState :=
  mkCompareState (cmp_formState cs) (cmp_tip cs) m
    (cmp_showBranchList cs) (cmp_filterText cs) (cmp_commitSHAs cs)
    (cmp_allBranches cs) (cmp_recentBranches cs) (cmp_defaultBranch cs)
    (cmp_aheadBehindCache cs) (cmp_inferredComparisonBranch cs)
    (cmp_isDivergingBranchBannerVisible cs).

(** Lines 3764-3778. *)
Definition _setDivergingBranchBannerVisibility (s : AppStore)
    (r : RepositoryId) (visible : bool) : AppStore :=
  if bool_decide
       (cmp_isDivergingBranchBannerVisible (compareState (get s r)) ≠ visible)
  then emitUpdate (updateCompareState s r (with_bannerVisible visible))
  else s.

Definition withoutBranch (current : option Branch) (bs : list Branch)
  : list Branch :=
  match current with
  | Some currentBranch =>
      List.filter
        (fun b => bool_decide (branch_name b ≠ branch_name currentBranch)) bs
  | None => bs
  end.

(** [_initializeCompare] (lines 693-770), up to the banner.  [state] is
    the snapshot read on entry and [s] the store once
    [inferComparisonBranch] has resolved; [inferred] is what it resolved to,
    consulted only on the path that awaits it.  The method then hands over to
    [_executeCompare]. *)
Definition _initializeCompare_resume (state : IRepositoryState)
    (inferred : option Branch) (s : AppStore) (r : RepositoryId) : AppStore :=
  let branchesState := branchesState state in
  let compareState := compareState state in
  let tip := bs_tip branchesState in
  let currentBranch :=
    match tip with TipValid branch => Some branch | _ => None end in
  let allBranches := withoutBranch currentBranch (bs_allBranches branchesState) in
  let recentBranches :=
    withoutBranch currentBranch (bs_recentBranches branchesState) in
  let cachedDefaultBranch := bs_defaultBranch branchesState in
  (* only include the default branch when comparing if the user is not on
     the default branch and it also exists in the repository *)
  let defaultBranch :=
    match currentBranch, cachedDefaultBranch with
    | Some cb, Some db =>
        if bool_decide (branch_name cb ≠ branch_name db) then Some db else None
    | _, _ => None
    end in
  let inferredBranch :=
    match tip, cmp_aheadBehindCache compareState with
    | TipValid _, Some _ => inferred
    | _, _ => None
    end in
  let aheadBehindOfInferredBranch :=
    match tip, cmp_aheadBehindCache compareState, inferredBranch with
    | TipValid branch, Some cache, Some ib =>
        cache_get cache (branch_tip_sha branch) (branch_tip_sha ib)
    | _, _, _ => None
    end in
  let s1 :=
    updateCompareState s r (fun cs =>
      mkCompareState (cmp_formState cs) (cmp_tip cs) (cmp_mergeStatus cs)
        (cmp_showBranchList cs) (cmp_filterText cs) (cmp_commitSHAs cs)
        allBranches recentBranches defaultBranch
        (cmp_aheadBehindCache cs)
        (mkInferred inferredBranch aheadBehindOfInferredBranch)
        (cmp_isDivergingBranchBannerVisible cs)) in
  match inferredBranch with
  | Some _ =>
      let currentCount := getBehindOrDefault aheadBehindOfInferredBranch in
      let prevInferredBranchState := cmp_inferredComparisonBranch compareState in
      let previousCount :=
        getBehindOrDefault (icb_aheadBehind prevInferredBranchState) in
      (* we only want to show the banner when the the number
         commits behind has changed since the last it was visible *)
      let countChanged :=
        (0 <? currentCount) && negb (previousCount =? currentCount) in
      _setDivergingBranchBannerVisibility s1 r countChanged
  | None => _setDivergingBranchBannerVisibility s1 r false
  end.

(** [_initializeCompare] when nothing else runs while it awaits. *)
Definition _initializeCompare (s : AppStore) (r : RepositoryId)
    (inferred : option Branch) : AppStore :=
  _initializeCompare_resume (get s r) inferred s r.

(** The banner and the stored behind count of a repository. *)
Definition bannerVisible (s : AppStore) (r : RepositoryId) : bool :=
  cmp_isDivergingBranchBannerVisible (compareState (get s r)).

Definition storedBehind (s : AppStore) (r : RepositoryId) : Z :=
  getBehindOrDefault
    (icb_aheadBehind (cmp_inferredComparisonBranch (compareState (get s r)))).

(** The behind count that [_initializeCompare] computes for the branch it
    inferred, as a function of the snapshot and of the inferred branch. *)
Definition currentBehind (state : IRepositoryState) (inferred : option Branch)
  : option Z :=
  match bs_tip (branchesState state),
        cmp_aheadBehindCache (compareState state), inferred with
  | TipValid branch, Some cache, Some ib =>
      Some (getBehindOrDefault
              (cache_get cache (branch_tip_sha branch) (branch_tip_sha ib)))
  | _, _, _ => None
  end.


(** *** Comparing to a branch and the merge preview (lines 638-658, 844-951) *)

Definition updateOrSelectFirstCommit (s : AppStore) (r : RepositoryId)
    (commitSHAs : list string) : AppStore :=
  let state := get s r in
  let '(s1, selectedSHA) :=
    match cs_sha (commitSelection state) with
    | Some selected =>
        if bool_decide (selected ∈ commitSHAs) then (s, Some selected)
        else
          (* selected SHA is not in this list
             -> clear the selection in the app state *)
          (clearSelectedCommit s r, None)
    | None => (s, None)
    end in
  match selectedSHA, commitSHAs with
  | None, first :: _ =>
      (* [_loadChangedFilesForCurrentSelection] follows: it awaits the
         command layer before it writes anything *)
      _changeCommitSelection s1 r first
  | _, _ => s1
  end.

(** [ICompareToBranch]. *)
Record ICompareToBranch := mkCompareToBranch {
  action_branch : Branch;
  action_comparisonMode : ComparisonMode;
}.

(** What [gitStore.getCompareCommits] resolves to, the commits by SHA. *)
Record ICompareResult := mkCompareResult {
  compare_ahead : Z;
  compare_behind : Z;
  compare_commits : list string;
}.

(** A merge-tree computation started by [updateCompareToBranch]: the
    promise built at lines 912-931.  [mt_displayed] is set once its [then]
    has written the merge status; the [cleanup] registered at line 939 is
    then still to run. *)
Record MergeTreeTask := mkMergeTreeTask {
  mt_promise : nat;
  mt_repository : RepositoryId;
  mt_ours : Branch;
  mt_theirs : Branch;
  mt_startedAt : Z;
  mt_displayed : bool;
}.

(** The store, the promises of the event loop that [updateCompareToBranch]
    created, and the clock in milliseconds. *)
Record CompareRuntime := mkCompareRuntime {
  cr_store : AppStore;
  cr_tasks : list MergeTreeTask;
  cr_now : Z;
}.

Definition with_currentMergeTreePromise (p : option nat) (s : AppStore)
  : AppStore :=
  {| repositoryStateCache := repositoryStateCache s;
     selectedRepository := selectedRepository s;
     windowHidden := windowHidden s;
     emitQueued := emitQueued s;
     emitted := emitted s;
     currentMergeTreePromise := p;
     nextPromise := nextPromise s;
     currentPopup := currentPopup s;
     currentFoldout := currentFoldout s;
     resolveOpenInKactus := resolveOpenInKactus s |}.

(** A new promise object: distinct from every earlier one. *)
Definition newPromise (s : AppStore) : nat * AppStore :=
  (nextPromise s,
   {| repositoryStateCache := repositoryStateCache s;
      selectedRepository := selectedRepository s;
      windowHidden := windowHidden s;
      emitQueued := emitQueued s;
      emitted := emitted s;
      currentMergeTreePromise := currentMergeTreePromise s;
      nextPromise := S (nextPromise s);
      currentPopup := currentPopup s;
      currentFoldout := currentFoldout s;
      resolveOpenInKactus := resolveOpenInKactus s |}).

(** The display latency passed to [promiseWithMinimumTimeout] (line 914). *)
Definition mergeTreeMinimumTimeout : Z := 500.

(** [updateCompareToBranch] from the moment [getCompareCommits] resolves
    with [compare]; [tip] is [gitStore.tip] at that moment.  The result is
    the promise the method returns, [None] for [undefined].  The call
    [currentAheadBehindUpdater.insert] writes the updater's own cache and
    nothing of the store. *)
Definition updateCompareToBranch_resume (rt : CompareRuntime)
    (r : RepositoryId) (action : ICompareToBranch)
    (compare : option ICompareResult) (tip : Tip)
  : CompareRuntime * option nat :=
  match compare with
  | None => (rt, None)
  | Some compare =>
      let comparisonBranch := action_branch action in
      let aheadBehind :=
        mkAheadBehind (compare_ahead compare) (compare_behind compare) in
      let commitSHAs := compare_commits compare in
      let s1 :=
        updateCompareState (cr_store rt) r (fun cs =>
          mkCompareState
            (CompareBranch comparisonBranch (action_comparisonMode action)
               aheadBehind)
            (cmp_tip cs) (cmp_mergeStatus cs) (cmp_showBranchList cs)
            (branch_name comparisonBranch) commitSHAs
            (cmp_allBranches cs) (cmp_recentBranches cs) (cmp_defaultBranch cs)
            (cmp_aheadBehindCache cs) (cmp_inferredComparisonBranch cs)
            (cmp_isDivergingBranchBannerVisible cs)) in
      let s2 := updateCompareState s1 r (with_mergeStatus (Some MergeLoading)) in
      let s3 := emitUpdate s2 in
      let s4 := updateOrSelectFirstCommit s3 r commitSHAs in
      match currentMergeTreePromise s4 with
      | Some pending => (mkCompareRuntime s4 (cr_tasks rt) (cr_now rt), Some pending)
      | None =>
          let otherwise :=
            (mkCompareRuntime
               (emitUpdate (updateCompareState s4 r (with_mergeStatus None)))
               (cr_tasks rt) (cr_now rt),
             None) in
          match tip with
          | TipValid tipBranch =>
              if 0 <? behind aheadBehind then
                let '(mergeTreePromise, s5) := newPromise s4 in
                (mkCompareRuntime
                   (with_currentMergeTreePromise (Some mergeTreePromise) s5)
                   (cr_tasks rt
                    ++ [mkMergeTreeTask mergeTreePromise r tipBranch
                          (action_branch action) (cr_now rt) false])
                   (cr_now rt),
                 Some mergeTreePromise)
              else otherwise
          | _ => otherwise
          end
      end
  end.

Definition markDisplayed (p : nat) (t : MergeTreeTask) : MergeTreeTask :=
  if bool_decide (mt_promise t = p)
  then mkMergeTreeTask (mt_promise t) (mt_repository t) (mt_ours t)
         (mt_theirs t) (mt_startedAt t) true
  else t.

Definition findTask (p : nat) (displayed : bool) (ts : list MergeTreeTask)
  : option MergeTreeTask :=
  List.find
    (fun t => bool_decide (mt_promise t = p)
              && bool_decide (mt_displayed t = displayed)) ts.

(** Modelled from the spec: [promiseWithMinimumTimeout] (../promise, not
    under src/) enforces "a minimum display latency (so a fast result does
    not flash)": the promise it returns settles no sooner than the timeout
    after its creation.  When it settles, the [catch] of lines 916-924 turns
    a failure into [null] and the [then] of lines 925-931 writes the merge
    status. *)
Definition mergeTreeSettled (rt : CompareRuntime) (p : nat)
    (result : Outcome (option MergeResult)) : CompareRuntime :=
  match findTask p false (cr_tasks rt) with
  | None => rt
  | Some t =>
      if mt_startedAt t + mergeTreeMinimumTimeout <=? cr_now rt then
        let mergeStatus :=
          match result with
          | Returned m => m
          | Thrown _ => None
          end in
        mkCompareRuntime
          (emitUpdate
             (updateCompareState (cr_store rt) (mt_repository t)
                (with_mergeStatus mergeStatus)))
          (map (markDisplayed p) (cr_tasks rt))
          (cr_now rt)
      else rt
  end.

(** [cleanup] (lines 933-939), once the promise has settled. *)
Definition mergeTreeCleanup (rt : CompareRuntime) (p : nat) : CompareRuntime :=
  match findTask p true (cr_tasks rt) with
  | None => rt
  | Some _ =>
      mkCompareRuntime
        (with_currentMergeTreePromise None (cr_store rt))
        (List.filter (fun t => negb (bool_decide (mt_promise t = p))) (cr_tasks rt))
        (cr_now rt)
  end.

(** What can happen between two suspension points: a comparison resumes,
    a merge-tree promise settles, its cleanup runs, time passes, or some
    other code writes the store and leaves [currentMergeTreePromise] as it
    finds it (its only writers are lines 934 and 941). *)
Inductive CompareEvent :=
  | CompareResumed (r : RepositoryId) (action : ICompareToBranch)
      (compare : option ICompareResult) (tip : Tip)
  | MergeTreeSettled (p : nat) (result : Outcome (option MergeResult))
  | MergeTreeCleanup (p : nat)
  | Elapsed (ms : N)
  | OtherWrite (f : AppStore -> AppStore).

Definition compare_step (rt : CompareRuntime) (e : CompareEvent)
  : CompareRuntime :=
  match e with
  | CompareResumed r action compare tip =>
      (updateCompareToBranch_resume rt r action compare tip).1
  | MergeTreeSettled p result => mergeTreeSettled rt p result
  | MergeTreeCleanup p => mergeTreeCleanup rt p
  | Elapsed ms => mkCompareRuntime (cr_store rt) (cr_tasks rt) (cr_now rt + Z.of_N ms)
  | OtherWrite f =>
      mkCompareRuntime
        (with_currentMergeTreePromise (currentMergeTreePromise (cr_store rt))
           (f (cr_store rt)))
        (cr_tasks rt) (cr_now rt)
  end.

Definition compare_run (rt : CompareRuntime) (es : list CompareEvent)
  : CompareRuntime :=
  fold_left compare_step es rt.

(** The merge-tree computations in flight for [r]: started and not yet
    settled. *)
Definition computingOn (r : RepositoryId) (rt : CompareRuntime)
  : list MergeTreeTask :=
  List.filter
    (fun t => bool_decide (mt_repository t = r) && negb (mt_displayed t))
    (cr_tasks rt).

(** The phase-local fractions of a command-layer call, and what the
    command layer promises about them: each lies in [0,1] and they do not
    go back. *)
Definition fractions (run : PhaseRun) : list Q := map p_value (reports run).

Definition fractionsInUnitInterval (run : PhaseRun) : Prop :=
  Forall (fun f => (0 <= f /\ f <= 1)%Q) (fractions run).

Definition fractionsNondecreasing (run : PhaseRun) : Prop :=
  StronglySorted Qle (fractions run).

(** The values of the progress reports of a push, phase by phase. *)
Definition pushValues (push fetch : PhaseRun) (refreshed : bool) : list Q :=
  (0 :: map (fun f => Push.pushWeight * f) (fractions push)
   ++ (if completed push then
         map (fun f => Push.pushWeight + f * Push.fetchWeight) (fractions fetch)
         ++ (if completed fetch then
               Push.refreshStartProgress
               :: (if refreshed
                   then [Push.refreshStartProgress + Push.refreshWeight * 0.5]
                   else [])
             else [])
       else []))%Q.

(** What [currentMergeTreePromise] maintains: the event loop holds at most
    one merge-tree promise of the store, and the field points at it. *)
Definition mergeTreeInvariant (rt : CompareRuntime) : Prop :=
  (length (cr_tasks rt) <= 1)%nat
  /\ forall t, In t (cr_tasks rt) ->
       currentMergeTreePromise (cr_store rt) = Some (mt_promise t).

(** ** Example inputs *)

(** The object that stands for repository 1. *)
Definition repositoryOne : RepositoryObject := mkRepositoryObject 0 1%N.

(** A store with no slice whose window is hidden. *)
Definition hiddenStore : AppStore :=
  mkAppStore ∅ None true false 0 None 0 None None None.

(** A store whose repository 1 has commit a1 selected, with a file and its
    diff loaded. *)
Definition exampleFile : CommittedFileChange := mkFile "f1" "pages/home.sketch".

Definition exampleDiff : IDiff := mkDiff DiffText "@@ -1 +1 @@" None.

Definition selectedStore : AppStore :=
  updateCommitSelection emptyStore 1%N (fun _ =>
    mkCommitSelection (Some "a1") (Some exampleFile) [exampleFile]
      (Some exampleDiff) None).

(** Repository 1 is on branch feature; the comparison branch inferred by
    the previous run was main, then 5 commits behind; the ahead/behind cache
    now holds 3 commits behind for the two tips. *)
Definition mainBranch : Branch := mkBranch "main" (Some "origin/main") "m1".

Definition featureBranch : Branch :=
  mkBranch "feature" (Some "origin/feature") "t1".

Definition behindStore : AppStore :=
  update emptyStore 1%N (fun st =>
    {| commitSelection := commitSelection st;
       changesState := changesState st;
       compareState :=
         mkCompareState DisplayHistory None None false "" [] [] [] None
           (Some [(("t1", "m1"), mkAheadBehind 0 3)])
           (mkInferred (Some mainBranch) (Some (mkAheadBehind 0 5))) false;
       branchesState :=
         mkBranchesState (TipValid featureBranch) (Some mainBranch)
           [mainBranch; featureBranch] [] None;
       remote := Some "origin";
       isCommitting := false;
       isPushPullFetchInProgress := false;
       pushPullFetchProgress := None |}).

(** Repository 1 has commit a1 selected.  The file f1 is selected and its
    diff load starts with token 7; before that load completes the same file
    is selected again, which starts a second load with token 9. *)
Definition commitSelectedStore : AppStore :=
  _changeCommitSelection emptyStore 1%N "a1".

Definition firstLoad : AppStore * option IRepositoryState :=
  _changeFileSelection_start commitSelectedStore 1%N exampleFile 7%N.

Definition reselectedStore : AppStore :=
  (_changeFileSelection_start firstLoad.1 1%N exampleFile 9%N).1.

Definition otherFile : CommittedFileChange := mkFile "f2" "pages/about.sketch".

(** A command-layer call that reports the fractions 0, 1/2 and 1 and
    returns; and one that reports 1 and then 0. *)
Definition report (kind : string) (fraction : Q) : Progress :=
  mkProgress kind "" None fraction.

Definition steadyPhase (kind : string) : PhaseRun :=
  mkPhaseRun [report kind 0; report kind 0.5; report kind 1] true.

Definition backwardsPhase (kind : string) : PhaseRun :=
  mkPhaseRun [report kind 1; report kind 0] true.

(** A repository on branch feature whose default branch main and nineteen
    topic branches all track a remote branch: twenty eligible branches. *)
Definition topicBranch (i : nat) : Branch :=
  mkBranch ("topic-" +:+ pretty i) (Some ("origin/topic-" +:+ pretty i))
    ("c" +:+ pretty i).

Definition twentyEligible : IRepositoryState :=
  {| commitSelection := initialCommitSelection;
     changesState := mkChangesState None None;
     compareState := initialCompareState;
     branchesState :=
       mkBranchesState (TipValid featureBranch) (Some mainBranch)
         (featureBranch :: mainBranch :: map topicBranch (seq 1 19)) [] None;
     remote := Some "origin";
     isCommitting := false;
     isPushPullFetchInProgress := false;
     pushPullFetchProgress := None |}.

(** A repository on branch feature with two more branches: stale is two
    commits behind its upstream, work is one ahead and one behind. *)
Definition staleBranch : Branch := mkBranch "stale" (Some "origin/stale") "s1".

Definition workBranch : Branch := mkBranch "work" (Some "origin/work") "w2".

Definition threeBranches : IRepositoryState :=
  {| commitSelection := initialCommitSelection;
     changesState := mkChangesState None None;
     compareState := initialCompareState;
     branchesState :=
       mkBranchesState (TipValid featureBranch) None
         [featureBranch; staleBranch; workBranch] [] None;
     remote := Some "origin";
     isCommitting := false;
     isPushPullFetchInProgress := false;
     pushPullFetchProgress := None |}.

Definition threeBranchesRefs : Refs :=
  <["refs/heads/stale" := "s1"]>
    (<["refs/remotes/origin/stale" := "s3"]>
       (<["refs/heads/work" := "w2"]>
          (<["refs/remotes/origin/work" := "w1"]> ∅))).

Definition threeBranchesAheadBehind (refs : Refs) (b : Branch)
  : option IAheadBehind :=
  if bool_decide (branch_name b = "stale") then Some (mkAheadBehind 0 2)
  else Some (mkAheadBehind 1 1).

(** A store whose repository 1 has a remote and nothing in progress. *)
Definition remoteStore : AppStore :=
  update emptyStore 1%N (fun st =>
    {| commitSelection := commitSelection st;
       changesState := changesState st;
       compareState := compareState st;
       branchesState := branchesState st;
       remote := Some "origin";
       isCommitting := false;
       isPushPullFetchInProgress := false;
       pushPullFetchProgress := None |}).

(** Comparing feature to main, which is two commits ahead of it. *)
Definition compareToMain : ICompareToBranch := mkCompareToBranch mainBranch Behind.

Definition twoBehind : ICompareResult := mkCompareResult 0 2 ["m1"; "m0"].

Definition firstTrigger : CompareEvent :=
  CompareResumed 1%N compareToMain (Some twoBehind) (TipValid featureBranch).

(** The refs of [twentyEligible]: every local branch is at its own commit
    and every upstream one commit further; each branch is one behind. *)
Definition twentyEligibleRefs : Refs :=
  foldr (fun b refs =>
           <[formatAsLocalRef (branch_name b) := branch_tip_sha b]>
             (<["refs/remotes/origin/" +:+ branch_name b
                := branch_tip_sha b +:+ "+1"]> refs))
    ∅ (mainBranch :: map topicBranch (seq 1 19)).

Definition oneBehind (refs : Refs) (b : Branch) : option IAheadBehind :=
  Some (mkAheadBehind 0 1).

(** * Further methods of the store *)

(** ** findNext (lines 197-212)

    [array.find] with the flag [found] kept across the calls of the
    predicate: an element equal to [toFind] sets the flag and is passed
    over, any other element is returned once the flag is set. *)
Fixpoint findNext_from (found : bool) (array : list string) (toFind : string)
  : option string :=
  match array with
  | [] => None
  | s :: rest =>
      if bool_decide (s = toFind) then findNext_from true rest toFind
      else if found then Some s
      else findNext_from false rest toFind
  end.

Definition findNext (array : list string) (toFind : string) : option string :=
  findNext_from false array toFind.

(** ** Writes and emitted updates

    The methods of the store write a slice and call [emitUpdate]; the
    browser later runs the animation frame, which is [emitUpdateNow]. *)
Definition SliceWrite : Type :=
  RepositoryId * (IRepositoryState -> IRepositoryState).

Definition writeAndEmit (s : AppStore) (w : SliceWrite) : AppStore :=
  emitUpdate (update s w.1 w.2).

Definition writesWithEmits (s : AppStore) (ws : list SliceWrite) : AppStore :=
  fold_left writeAndEmit ws s.

Definition writesAlone (s : AppStore) (ws : list SliceWrite) : AppStore :=
  fold_left (fun s w => update s w.1 w.2) ws s.

(** ** The history list (lines 779-835 and 4697-4718) *)

(** [CompareAction]. *)
Inductive CompareAction :=
  | ActionHistory
  | ActionCompare (action : ICompareToBranch).

Definition getInitialAction (cachedState : FormState) : CompareAction :=
  match cachedState with
  | DisplayHistory => ActionHistory
  | CompareBranch comparisonBranch comparisonMode _ =>
      ActionCompare (mkCompareToBranch comparisonBranch comparisonMode)
  end.

(** The action that [_initializeCompare] hands to [_executeCompare] (lines
    770-773); [state] is the snapshot it read on entry and [initialAction]
    its optional argument. *)
Definition initialCompareAction (state : IRepositoryState)
    (initialAction : option CompareAction) : CompareAction :=
  let cachedState := cmp_formState (compareState state) in
  match initialAction with
  | Some action => action
  | None => getInitialAction cachedState
  end.

(** [currentSha] as [_executeCompare] and [updateCompareToBranch] compute
    it from [gitStore.tip]. *)
Definition currentShaOf (tip : Tip) : option string :=
  match tip with
  | TipValid branch => Some (branch_tip_sha branch)
  | TipDetached currentSha => Some currentSha
  | _ => None
  end.

(** [_executeCompare] with a History action, up to
    [await gitStore.loadCommitBatch('HEAD')]: [None] when it returns before
    loading, otherwise the [currentSha] it keeps for later. *)
Definition _executeCompare_history_start (s : AppStore) (r : RepositoryId)
    (tip : Tip) : option (option string) :=
  let currentSha := currentShaOf tip in
  let compareState := compareState (get s r) in
  let previousTip := cmp_tip compareState in
  let tipIsUnchanged :=
    match currentSha, previousTip with
    | Some current, Some previous => bool_decide (current = previous)
    | _, _ => false
    end in
  if tipIsUnchanged
     && bool_decide (cmp_formState compareState = DisplayHistory)
     && negb (bool_decide (cmp_commitSHAs compareState = []))
  then
    (* don't refresh the history view here because we know nothing important
       has changed and we don't want to rebuild this state *)
    None
  else Some currentSha.

(** [_executeCompare] with a History action, from the moment
    [loadCommitBatch] resolves with [commits]. *)
Definition _executeCompare_history_resume (s : AppStore) (r : RepositoryId)
    (currentSha : option string) (commits : option (list string)) : AppStore :=
  match commits with
  | None => s
  | Some commits =>
      let s1 :=
        updateCompareState s r (fun cs =>
          mkCompareState DisplayHistory currentSha (cmp_mergeStatus cs) false
            "" commits (cmp_allBranches cs) (cmp_recentBranches cs)
            (cmp_defaultBranch cs) (cmp_aheadBehindCache cs)
            (cmp_inferredComparisonBranch cs)
            (cmp_isDivergingBranchBannerVisible cs)) in
      emitUpdate (updateOrSelectFirstCommit s1 r commits)
  end.

(** ** The progress of [performPull] (lines 3068-3150) *)
Module Pull.

(** [let pullWeight = 2], [let fetchWeight = 1] before scaling. *)
Definition pullWeight0 : Q := 2.
Definition fetchWeight0 : Q := 1.

(** Let's leave 10% at the end for refreshing. *)
Definition refreshWeight : Q := 0.1.

Definition scale : Q := (1 / (pullWeight0 + fetchWeight0)) * (1 - refreshWeight).

Definition pullWeight : Q := pullWeight0 * scale.
Definition fetchWeight : Q := fetchWeight0 * scale.

Definition refreshStartProgress : Q := pullWeight + fetchWeight.

Definition refreshTitle : string := "Refreshing Repository".
Definition kactusTitle : string := "Refreshing Sketch Files".

(** Every argument handed to [updatePushPullFetchProgress], in order, from
    the first report of line 3070 to the [null] of the [finally].  The pull
    itself sits inside [performFailableOperation], so the refresh follows
    whether it failed or not; [refreshed] tells whether
    [reconcileHistory] and [_refreshRepository] returned, [filesUpdated]
    whether [_updateKactusFilesAfterCheckout] did: what they throw skips
    the rest of the [try]. *)
Definition progressReports (remoteName : string) (pull : PhaseRun)
    (refreshed filesUpdated : bool) : list (option Progress) :=
  [Some (mkProgress "pull" ("Pulling " +:+ remoteName) None 0)]
  ++ map (fun progress =>
            Some (with_value (p_value progress * pullWeight) progress))
       (reports pull)
  ++ [Some (mkProgress "generic" refreshTitle None refreshStartProgress)]
  ++ (if refreshed then
        [Some (mkProgress "generic" kactusTitle
                 (Some "Updating the sketch files with the latest changes")
                 (refreshStartProgress + refreshWeight * 0.2))]
        ++ (if filesUpdated then
              [Some (mkProgress "generic" refreshTitle
                       (Some "Fast-forwarding branches")
                       (refreshStartProgress + refreshWeight * 0.5))]
            else [])
      else [])
  ++ [None].

End Pull.

(** ** JS numbers

    A JS number is an IEEE 754 double, and an arithmetic operation gives
    the double nearest to the exact result, ties going to the even
    significand.  A finite double is a multiple of 2^-1074 with at most 53
    significant bits.  Infinities and NaN have no rational; the values
    here stay far below the overflow threshold 2^1024. *)
Module Double.

(** The nearest integer, ties to even. *)
Definition rne (x : Q) : Z :=
  let f := Qfloor x in
  match (x - inject_Z f ?= 1 # 2)%Q with
  | Lt => f
  | Gt => f + 1
  | Eq => if Z.even f then f else f + 1
  end.

(** How many times 2^-1074, the smallest positive double, goes into 1. *)
Definition units : Q := inject_Z (2 ^ 1074).

(** [x] counts units of 2^-1074.  A value of more than 53 bits loses its
    [s] lowest bits; below 2^53 units (the subnormal range and the lowest
    binade) every unit is kept. *)
Definition roundUnits (x : Q) : Z :=
  let s := Z.max 0 (Z.log2 (Qfloor x) - 52) in
  rne (x / inject_Z (2 ^ s)) * 2 ^ s.

Definition roundMagnitude (q : Q) : Q :=
  (inject_Z (roundUnits (q * units)) / units)%Q.

(** The double nearest to [q]. *)
Definition round (q : Q) : Q :=
  match (q ?= 0)%Q with
  | Lt => (- roundMagnitude (- q))%Q
  | _ => roundMagnitude q
  end.

(** [x * y] and [x + y] on doubles. *)
Definition mul (x y : Q) : Q := round (x * y).
Definition add (x y : Q) : Q := round (x + y).

End Double.

(** ** The progress of [performFetch] (lines 3404-3465) *)
Module Fetch.

(** [const fetchWeight = 0.9], [const refreshWeight = 0.1]: the doubles
    that the literals denote. *)
Definition fetchWeight : Q := Double.round 0.9.
Definition refreshWeight : Q := Double.round 0.1.

Definition refreshTitle : string := "Refreshing Repository".

(** Every argument handed to [updatePushPullFetchProgress], in order, up to
    the [null] of the [finally].  Nothing swallows what the fetch or
    [_refreshRepository] throw: the rest of the [try] is skipped. *)
Definition progressReports (fetch : PhaseRun) (refreshed : bool)
  : list (option Progress) :=
  map (fun progress =>
         Some (with_value (Double.mul (p_value progress) fetchWeight)
                 progress))
    (reports fetch)
  ++ (if completed fetch then
        [Some (mkProgress "generic" refreshTitle None fetchWeight)]
        ++ (if refreshed then
              [Some (mkProgress "generic" refreshTitle
                       (Some "Fast-forwarding branches")
                       (Double.add fetchWeight
                          (Double.mul refreshWeight (Double.round 0.5))))]
            else [])
      else [])
  ++ [None].

End Fetch.

(** [performFetch] when nothing else runs while it is suspended.
    [forwarded] tells whether [fastForwardBranches] returned, and [err] is
    what the failing step threw.  The calls
    that the [finally] makes for a user-initiated fetch refresh pull
    requests and issues, outside the modelled store. *)
Definition performFetch (s : AppStore) (r : RepositoryObject) (fetch : PhaseRun)
    (refreshed forwarded : bool) (err : string) : AppStore * Outcome unit :=
  withPushPull s r (fun s1 =>
    (Push.reportAll s1 r (Fetch.progressReports fetch refreshed),
     if completed fetch && refreshed && forwarded then Returned tt
     else Thrown err)).

(** [performPull] (lines 3030-3153) when nothing else runs while it is
    suspended.  [currentRemote] is [gitStore.currentRemote]; [mergeBase] is
    how [getMergeBase] ends, awaited only for a branch with an upstream;
    [forwarded] tells whether [fastForwardBranches] returned and [err] is
    what a failing step of the [try] threw. *)
Definition performPull (s : AppStore) (r : RepositoryObject)
    (currentRemote : option string) (mergeBase : Outcome (option string))
    (pull : PhaseRun) (refreshed filesUpdated forwarded : bool) (err : string)
  : AppStore * Outcome unit :=
  withPushPull s r (fun s1 =>
    match currentRemote with
    | None => (s1, Thrown "The repository has no remotes.")
    | Some remoteName =>
        match bs_tip (branchesState (get s1 r)) with
        | TipUnborn => (s1, Thrown "The current branch is unborn.")
        | TipDetached _ =>
            (s1, Thrown "The current repository is in a detached HEAD state.")
        | TipValid branch =>
            match branch_upstream branch, mergeBase with
            | Some _, Thrown e => (s1, Thrown e)
            | _, _ =>
                (Push.reportAll s1 r
                   (Pull.progressReports remoteName pull refreshed filesUpdated),
                 if refreshed && filesUpdated && forwarded then Returned tt
                 else Thrown err)
            end
        | TipUnknown => (s1, Returned tt)
        end
    end).

(** ** Changed files of the selected commit (lines 1013-1060) *)

(** [_loadChangedFilesForCurrentSelection] up to the [await]: the snapshot
    [state] it keeps, or [None] when no commit is selected. *)
Definition _loadChangedFilesForCurrentSelection_start (s : AppStore)
    (r : RepositoryId) : option IRepositoryState :=
  let state := get s r in
  match cs_sha (commitSelection state) with
  | None => None
  | Some _ => Some state
  end.

(** [_loadChangedFilesForCurrentSelection] from the moment
    [getChangedFiles] resolves; [changedFiles] is [None] when
    [performFailableOperation] swallowed a failure.  [currentSHA] and
    [commitSelection] were read from the snapshot [state], and line 1034
    compares [currentSHA] with [state.commitSelection.sha].  The method
    ends by calling [_changeFileSelection], whose token is [diffId]; the
    result is that call's suspension, if any. *)
Definition _loadChangedFilesForCurrentSelection_resume (s : AppStore)
    (r : RepositoryId) (state : IRepositoryState)
    (changedFiles : option (list CommittedFileChange)) (diffId : DiffId)
  : AppStore * option IRepositoryState :=
  match changedFiles with
  | None => (s, None)
  | Some changedFiles =>
      let selection := commitSelection state in
      let currentSHA := cs_sha selection in
      if bool_decide (currentSHA ≠ cs_sha (commitSelection state)) then (s, None)
      else
        let noFileSelected := bool_decide (cs_file selection = None) in
        let firstFileOrDefault :=
          if noFileSelected && negb (bool_decide (changedFiles = []))
          then head changedFiles
          else cs_file selection in
        let s1 :=
          emitUpdate
            (updateCommitSelection s r (fun cs =>
               mkCommitSelection (cs_sha cs) firstFileOrDefault changedFiles
                 None None)) in
        match firstFileOrDefault with
        | Some file => _changeFileSelection_start s1 r file diffId
        | None => (s1, None)
        end
  end.

(** A sketch diff for [exampleFile]. *)
Definition sketchDiff : IDiff := mkDiff DiffSketch "page 1" None.

(** ** Repository selection and the background pollers
       (lines 660-690, 1157-1240, 1255-1315, 1356-1388, 1557-1594) *)

(** A [Repository] as far as these methods read it.  [repo_hash] is its
    [hash], [repo_gitHubRepository] the full name of its [gitHubRepository]
    when it has one. *)
Record Repository := mkRepository {
  repo_id : RepositoryId;
  repo_path : string;
  repo_missing : bool;
  repo_gitHubRepository : option string;
  repo_hash : string;
}.

Record CloningRepository := mkCloningRepository {
  cloning_id : RepositoryId;
  cloning_hash : string;
}.

(** What [selectedRepository] holds when it is not [null]. *)
Inductive Selection :=
  | ARepository (repository : Repository)
  | ACloningRepository (cloning : CloningRepository).

#[global] Instance Repository_eq_dec : EqDecision Repository.
Proof. solve_decision. Defined.
#[global] Instance CloningRepository_eq_dec : EqDecision CloningRepository.
Proof. solve_decision. Defined.
#[global] Instance Selection_eq_dec : EqDecision Selection.
Proof. solve_decision. Defined.

Definition selection_hash (selection : Selection) : string :=
  match selection with
  | ARepository repository => repo_hash repository
  | ACloningRepository cloning => cloning_hash cloning
  end.

(** The fields of the store that repository selection works on: the
    selection itself, the three pollers (a poller is the id of the
    repository it was created for) and the number kept in local storage
    under [LastSelectedRepositoryIDKey] ([None] while nothing is stored).
    The per-repository slices are [AppStore]. *)
Record Shell := mkShell {
  shell_selectedRepository : option Selection;
  shell_lastSelectedRepositoryID : option Z;
  currentBackgroundFetcher : option RepositoryId;
  currentPullRequestUpdater : option RepositoryId;
  currentAheadBehindUpdater : option RepositoryId;
}.

Definition with_selectedRepository (v : option Selection) (s : Shell) : Shell :=
  mkShell v (shell_lastSelectedRepositoryID s) (currentBackgroundFetcher s)
    (currentPullRequestUpdater s) (currentAheadBehindUpdater s).
Definition with_lastSelectedRepositoryID (v : option Z) (s : Shell) : Shell :=
  mkShell (shell_selectedRepository s) v (currentBackgroundFetcher s)
    (currentPullRequestUpdater s) (currentAheadBehindUpdater s).
Definition with_currentBackgroundFetcher (v : option RepositoryId) (s : Shell)
  : Shell :=
  mkShell (shell_selectedRepository s) (shell_lastSelectedRepositoryID s) v
    (currentPullRequestUpdater s) (currentAheadBehindUpdater s).
Definition with_currentPullRequestUpdater (v : option RepositoryId) (s : Shell)
  : Shell :=
  mkShell (shell_selectedRepository s) (shell_lastSelectedRepositoryID s)
    (currentBackgroundFetcher s) v (currentAheadBehindUpdater s).
Definition with_currentAheadBehindUpdater (v : option RepositoryId) (s : Shell)
  : Shell :=
  mkShell (shell_selectedRepository s) (shell_lastSelectedRepositoryID s)
    (currentBackgroundFetcher s) (currentPullRequestUpdater s) v.

(** [getNumber(LastSelectedRepositoryIDKey, 0)]. *)
Definition getLastSelectedRepositoryID (s : Shell) : Z :=
  default 0 (shell_lastSelectedRepositoryID s).

(** Modelled from the spec: [fatalError] is not in the file; section 6 has a
    programmer invariant violation "abort immediately", so the call throws
    and the [return] after it is never reached.  The message is the
    source's without the repository name. *)
Definition fatalError {A : Type} (msg : string) : Outcome A := Thrown msg.

Definition stopBackgroundFetching (s : Shell) : Shell :=
  match currentBackgroundFetcher s with
  | Some _ => with_currentBackgroundFetcher None s
  | None => s
  end.

Definition stopPullRequestUpdater (s : Shell) : Shell :=
  match currentPullRequestUpdater s with
  | Some _ => with_currentPullRequestUpdater None s
  | None => s
  end.

Definition stopAheadBehindUpdate (s : Shell) : Shell :=
  match currentAheadBehindUpdater s with
  | Some _ => with_currentAheadBehindUpdater None s
  | None => s
  end.

(** [getAccount] is [getAccountForRepository(this.accounts, _)]: the login
    of the account of the repository, if there is one. *)
Definition startBackgroundFetching (getAccount : Repository -> option string)
    (s : Shell) (repository : Repository) : Shell * Outcome unit :=
  match currentBackgroundFetcher s with
  | Some _ =>
      (s, fatalError
            "We should only have on background fetcher active at once")
  | None =>
      match getAccount repository with
      | None => (s, Returned tt)
      | Some _ =>
          match repo_gitHubRepository repository with
          | None => (s, Returned tt)
          | Some _ =>
              (with_currentBackgroundFetcher (Some (repo_id repository)) s,
               Returned tt)
          end
      end
  end.

Definition startPullRequestUpdater (getAccount : Repository -> option string)
    (s : Shell) (repository : Repository) : Shell * Outcome unit :=
  match currentPullRequestUpdater s with
  | Some _ => (s, fatalError "A pull request updater is already active")
  | None =>
      match repo_gitHubRepository repository with
      | None => (s, Returned tt)
      | Some _ =>
          match getAccount repository with
          | None => (s, Returned tt)
          | Some _ =>
              (with_currentPullRequestUpdater (Some (repo_id repository)) s,
               Returned tt)
          end
      end
  end.

Definition startAheadBehindUpdater (s : Shell) (repository : Repository)
  : Shell * Outcome unit :=
  match currentAheadBehindUpdater s with
  | Some _ => (s, fatalError "An ahead/behind updater is already active")
  | None =>
      (with_currentAheadBehindUpdater (Some (repo_id repository)) s,
       Returned tt)
  end.

(** Sequencing of statements that may throw. *)
Definition andThen (step : Shell * Outcome unit)
    (next : Shell -> Shell * Outcome unit) : Shell * Outcome unit :=
  match step with
  | (s, Returned _) => next s
  | (s, Thrown e) => (s, Thrown e)
  end.

(** [_selectRepository] has no [await]: it runs in one piece, and what it
    starts without awaiting ([_refreshRepository], [_refreshIssues],
    [loadPullRequests], [refreshMentionables], [addUpstreamRemoteIfNeeded])
    touches none of the fields of [Shell] before it suspends.  The check of
    line 1220 reads the field written at line 1162. *)
Definition _selectRepository (getAccount : Repository -> option string)
    (s : Shell) (repository : option Selection) : Shell * Outcome unit :=
  let s1 := with_selectedRepository repository s in
  let s2 := stopPullRequestUpdater (stopBackgroundFetching s1) in
  match repository with
  | None => (s2, Returned tt)
  | Some (ACloningRepository _) => (s2, Returned tt)
  | Some (ARepository repo) =>
      let s3 :=
        with_lastSelectedRepositoryID (Some (Z.of_N (repo_id repo))) s2 in
      if repo_missing repo then (s3, Returned tt)
      else if bool_decide (shell_selectedRepository s3 ≠ repository)
      then (s3, Returned tt)
      else
        let s4 :=
          stopAheadBehindUpdate
            (stopPullRequestUpdater (stopBackgroundFetching s3)) in
        andThen (startBackgroundFetching getAccount s4 repo) (fun s5 =>
        andThen (startPullRequestUpdater getAccount s5 repo) (fun s6 =>
        startAheadBehindUpdater s6 repo))
  end.

(** The [find] of line 1562: the elements of [repositories] are
    [Repository] objects, so the constructor test fails for a cloning
    repository. *)
Definition findSelected (selectedRepository : Selection)
    (repositories : list Repository) : option Repository :=
  match selectedRepository with
  | ARepository selected =>
      List.find (fun r => bool_decide (repo_id r = repo_id selected))
        repositories
  | ACloningRepository _ => None
  end.

(** The repository that [updateRepositorySelectionAfterRepositoriesChanged]
    settles on (lines 1558-1582). *)
Definition newSelectedRepository (s : Shell) (repositories : list Repository)
  : option Selection :=
  let found :=
    match shell_selectedRepository s with
    | Some selectedRepository =>
        ARepository <$> findSelected selectedRepository repositories
    | None => None
    end in
  match found, repositories with
  | None, first :: _ =>
      let lastSelectedID := getLastSelectedRepositoryID s in
      let byID :=
        if 0 <? lastSelectedID
        then List.find (fun r => bool_decide (Z.of_N (repo_id r) = lastSelectedID))
               repositories
        else None in
      match byID with
      | Some r => Some (ARepository r)
      | None => Some (ARepository first)
      end
  | _, _ => found
  end.

(** Lines 1584-1589. *)
Definition repositoryChanged (selectedRepository newSelected : option Selection)
  : bool :=
  match selectedRepository, newSelected with
  | Some a, Some b => bool_decide (selection_hash a ≠ selection_hash b)
  | Some _, None => true
  | None, Some _ => true
  | None, None => false
  end.

(** The promise of [_selectRepository] is dropped, so what it throws does
    not reach the caller; the outcome is kept here to be able to speak of
    it. *)
Definition updateRepositorySelectionAfterRepositoriesChanged
    (getAccount : Repository -> option string) (s : Shell)
    (repositories : list Repository) : Shell * Outcome unit :=
  let newSelected := newSelectedRepository s repositories in
  if repositoryChanged (shell_selectedRepository s) newSelected
  then _selectRepository getAccount s newSelected
  else (s, Returned tt).

(** ** Repository indicators (lines 2248-2314) *)

Record ILocalRepositoryState := mkLocalRepositoryState {
  lrs_aheadBehind : option IAheadBehind;
  lrs_changedFilesCount : nat;
}.

(** What the command layer and the git store answer while the indicator of
    one repository is refreshed: [pathExists], the number of files of the
    working directory in the status ([None] for a [null] status),
    [gitStore.lastFetched], [new Date()], the inferred last push, and
    [gitStore.aheadBehind] as it is at the end. *)
Record IndicatorProbe := mkIndicatorProbe {
  probe_exists : bool;
  probe_status : option nat;
  probe_lastFetched : option Z;
  probe_now : Z;
  probe_lastPush : option Z;
  probe_aheadBehind : option IAheadBehind;
}.

(** The result is the lookup and whether a fetch was made.  A failure of
    the fetch is swallowed by [performFailableOperation]. *)
Definition refreshIndicatorForRepository
    (lookup : gmap RepositoryId ILocalRepositoryState)
    (repository : Repository) (probe : IndicatorProbe)
  : gmap RepositoryId ILocalRepositoryState * bool :=
  if repo_missing repository then (delete (repo_id repository) lookup, false)
  else if negb (probe_exists probe)
  then (delete (repo_id repository) lookup, false)
  else
    match probe_status probe with
    | None => (delete (repo_id repository) lookup, false)
    | Some changedFilesCount =>
        let fetched :=
          shouldBackgroundFetch (probe_lastFetched probe) (probe_now probe)
            (probe_lastPush probe) in
        (<[repo_id repository :=
             mkLocalRepositoryState (probe_aheadBehind probe)
               changedFilesCount]> lookup,
         fetched)
    end.

(** The loop of [refreshIndicatorsForRepositories] over the repositories,
    each with the answers it gets; the second component lists the
    repositories that were fetched, in order. *)
Fixpoint refreshIndicatorsForRepositories
    (lookup : gmap RepositoryId ILocalRepositoryState)
    (repositories : list (Repository * IndicatorProbe))
  : gmap RepositoryId ILocalRepositoryState * list RepositoryId :=
  match repositories with
  | [] => (lookup, [])
  | (repo, probe) :: rest =>
      let '(lookup1, fetched) :=
        refreshIndicatorForRepository lookup repo probe in
      let '(lookup2, fetchedRest) :=
        refreshIndicatorsForRepositories lookup1 rest in
      (lookup2, if fetched then repo_id repo :: fetchedRest else fetchedRest)
  end.

(** ** Parsing and importing sketch files (lines 2930-2988) *)

Record IKactusFile := mkKactusFile {
  kf_id : string;
  kf_path : string;
  kf_isParsing : bool;
  kf_isImporting : bool;
}.

Inductive TransformKey := KeyIsParsing | KeyIsImporting.

(** [{ ...f, [key]: value }]. *)
Definition setKey (key : TransformKey) (value : bool) (f : IKactusFile)
  : IKactusFile :=
  match key with
  | KeyIsParsing => mkKactusFile (kf_id f) (kf_path f) value (kf_isImporting f)
  | KeyIsImporting => mkKactusFile (kf_id f) (kf_path f) (kf_isParsing f) value
  end.

Definition getKey (key : TransformKey) (f : IKactusFile) : bool :=
  match key with
  | KeyIsParsing => kf_isParsing f
  | KeyIsImporting => kf_isImporting f
  end.

(** [kactus.files] of every repository; a repository without a slice has
    none. *)
Abbreviation KactusFiles := (gmap RepositoryId (list IKactusFile)).

Definition kactusFiles (k : KactusFiles) (r : RepositoryId) : list IKactusFile :=
  default [] (k !! r).

(** The two [updateKactusState] calls of [isParsingOrImporting]. *)
Definition markFile (k : KactusFiles) (r : RepositoryId) (id : string)
    (key : TransformKey) (value : bool) : KactusFiles :=
  <[r := map (fun f => if bool_decide (kf_id f = id) then setKey key value f
                       else f)
           (kactusFiles k r)]> k.

(** The [updateKactusState] of [_loadStatus] (lines 1620-1625), which the
    wrapped functions of [_parseSketchFile] and [_importSketchFile] reach:
    the files are replaced by those that [getKactusStatus] found. *)
Definition _loadStatus_files (k : KactusFiles) (r : RepositoryId)
    (files : list IKactusFile) : KactusFiles :=
  <[r := files]> k.

(** [fn] resumes from the files it is given and hands back the files as
    they are when its promise settles.  The second component tells whether
    [fn] was run. *)
Definition isParsingOrImporting (k : KactusFiles) (r : RepositoryId)
    (file : IKactusFile) (key : TransformKey)
    (fn : KactusFiles -> KactusFiles * Outcome unit)
  : KactusFiles * bool * Outcome unit :=
  match List.find (fun f => bool_decide (kf_id f = kf_id file))
          (kactusFiles k r) with
  | None => (k, false, Returned tt)
  | Some currentFile =>
      if kf_isParsing currentFile || kf_isImporting currentFile
      then (k, false, Returned tt)
      else
        let k1 := markFile k r (kf_id file) key true in
        let '(k2, res) := fn k1 in
        (* finally *)
        (markFile k2 r (kf_id file) key false, true, res)
  end.

Definition isParsing (k : KactusFiles) (r : RepositoryId) (file : IKactusFile)
    (fn : KactusFiles -> KactusFiles * Outcome unit)
  : KactusFiles * bool * Outcome unit :=
  isParsingOrImporting k r file KeyIsParsing fn.

Definition isImporting (k : KactusFiles) (r : RepositoryId) (file : IKactusFile)
    (fn : KactusFiles -> KactusFiles * Outcome unit)
  : KactusFiles * bool * Outcome unit :=
  isParsingOrImporting k r file KeyIsImporting fn.

(** Two repositories, the first on GitHub; [kactusRenamed] is the first
    after its hash changed. *)
Definition kactusRepo : Repository :=
  mkRepository 1%N "/work/kactus" false (Some "kactus-io/kactus") "1+kactus".
Definition notesRepo : Repository :=
  mkRepository 2%N "/work/notes" false None "2+notes".
Definition kactusRenamed : Repository :=
  mkRepository 1%N "/work/kactus" false (Some "kactus-io/kactus") "1+kactus2".

Definition everyAccount : Repository -> option string :=
  fun _ => Some "octocat".

(** The first repository selected, with its three pollers running. *)
Definition kactusSelected : Shell :=
  mkShell (Some (ARepository kactusRepo)) (Some 1) (Some 1%N) (Some 1%N)
    (Some 1%N).

(** A repository whose path is on disk and whose status has three changed
    files, fetched long ago; and one whose path is gone. *)
Definition healthyProbe : IndicatorProbe :=
  mkIndicatorProbe true (Some 3%nat) (Some 0) (2 * BackgroundFetchMinimumInterval)
    None (Some (mkAheadBehind 1 2)).
Definition vanishedProbe : IndicatorProbe :=
  mkIndicatorProbe false None None 0 None None.

(** Repository 1 with one sketch file that is neither parsed nor
    imported. *)
Definition homeFile : IKactusFile := mkKactusFile "home" "home.sketch" false false.
Definition oneFile : KactusFiles := {[ 1%N := [homeFile] ]}.

(** * Properties *)

(** ** The slices of the store *)

Lemma get_update_eq (s : AppStore) (r : RepositoryId) f :
  get (update s r f) r = f (get s r).
Proof. unfold get, update; simpl. by rewrite lookup_insert_eq. Qed.

Lemma get_update_ne (s : AppStore) (r r' : RepositoryId) f :
  r ≠ r' -> get (update s r f) r' = get s r'.
Proof. intros Hne. unfold get, update; simpl. by rewrite lookup_insert_ne. Qed.

Lemma get_emitUpdate (s : AppStore) (r : RepositoryId) :
  get (emitUpdate s) r = get s r.
Proof. unfold emitUpdate, get. by repeat case_match. Qed.

Lemma get_with_currentMergeTreePromise (s : AppStore) p (r : RepositoryId) :
  get (with_currentMergeTreePromise p s) r = get s r.
Proof. reflexivity. Qed.

Lemma promise_update (s : AppStore) (r : RepositoryId) f :
  currentMergeTreePromise (update s r f) = currentMergeTreePromise s.
Proof. reflexivity. Qed.

Lemma promise_emitUpdate (s : AppStore) :
  currentMergeTreePromise (emitUpdate s) = currentMergeTreePromise s.
Proof. unfold emitUpdate. by repeat case_match. Qed.

Lemma emitUpdate_effect (s : AppStore) :
  (windowHidden s = true -> emitted (emitUpdate s) = S (emitted s))
  /\ (windowHidden s = false -> emitQueued (emitUpdate s) = true).
Proof.
  unfold emitUpdate. split; intros H; rewrite H; simpl; [done|].
  by destruct (emitQueued s) eqn:E.
Qed.

Lemma cache_emitUpdate (s : AppStore) :
  repositoryStateCache (emitUpdate s) = repositoryStateCache s.
Proof. unfold emitUpdate. by repeat case_match. Qed.

Lemma hidden_emitUpdate (s : AppStore) :
  windowHidden (emitUpdate s) = windowHidden s.
Proof. unfold emitUpdate. by repeat case_match. Qed.

Lemma popup_emitUpdate (s : AppStore) :
  currentPopup (emitUpdate s) = currentPopup s.
Proof. unfold emitUpdate. by repeat case_match. Qed.

Lemma emitted_emitUpdate (s : AppStore) :
  (emitted s <= emitted (emitUpdate s))%nat.
Proof. unfold emitUpdate. repeat case_match; simpl; lia. Qed.

(** What [_closePopup] and [_closeFoldout] leave alone. *)
Lemma closePopup_frame (s : AppStore) :
  repositoryStateCache (_closePopup s) = repositoryStateCache s
  /\ windowHidden (_closePopup s) = windowHidden s
  /\ (emitted s <= emitted (_closePopup s))%nat.
Proof.
  unfold _closePopup. destruct (currentPopup s) as [popup|]; [|done].
  rewrite cache_emitUpdate, hidden_emitUpdate.
  split_and!.
  - by destruct (popup_type popup).
  - by destruct (popup_type popup).
  - etrans; [|apply emitted_emitUpdate]. by destruct (popup_type popup).
Qed.

Lemma closeFoldout_frame (s : AppStore) (foldout : FoldoutType) :
  repositoryStateCache (_closeFoldout s foldout) = repositoryStateCache s
  /\ windowHidden (_closeFoldout s foldout) = windowHidden s
  /\ (emitted s <= emitted (_closeFoldout s foldout))%nat.
Proof.
  unfold _closeFoldout. destruct (currentFoldout s) as [current|]; [|done].
  case_bool_decide; [done|].
  rewrite cache_emitUpdate, hidden_emitUpdate.
  split_and!; [done|done|]. etrans; [|apply emitted_emitUpdate]. done.
Qed.

(** [_showPopup] touches no slice, leaves its popup open and always emits
    an update. *)
Lemma showPopup_effect (s : AppStore) (popup : Popup) :
  repositoryStateCache (_showPopup s popup) = repositoryStateCache s
  /\ currentPopup (_showPopup s popup) = Some popup
  /\ (windowHidden s = true -> (emitted s < emitted (_showPopup s popup))%nat)
  /\ (windowHidden s = false -> emitQueued (_showPopup s popup) = true).
Proof.
  unfold _showPopup. cbn zeta.
  destruct (closePopup_frame s) as (Hcache & Hhidden & Hemitted).
  destruct (closeFoldout_frame (_closePopup s) AppMenu)
    as (Hcache' & Hhidden' & Hemitted').
  set (s2 := _closeFoldout (_closePopup s) AppMenu) in *.
  destruct (emitUpdate_effect (with_currentPopup (Some popup) s2))
    as [Hnow Hqueued].
  cbn [with_currentPopup windowHidden emitted] in Hnow, Hqueued.
  rewrite cache_emitUpdate, popup_emitUpdate. split_and!.
  - cbn [with_currentPopup repositoryStateCache]. congruence.
  - done.
  - intros Hs. rewrite Hnow by congruence. lia.
  - intros Hs. apply Hqueued. congruence.
Qed.

Lemma get_showPopup (s : AppStore) (popup : Popup) (r : RepositoryId) :
  get (_showPopup s popup) r = get s r.
Proof.
  unfold get. by destruct (showPopup_effect s popup) as [-> _].
Qed.

Create Rewrite HintDb store.

#[local] Hint Rewrite get_update_eq get_emitUpdate
  get_with_currentMergeTreePromise promise_update promise_emitUpdate : store.

(** ** Commit selection *)

Lemma changeCommitSelection_reset (s : AppStore) (r : RepositoryId)
    (sha : string) :
  cs_sha (commitSelection (get s r)) ≠ Some sha ->
  commitSelection (get (_changeCommitSelection s r sha) r)
  = mkCommitSelection (Some sha) None [] None None.
Proof.
  intros Hne. unfold _changeCommitSelection.
  rewrite bool_decide_eq_false_2 by done.
  unfold updateCommitSelection. by autorewrite with store.
Qed.

(** C10. [_changeCommitSelection] with the SHA that is already selected
    leaves the whole store as it is (the slice keeps its file, changed
    files and diff, and nothing is emitted); with any other SHA the slice
    becomes that SHA with no file, no changed files, no diff and no
    loading token, and an update is emitted (at once when the window is
    hidden, queued otherwise).  Calling it twice is calling it once. *)
Theorem changeCommitSelection_idempotent (s : AppStore) (r : RepositoryId)
    (sha : string) :
  (cs_sha (commitSelection (get s r)) = Some sha ->
     _changeCommitSelection s r sha = s)
  /\ (cs_sha (commitSelection (get s r)) ≠ Some sha ->
        let s' := _changeCommitSelection s r sha in
        commitSelection (get s' r) = mkCommitSelection (Some sha) None [] None None
        /\ (windowHidden s = true -> emitted s' = S (emitted s))
        /\ (windowHidden s = false -> emitQueued s' = true))
  /\ _changeCommitSelection (_changeCommitSelection s r sha) r sha
     = _changeCommitSelection s r sha.
Proof.
  pose proof (changeCommitSelection_reset s r sha) as Hreset.
  split; [|split].
  - intros Heq. unfold _changeCommitSelection.
    by rewrite bool_decide_eq_true_2.
  - intros Hne s'. split; [by apply Hreset|].
    subst s'. unfold _changeCommitSelection.
    rewrite bool_decide_eq_false_2 by done.
    apply (emitUpdate_effect
             (updateCommitSelection s r
                (fun _ => mkCommitSelection (Some sha) None [] None None))).
  - destruct (decide (cs_sha (commitSelection (get s r)) = Some sha)) as [Heq|Hne].
    + unfold _changeCommitSelection at 2 3.
      rewrite bool_decide_eq_true_2 by done.
      unfold _changeCommitSelection. by rewrite bool_decide_eq_true_2.
    + specialize (Hreset Hne).
      unfold _changeCommitSelection at 1.
      rewrite bool_decide_eq_true_2; [done|]. by rewrite Hreset.
Qed.

(** ** Reentrancy gates *)

(** C9. A run of [isCommitting] (of [withPushPull]) that finds its gate
    free calls the wrapped function with the flag [isCommitting]
    ([isPushPullFetchInProgress]) set, and ends in the store that the
    function left, with nothing changed but the flag, which is cleared, and
    an update emitted: whatever the function did to the store, also to the
    flag, and whether it returned or threw.  What the function returned or
    threw is handed on.  A run that finds the gate held changes nothing,
    does not call the wrapped function and returns [undefined] without an
    error. *)
Theorem gates_release_on_every_exit (s : AppStore) (r : RepositoryId) :
  (forall fn, isCommitting (get s r) = false ->
     let entered := emitUpdate (update s r (with_isCommitting true)) in
     let result := isCommitting_gate s r fn in
     isCommitting (get entered r) = true
     /\ result.1
        = emitUpdate (update (fn entered).1 r (with_isCommitting false))
     /\ isCommitting (get result.1 r) = false
     /\ get result.1 r = with_isCommitting false (get (fn entered).1 r)
     /\ (forall r', r' ≠ r -> get result.1 r' = get (fn entered).1 r')
     /\ result.2 = match (fn entered).2 with
                   | Returned sha => Returned (Some (bool_decide (sha ≠ None)))
                   | Thrown e => Thrown e
                   end
     /\ (forall e, (fn entered).2 = Thrown e -> result.2 = Thrown e))
  /\ (forall fn, isCommitting (get s r) = true ->
        isCommitting_gate s r fn = (s, Returned None))
  /\ (forall fn, isPushPullFetchInProgress (get s r) = false ->
        let entered :=
          emitUpdate (update s r (with_isPushPullFetchInProgress true)) in
        let result := withPushPull s r fn in
        isPushPullFetchInProgress (get entered r) = true
        /\ result.1
           = emitUpdate
               (update (fn entered).1 r (with_isPushPullFetchInProgress false))
        /\ isPushPullFetchInProgress (get result.1 r) = false
        /\ get result.1 r
           = with_isPushPullFetchInProgress false (get (fn entered).1 r)
        /\ (forall r', r' ≠ r -> get result.1 r' = get (fn entered).1 r')
        /\ result.2 = (fn entered).2)
  /\ (forall fn, isPushPullFetchInProgress (get s r) = true ->
        withPushPull s r fn = (s, Returned tt)).
Proof.
  split_and!.
  - intros fn Hfree entered result.
    assert (Hresult : result
                      = (emitUpdate
                           (update (fn entered).1 r (with_isCommitting false)),
                         match (fn entered).2 with
                         | Returned sha =>
                             Returned (Some (bool_decide (sha ≠ None)))
                         | Thrown e => Thrown e
                         end)).
    { subst result entered. unfold isCommitting_gate. rewrite Hfree.
      by destruct (fn _) as [s2 res]. }
    rewrite Hresult. cbn [fst snd]. split_and!.
    + subst entered. by autorewrite with store.
    + done.
    + by autorewrite with store.
    + by autorewrite with store.
    + intros r' Hne. by rewrite get_emitUpdate, get_update_ne.
    + done.
    + by intros e ->.
  - intros fn Hheld. unfold isCommitting_gate. by rewrite Hheld.
  - intros fn Hfree entered result.
    assert (Hresult : result
                      = (emitUpdate
                           (update (fn entered).1 r
                              (with_isPushPullFetchInProgress false)),
                         (fn entered).2)).
    { subst result entered.
      unfold withPushPull, withPushPull_enter, withPushPull_exit.
      rewrite Hfree. by destruct (fn _) as [s2 res]. }
    rewrite Hresult. cbn [fst snd]. split_and!.
    + subst entered. by autorewrite with store.
    + done.
    + by autorewrite with store.
    + by autorewrite with store.
    + intros r' Hne. by rewrite get_emitUpdate, get_update_ne.
    + done.
  - intros fn Hheld. unfold withPushPull, withPushPull_enter. by rewrite Hheld.
Qed.

Lemma changeCommitSelection_idempotent_witness :
  _changeCommitSelection selectedStore 1%N "a1" = selectedStore
  /\ commitSelection (get (_changeCommitSelection selectedStore 1%N "b2") 1%N)
     = mkCommitSelection (Some "b2") None [] None None
  /\ emitQueued (_changeCommitSelection selectedStore 1%N "b2") = true.
Proof.
  destruct (changeCommitSelection_idempotent selectedStore 1%N "a1") as [Hsame _].
  destruct (changeCommitSelection_idempotent selectedStore 1%N "b2")
    as (_ & Hother & _).
  split.
  { apply Hsame. vm_compute. reflexivity. }
  destruct Hother as (Hreset & _ & Hqueued).
  { vm_compute. discriminate. }
  split; [exact Hreset | apply Hqueued; reflexivity].
Defined.

Lemma gates_release_on_every_exit_witness :
  let failing := fun s : AppStore =>
    (_changeCommitSelection s 1%N "a1", @Thrown (option string) "commit failed") in
  let rejected := fun s : AppStore =>
    (update s 1%N (fun st =>
       with_isPushPullFetchInProgress true
         (with_pushPullFetchProgress (Some (report "push" 0.5)) st)),
     @Thrown unit "push rejected") in
  let committing := update emptyStore 1%N (with_isCommitting true) in
  let pushing := update emptyStore 1%N (with_isPushPullFetchInProgress true) in
  let committed := (isCommitting_gate emptyStore 1%N failing).1 in
  let pushed := (withPushPull emptyStore 1%N rejected).1 in
  isCommitting (get committed 1%N) = false
  /\ cs_sha (commitSelection (get committed 1%N)) = Some "a1"
  /\ (isCommitting_gate emptyStore 1%N failing).2 = Thrown "commit failed"
  /\ isCommitting_gate committing 1%N failing = (committing, Returned None)
  /\ isPushPullFetchInProgress (get pushed 1%N) = false
  /\ pushPullFetchProgress (get pushed 1%N) = Some (report "push" 0.5)
  /\ (withPushPull emptyStore 1%N rejected).2 = Thrown "push rejected"
  /\ withPushPull pushing 1%N rejected = (pushing, Returned tt).
Proof.
  intros failing rejected committing pushing committed pushed.
  destruct (gates_release_on_every_exit emptyStore 1%N)
    as (Hcommit & _ & Hpush & _).
  destruct (gates_release_on_every_exit committing 1%N) as (_ & Hheld & _).
  destruct (gates_release_on_every_exit pushing 1%N) as (_ & _ & _ & Hbusy).
  destruct (Hcommit failing eq_refl)
    as (_ & _ & Hflag & Hslice & _ & _ & Hthrown).
  destruct (Hpush rejected eq_refl) as (_ & _ & Hflag' & Hslice' & _ & Hres).
  split_and!.
  - exact Hflag.
  - subst committed. by rewrite Hslice.
  - by apply Hthrown.
  - apply Hheld. vm_compute. reflexivity.
  - exact Hflag'.
  - subst pushed. by rewrite Hslice'.
  - by rewrite Hres.
  - apply Hbusy. vm_compute. reflexivity.
Defined.

(** ** Background fetch policy *)

(** C7, as the code has it.  [shouldBackgroundFetch] skips the fetch if and
    only if the repository has been fetched before and either that fetch is
    younger than the minimum interval, or a last push is known and is not
    later than the last fetch.  A fetch inside the minimum interval is
    skipped whatever the last push. *)
Theorem shouldBackgroundFetch_skips_iff (lastFetched : option Z) (now : Z)
    (lastPush : option Z) :
  shouldBackgroundFetch lastFetched now lastPush = false
  <-> exists fetched, lastFetched = Some fetched
        /\ (now - fetched < BackgroundFetchMinimumInterval
            \/ exists pushed, lastPush = Some pushed /\ pushed <= fetched).
Proof.
  unfold shouldBackgroundFetch. split.
  - destruct lastFetched as [fetched|]; [|discriminate].
    intros H. exists fetched. split; [done|].
    destruct (Z.ltb_spec (now - fetched) BackgroundFetchMinimumInterval); [by left|].
    right. destruct lastPush as [pushed|]; [|discriminate].
    exists pushed. split; [done|].
    destruct (Z.ltb_spec fetched pushed); [discriminate|lia].
  - intros (fetched & -> & [Hrecent | (pushed & -> & Hle)]).
    + destruct (Z.ltb_spec (now - fetched) BackgroundFetchMinimumInterval); [done|lia].
    + destruct (Z.ltb_spec (now - fetched) BackgroundFetchMinimumInterval); [done|].
      destruct (Z.ltb_spec fetched pushed); [lia|done].
Qed.

Lemma shouldBackgroundFetch_skips_iff_witness :
  shouldBackgroundFetch (Some 1000) (1000 + 31 * 60 * 1000) (Some 400) = false.
Proof.
  apply (shouldBackgroundFetch_skips_iff (Some 1000) (1000 + 31 * 60 * 1000)
           (Some 400)).
  exists 1000. split; [reflexivity|].
  right. exists 400. split; [reflexivity|lia].
Defined.

(** C7 as stated fails: the last fetch is one second old, inside the
    minimum interval, a push has landed since, and the fetch is skipped. *)
Lemma shouldBackgroundFetch_recent_fetch_skips_despite_push :
  ~ (2000 - 1000 < BackgroundFetchMinimumInterval ->
     1000 < 1500 ->
     shouldBackgroundFetch (Some 1000) 2000 (Some 1500) = true).
Proof.
  intros Hclaim.
  assert (Hrun : shouldBackgroundFetch (Some 1000) 2000 (Some 1500) = true).
  { apply Hclaim; reflexivity. }
  vm_compute in Hrun. discriminate.
Qed.

(** The policy the background fetcher is started with never sees a push
    time: it runs exactly when there was no fetch yet or the last one is at
    least the minimum interval old. *)
Lemma backgroundFetchPolicy_runs_iff (lastFetched : option Z) (now : Z) :
  backgroundFetchPolicy lastFetched now = true
  <-> lastFetched = None
      \/ exists fetched, lastFetched = Some fetched
           /\ BackgroundFetchMinimumInterval <= now - fetched.
Proof.
  unfold backgroundFetchPolicy, shouldBackgroundFetch.
  destruct lastFetched as [fetched|].
  - destruct (Z.ltb_spec (now - fetched) BackgroundFetchMinimumInterval); split.
    + discriminate.
    + intros [?|(f & [= <-] & ?)]; [done|lia].
    + intros _. right. by exists fetched.
    + done.
  - split; [by left|done].
Qed.

(** ** The diverging-branch banner *)

Lemma bannerVisible_set (s : AppStore) (r : RepositoryId) (visible : bool) :
  bannerVisible (_setDivergingBranchBannerVisibility s r visible) r = visible.
Proof.
  unfold bannerVisible, _setDivergingBranchBannerVisibility.
  case_bool_decide as Hne.
  - unfold updateCompareState. by autorewrite with store.
  - destruct (cmp_isDivergingBranchBannerVisible _), visible; congruence.
Qed.

Lemma storedBehind_set (s : AppStore) (r : RepositoryId) (visible : bool) :
  storedBehind (_setDivergingBranchBannerVisibility s r visible) r
  = storedBehind s r.
Proof.
  unfold storedBehind, _setDivergingBranchBannerVisibility.
  case_bool_decide; [|done].
  unfold updateCompareState. by autorewrite with store.
Qed.

(** C6, as the code has it.  After [_initializeCompare] the banner is
    visible if and only if a comparison branch was inferred, its behind
    count is greater than zero and differs from the behind count stored by
    the previous run; an unchanged count never shows it, a count that
    changed to a smaller non-zero one does.  The count stored for the next
    run is the one just computed. *)
Theorem divergingBanner_visible_iff (state : IRepositoryState)
    (inferred : option Branch) (s : AppStore) (r : RepositoryId) :
  let s' := _initializeCompare_resume state inferred s r in
  let previousCount :=
    getBehindOrDefault
      (icb_aheadBehind (cmp_inferredComparisonBranch (compareState state))) in
  (bannerVisible s' r = true
   <-> exists currentCount, currentBehind state inferred = Some currentCount
         /\ 0 < currentCount /\ previousCount ≠ currentCount)
  /\ storedBehind s' r = default 0 (currentBehind state inferred).
Proof.
  intros s' previousCount. subst s' previousCount.
  unfold _initializeCompare_resume, currentBehind.
  destruct (bs_tip (branchesState state)) as [| |sha|tipBranch];
    destruct (cmp_aheadBehindCache (compareState state)) as [cache|];
    try destruct inferred as [ib|];
    rewrite ?bannerVisible_set, ?storedBehind_set;
    unfold storedBehind at 1, updateCompareState;
    autorewrite with store; simpl;
    (split; [|reflexivity]);
    try (split; [discriminate | by intros (? & [=] & _)]).
  split.
  - intros [Hpos Hne]%andb_prop. eexists. split; [reflexivity|].
    apply Z.ltb_lt in Hpos. apply negb_true_iff, Z.eqb_neq in Hne. done.
  - intros (c & [= <-] & Hpos & Hne). apply andb_true_intro. split.
    + by apply Z.ltb_lt.
    + by apply negb_true_iff, Z.eqb_neq.
Qed.

Lemma divergingBanner_visible_iff_witness :
  bannerVisible (_initializeCompare behindStore 1%N (Some mainBranch)) 1%N = true
  /\ storedBehind (_initializeCompare behindStore 1%N (Some mainBranch)) 1%N = 3.
Proof.
  destruct (divergingBanner_visible_iff (get behindStore 1%N) (Some mainBranch)
              behindStore 1%N) as [Hvisible Hstored].
  split.
  - apply Hvisible. exists 3. vm_compute. split_and!; [reflexivity..|discriminate].
  - exact Hstored.
Defined.

(** C6 as stated fails: the stored behind count is 5, the new one is 3, and
    the banner is shown although the count did not grow. *)
Lemma divergingBanner_shown_when_behind_count_drops :
  ~ (bannerVisible (_initializeCompare behindStore 1%N (Some mainBranch)) 1%N = true ->
     storedBehind behindStore 1%N
     < storedBehind (_initializeCompare behindStore 1%N (Some mainBranch)) 1%N).
Proof.
  intros Hclaim.
  assert (Hlt : storedBehind behindStore 1%N
                < storedBehind (_initializeCompare behindStore 1%N (Some mainBranch)) 1%N).
  { apply Hclaim. vm_compute. reflexivity. }
  vm_compute in Hlt. discriminate.
Qed.

(** ** Stale diff loads *)

Lemma changeFileSelection_resume_stale (s : AppStore) (r : RepositoryId)
    (file : CommittedFileChange) (stateBeforeLoad : IRepositoryState)
    (diff : IDiff) :
  cs_sha (commitSelection (get s r)) ≠ cs_sha (commitSelection stateBeforeLoad)
  \/ cs_file (commitSelection (get s r)) = None
  \/ (exists selected, cs_file (commitSelection (get s r)) = Some selected
        /\ file_id selected ≠ file_id file) ->
  _changeFileSelection_resume s r file stateBeforeLoad diff = s.
Proof.
  intros Hstale. unfold _changeFileSelection_resume.
  case_bool_decide as Hsha; [done|].
  destruct Hstale as [Hne | [Hnone | (selected & Hsel & Hid)]].
  - done.
  - by rewrite Hnone.
  - rewrite Hsel. by rewrite bool_decide_eq_true_2.
Qed.

Lemma sketchPreview_stale_token (s : AppStore) (r : RepositoryId)
    (diffId : DiffId) (err previews : option string) :
  cs_loadingDiff (commitSelection (get s r)) ≠ Some diffId ->
  updateDiffWithSketchPreview r diffId true s err previews = (s, false).
Proof.
  intros Htoken. unfold updateDiffWithSketchPreview.
  destruct err, previews; try done.
  rewrite (bool_decide_eq_true_2 _ Htoken). by rewrite orb_true_r.
Qed.

(** C5, as the code has it.  When [getCommitDiff] resolves,
    [_changeFileSelection] leaves the whole store as it finds it if the
    selected SHA is no longer the one it started from, or no file is
    selected, or the selected file has another id; and the sketch preview
    callback of the load leaves the store as it finds it, without re-arming
    itself, if the loading token of the slice is no longer the one it was
    minted with.  The completion of the load itself does not look at the
    token. *)
Theorem stale_diff_load_discarded (s : AppStore) (r : RepositoryId)
    (file : CommittedFileChange) (stateBeforeLoad : IRepositoryState)
    (diff : IDiff) (diffId : DiffId) (err previews : option string) :
  (cs_sha (commitSelection (get s r)) ≠ cs_sha (commitSelection stateBeforeLoad)
   \/ cs_file (commitSelection (get s r)) = None
   \/ (exists selected, cs_file (commitSelection (get s r)) = Some selected
         /\ file_id selected ≠ file_id file) ->
   _changeFileSelection_resume s r file stateBeforeLoad diff = s)
  /\ (cs_loadingDiff (commitSelection (get s r)) ≠ Some diffId ->
      updateDiffWithSketchPreview r diffId true s err previews = (s, false)).
Proof.
  split.
  - apply changeFileSelection_resume_stale.
  - apply sketchPreview_stale_token.
Qed.

(** A commit selected while the load is in flight makes it stale. *)
Lemma diff_load_discarded_after_commit_change (s s1 : AppStore)
    (r : RepositoryId) (file : CommittedFileChange) (diffId : DiffId)
    (stateBeforeLoad : IRepositoryState) (sha : string) (diff : IDiff) :
  _changeFileSelection_start s r file diffId = (s1, Some stateBeforeLoad) ->
  cs_sha (commitSelection (get s1 r)) ≠ Some sha ->
  let s2 := _changeCommitSelection s1 r sha in
  _changeFileSelection_resume s2 r file stateBeforeLoad diff = s2.
Proof.
  intros Hstart Hother s2.
  apply changeFileSelection_resume_stale.
  left. subst s2.
  rewrite (changeCommitSelection_reset s1 r sha Hother). simpl.
  unfold _changeFileSelection_start in Hstart.
  case_match; [done|]. injection Hstart as <- <-. simpl. done.
Qed.

(** Another file selected while the load is in flight makes it stale, and
    the preview callback of the first load is turned away by the new
    token. *)
Lemma diff_load_discarded_after_file_change (s1 : AppStore) (r : RepositoryId)
    (file other : CommittedFileChange) (diffId otherId : DiffId)
    (stateBeforeLoad : IRepositoryState) (diff : IDiff)
    (err previews : option string) :
  file_id other ≠ file_id file ->
  otherId ≠ diffId ->
  let s2 := (_changeFileSelection_start s1 r other otherId).1 in
  _changeFileSelection_resume s2 r file stateBeforeLoad diff = s2
  /\ updateDiffWithSketchPreview r diffId true s2 err previews = (s2, false).
Proof.
  intros Hid Htoken s2.
  assert (Hfile : cs_file (commitSelection (get s2 r)) = Some other).
  { subst s2. unfold _changeFileSelection_start.
    case_match; simpl; unfold updateCommitSelection;
      by autorewrite with store. }
  assert (Hloading : cs_loadingDiff (commitSelection (get s2 r)) ≠ Some diffId).
  { subst s2. unfold _changeFileSelection_start.
    case_match; simpl; unfold updateCommitSelection;
      autorewrite with store; simpl; congruence. }
  split.
  - apply changeFileSelection_resume_stale.
    right; right. by exists other.
  - by apply sketchPreview_stale_token.
Qed.

Lemma stale_diff_load_discarded_witness :
  let s2 := _changeCommitSelection firstLoad.1 1%N "b2" in
  _changeFileSelection_resume s2 1%N exampleFile (get firstLoad.1 1%N) exampleDiff
  = s2
  /\ updateDiffWithSketchPreview 1%N 7%N true s2 None (Some "preview") = (s2, false).
Proof.
  intros s2.
  destruct (stale_diff_load_discarded s2 1%N exampleFile (get firstLoad.1 1%N)
              exampleDiff 7%N None (Some "preview")) as [Hload Hpreview].
  split.
  - apply Hload. left. vm_compute. discriminate.
  - apply Hpreview. vm_compute. discriminate.
Defined.

(** C5 as stated fails on the token: the file is selected again while its
    first load is in flight, so the slice holds token 9 and not the token 7
    of the first load; SHA and file are the same, and when the first load
    completes it writes its diff and clears the token of the second. *)
Lemma stale_token_load_still_writes_diff :
  ~ (cs_loadingDiff (commitSelection (get reselectedStore 1%N)) ≠ Some 7%N ->
     commitSelection
       (get (_changeFileSelection_resume reselectedStore 1%N exampleFile
               (get firstLoad.1 1%N) exampleDiff) 1%N)
     = commitSelection (get reselectedStore 1%N)).
Proof.
  intros Hclaim.
  assert (Hsame : commitSelection
            (get (_changeFileSelection_resume reselectedStore 1%N exampleFile
                    (get firstLoad.1 1%N) exampleDiff) 1%N)
          = commitSelection (get reselectedStore 1%N)).
  { apply Hclaim. vm_compute. discriminate. }
  vm_compute in Hsame. discriminate.
Qed.

(** ** Progress of a push *)

Section PushProgress.
Local Open Scope Q_scope.

Lemma pushWeight_value : Push.pushWeight == 9 # 14.
Proof. reflexivity. Qed.

Lemma fetchWeight_value : Push.fetchWeight == 9 # 35.
Proof. reflexivity. Qed.

Lemma refreshStartProgress_value : Push.refreshStartProgress == 9 # 10.
Proof. reflexivity. Qed.

Lemma refreshWeight_value : Push.refreshWeight == 1 # 10.
Proof. reflexivity. Qed.

Lemma progressValues_some {A : Type} (g : A -> Progress) (l : list A) :
  progressValues (map (fun x => Some (g x)) l) = map (fun x => p_value (g x)) l.
Proof. induction l as [|x l IH]; simpl; [done|]. by f_equal. Qed.

Lemma progressValues_progressReports (remoteName branchName : string)
    (push fetch : PhaseRun) (refreshed : bool) :
  progressValues (Push.progressReports remoteName branchName push fetch refreshed)
  = pushValues push fetch refreshed.
Proof.
  unfold Push.progressReports, pushValues, progressValues, fractions.
  rewrite !omap_app. simpl. f_equal.
  rewrite app_nil_r.
  fold (progressValues
          (map (fun progress =>
                  Some (with_value (Push.pushWeight * p_value progress)
                          (with_title ("Pushing to " +:+ remoteName) progress)))
             (reports push))).
  rewrite progressValues_some. simpl. rewrite map_map. f_equal.
  destruct (completed push); [|done].
  rewrite omap_app.
  fold (progressValues
          (map (fun fetchProgress =>
                  Some (with_value
                          (Push.pushWeight + p_value fetchProgress * Push.fetchWeight)
                          fetchProgress))
             (reports fetch))).
  rewrite progressValues_some. simpl. rewrite map_map. f_equal.
  destruct (completed fetch); [|done].
  by destruct refreshed.
Qed.

Lemma nondecreasing_app (l1 l2 : list Q) :
  StronglySorted Qle l1 -> StronglySorted Qle l2 ->
  (forall x y, In x l1 -> In y l2 -> x <= y) ->
  StronglySorted Qle (l1 ++ l2).
Proof.
  induction 1 as [|a l1 Hs IH Ha]; intros H2 Hcross; simpl; [done|].
  constructor.
  - apply IH; [done|]. intros x y Hx Hy. apply Hcross; [by right|done].
  - apply Forall_app. split; [done|].
    apply List.Forall_forall. intros y Hy. apply Hcross; [by left|done].
Qed.

Lemma nondecreasing_map (f : Q -> Q) (l : list Q) :
  (forall x y, x <= y -> f x <= f y) ->
  StronglySorted Qle l -> StronglySorted Qle (map f l).
Proof.
  intros Hmono. induction 1 as [|a l Hs IH Ha]; simpl; constructor; [done|].
  apply List.Forall_forall. intros y [x [<- Hx]]%in_map_iff.
  apply Hmono. rewrite List.Forall_forall in Ha. by apply Ha.
Qed.


Lemma pushValues_nondecreasing (push fetch : PhaseRun) (refreshed : bool) :
  fractionsInUnitInterval push -> fractionsNondecreasing push ->
  fractionsInUnitInterval fetch -> fractionsNondecreasing fetch ->
  StronglySorted Qle (pushValues push fetch refreshed).
Proof.
  unfold fractionsInUnitInterval, fractionsNondecreasing, pushValues.
  intros Hpu Hps Hfu Hfs.
  rewrite List.Forall_forall in Hpu. rewrite List.Forall_forall in Hfu.
  apply (nondecreasing_app [0]).
  { repeat constructor. }
  2:{ intros x y [<-|[]] Hy. apply in_app_or in Hy as [Hy|Hy].
      - apply in_map_iff in Hy as (f & <- & Hf). apply Hpu in Hf.
        rewrite pushWeight_value. lra.
      - destruct (completed push); [|done].
        apply in_app_or in Hy as [Hy|Hy].
        + apply in_map_iff in Hy as (f & <- & Hf). apply Hfu in Hf.
          rewrite pushWeight_value, fetchWeight_value. lra.
        + destruct (completed fetch); [|done].
          destruct Hy as [<-|Hy]; [by rewrite refreshStartProgress_value|].
          destruct refreshed; [|done]. destruct Hy as [<-|[]].
          rewrite refreshStartProgress_value, refreshWeight_value. lra. }
  apply nondecreasing_app.
  { apply nondecreasing_map; [|done].
    intros x y Hxy. rewrite pushWeight_value. lra. }
  2:{ intros x y (f & <- & Hf)%in_map_iff Hy. apply Hpu in Hf.
      destruct (completed push); [|done].
      apply in_app_or in Hy as [Hy|Hy].
      - apply in_map_iff in Hy as (g & <- & Hg). apply Hfu in Hg.
        rewrite pushWeight_value, fetchWeight_value. lra.
      - destruct (completed fetch); [|done].
        destruct Hy as [<-|Hy].
        { rewrite refreshStartProgress_value, pushWeight_value. lra. }
        destruct refreshed; [|done]. destruct Hy as [<-|[]].
        rewrite refreshStartProgress_value, refreshWeight_value, pushWeight_value.
        lra. }
  destruct (completed push); [|constructor].
  apply nondecreasing_app.
  { apply nondecreasing_map; [|done].
    intros x y Hxy. rewrite fetchWeight_value. lra. }
  2:{ intros x y (g & <- & Hg)%in_map_iff Hy. apply Hfu in Hg.
      destruct (completed fetch); [|done].
      destruct Hy as [<-|Hy].
      { rewrite refreshStartProgress_value, pushWeight_value, fetchWeight_value. lra. }
      destruct refreshed; [|done]. destruct Hy as [<-|[]].
      rewrite refreshStartProgress_value, refreshWeight_value, pushWeight_value,
        fetchWeight_value.
      lra. }
  destruct (completed fetch); [|constructor].
  destruct refreshed; repeat constructor.
  rewrite refreshStartProgress_value, refreshWeight_value. lra.
Qed.

Lemma pushValues_below_one (push fetch : PhaseRun) (refreshed : bool) :
  fractionsInUnitInterval push -> fractionsInUnitInterval fetch ->
  Forall (fun v => 0 <= v /\ v <= 19 # 20) (pushValues push fetch refreshed).
Proof.
  unfold fractionsInUnitInterval, pushValues. intros Hpu Hfu.
  rewrite List.Forall_forall in Hpu. rewrite List.Forall_forall in Hfu.
  apply List.Forall_forall. intros v [<-|Hv]; [lra|].
  apply in_app_or in Hv as [Hv|Hv].
  { apply in_map_iff in Hv as (f & <- & Hf). apply Hpu in Hf.
    rewrite pushWeight_value. lra. }
  destruct (completed push); [|done].
  apply in_app_or in Hv as [Hv|Hv].
  { apply in_map_iff in Hv as (f & <- & Hf). apply Hfu in Hf.
    rewrite pushWeight_value, fetchWeight_value. lra. }
  destruct (completed fetch); [|done].
  destruct Hv as [<-|Hv]; [rewrite refreshStartProgress_value; lra|].
  destruct refreshed; [|done]. destruct Hv as [<-|[]].
  rewrite refreshStartProgress_value, refreshWeight_value. lra.
Qed.


Lemma all_shown (l : list (option Progress)) :
  Forall is_Some l -> exists shown, l = map Some shown.
Proof.
  induction 1 as [|[p|] l Hp Hl [shown ->]].
  - by exists [].
  - by exists (p :: shown).
  - by destruct Hp.
Qed.

Lemma shown_map {A : Type} (g : A -> Progress) (l : list A) :
  Forall is_Some (map (fun x => Some (g x)) l).
Proof. induction l; simpl; constructor; [by eexists|done]. Qed.

Lemma progressReports_end_with_null (remoteName branchName : string)
    (push fetch : PhaseRun) (refreshed : bool) :
  exists shown,
    Push.progressReports remoteName branchName push fetch refreshed
    = map Some shown ++ [None].
Proof.
  unfold Push.progressReports. rewrite !app_assoc.
  match goal with
  | |- exists shown, ?l ++ [None] = _ =>
      destruct (all_shown l) as [shown ->]; [|by exists shown]
  end.
  rewrite !Forall_app. split_and!.
  - constructor; [by eexists|constructor].
  - apply shown_map.
  - destruct (completed push); [|constructor].
    rewrite !Forall_app. split_and!.
    + apply shown_map.
    + destruct (completed fetch); [|constructor].
      rewrite !Forall_app. split_and!.
      * constructor; [by eexists|constructor].
      * destruct refreshed; constructor; [by eexists|constructor].
Qed.

Lemma progress_after_report (s : AppStore) (r : RepositoryObject)
    (p : option Progress) :
  pushPullFetchProgress (get (updatePushPullFetchProgress s r p) r) = p.
Proof.
  unfold updatePushPullFetchProgress.
  destruct (sameObject _ _); by autorewrite with store.
Qed.

(** C4, as the code has it.  When the command layer reports, within each
    phase, fractions in [0,1] that do not go back, the values that
    [performPush] hands to [updatePushPullFetchProgress] never decrease,
    whichever phase fails; they stay between 0 and 0.95, the value of the
    last report of a push whose phases all succeed; then comes the one
    [null], which is the last report and leaves the slice without
    progress.  The value 1.0 is never reported. *)
Theorem push_progress_nondecreasing_up_to_095 (s : AppStore)
    (r : RepositoryObject) (remoteName branchName : string)
    (push fetch : PhaseRun) (refreshed : bool) :
  fractionsInUnitInterval push -> fractionsNondecreasing push ->
  fractionsInUnitInterval fetch -> fractionsNondecreasing fetch ->
  let log := Push.progressReports remoteName branchName push fetch refreshed in
  (exists shown, log = map Some shown ++ [None])
  /\ StronglySorted Qle (progressValues log)
  /\ Forall (fun v => 0 <= v /\ v <= 19 # 20) (progressValues log)
  /\ (completed push = true -> completed fetch = true -> refreshed = true ->
      exists v, last (progressValues log) = Some v /\ v == 19 # 20)
  /\ pushPullFetchProgress (get (Push.reportAll s r log) r) = None.
Proof.
  intros Hpu Hps Hfu Hfs log. subst log.
  rewrite progressValues_progressReports. split_and!.
  - apply progressReports_end_with_null.
  - by apply pushValues_nondecreasing.
  - by apply pushValues_below_one.
  - unfold pushValues. intros -> -> ->.
    exists (Push.refreshStartProgress + Push.refreshWeight * 0.5). split.
    + rewrite app_comm_cons, app_assoc.
      change (Push.refreshStartProgress
              :: [Push.refreshStartProgress + Push.refreshWeight * 0.5])
        with ([Push.refreshStartProgress]
              ++ [Push.refreshStartProgress + Push.refreshWeight * 0.5]).
      rewrite app_assoc. apply last_snoc.
    + reflexivity.
  - destruct (progressReports_end_with_null remoteName branchName push fetch
                refreshed) as [shown ->].
    unfold Push.reportAll. rewrite fold_left_app. simpl.
    apply progress_after_report.
Qed.

Lemma push_progress_nondecreasing_up_to_095_witness :
  let log := Push.progressReports "origin" "main" (steadyPhase "push")
               (steadyPhase "fetch") true in
  StronglySorted Qle (progressValues log)
  /\ (exists v, last (progressValues log) = Some v /\ v == 19 # 20)
  /\ pushPullFetchProgress (get (Push.reportAll emptyStore repositoryOne log) 1%N) = None.
Proof.
  assert (Hunit : forall kind, fractionsInUnitInterval (steadyPhase kind)).
  { intros kind. repeat constructor; vm_compute; discriminate. }
  assert (Hsorted : forall kind, fractionsNondecreasing (steadyPhase kind)).
  { intros kind. repeat constructor; vm_compute; discriminate. }
  destruct (push_progress_nondecreasing_up_to_095 emptyStore repositoryOne
              "origin" "main"
              (steadyPhase "push") (steadyPhase "fetch") true
              (Hunit "push") (Hsorted "push") (Hunit "fetch") (Hsorted "fetch"))
    as (_ & Hmono & _ & Hlast & Hnull).
  split_and!; [exact Hmono | by apply Hlast | exact Hnull].
Defined.

(** C4 as stated fails twice.  A push whose phases all succeed, with the
    fractions 0, 1/2 and 1 in each, never reports the value 1.0; and
    fractions that lie in [0,1] but go back make the reported values go
    back. *)
Lemma push_progress_never_reaches_one :
  ~ Exists (fun v => v == 1)
      (progressValues
         (Push.progressReports "origin" "main" (steadyPhase "push")
            (steadyPhase "fetch") true))
  /\ ~ (fractionsInUnitInterval (backwardsPhase "push") ->
        StronglySorted Qle
          (progressValues
             (Push.progressReports "origin" "main" (backwardsPhase "push")
                (steadyPhase "fetch") true))).
Proof.
  split.
  - rewrite List.Exists_exists. intros (v & Hin & Hv).
    vm_compute in Hin.
    repeat (destruct Hin as [<-|Hin]; [vm_compute in Hv; discriminate|]).
    destruct Hin.
  - intros Hclaim.
    assert (Hunit : fractionsInUnitInterval (backwardsPhase "push")).
    { repeat constructor; vm_compute; discriminate. }
    specialize (Hclaim Hunit). vm_compute in Hclaim.
    inversion Hclaim as [|? ? Htail _]; subst.
    inversion Htail as [|? ? _ Hfirst]; subst.
    inversion Hfirst as [|? ? Hle _]; subst.
    vm_compute in Hle. by apply Hle.
Qed.

End PushProgress.

(** A whole push of a branch, run without interruption from a free gate,
    leaves the repository with no progress shown and the gate free. *)
Lemma performPush_clears_progress_and_gate (s : AppStore)
    (r : RepositoryObject)
    (remoteName : string) (branch : Branch) (push fetch : PhaseRun)
    (refreshed : bool) :
  remote (get s r) = Some remoteName ->
  bs_tip (branchesState (get s r)) = TipValid branch ->
  isPushPullFetchInProgress (get s r) = false ->
  let s' := (performPush s r push fetch refreshed).1 in
  pushPullFetchProgress (get s' r) = None
  /\ isPushPullFetchInProgress (get s' r) = false.
Proof.
  intros Hremote Htip Hfree s'. subst s'.
  unfold performPush. rewrite Hremote, Htip.
  unfold withPushPull, withPushPull_enter. rewrite Hfree. cbn [fst].
  unfold withPushPull_exit. autorewrite with store.
  split; [|done].
  destruct (progressReports_end_with_null remoteName (branch_name branch)
              push fetch refreshed) as [shown ->].
  unfold Push.reportAll. rewrite fold_left_app.
  cbn [fold_left with_isPushPullFetchInProgress pushPullFetchProgress].
  apply progress_after_report.
Qed.

(** ** Fast-forwarding branches *)

Lemma localRef_not_remote (name upstream : string) :
  formatAsLocalRef name ≠ "refs/remotes/" +:+ upstream.
Proof. unfold formatAsLocalRef. simpl. discriminate. Qed.

Lemma formatAsLocalRef_inj (a b : string) :
  formatAsLocalRef a = formatAsLocalRef b -> a = b.
Proof. unfold formatAsLocalRef. simpl. by intros [=]. Qed.

Lemma branchesToFastForward_eligible (state : IRepositoryState) (b : Branch) :
  In b (branchesToFastForward state) ->
  eligibleForFastForward b
    (currentBranchNameOf (bs_tip (branchesState state))) = true.
Proof.
  unfold branchesToFastForward, defaultBranchIfEligible, eligibleBranches.
  case_match.
  - destruct (bs_defaultBranch (branchesState state)) as [d|]; [|done].
    destruct (eligibleForFastForward d _) eqn:Hd; [|done].
    by intros [<-|[]].
  - by intros [_ Hb]%filter_In.
Qed.

Section FastForward.
Variable getBranchAheadBehind : Refs -> Branch -> option IAheadBehind.

Local Abbreviation step := (fastForwardBranch getBranchAheadBehind).
Local Abbreviation loop := (fastForwardLoop getBranchAheadBehind).

(** A turn of the loop moves at most the local ref of its branch, and
    only for a branch that is behind and not ahead. *)
Lemma fastForwardBranch_moved (refs : Refs) (b : Branch) (x : string) :
  step refs b !! x ≠ refs !! x ->
  x = formatAsLocalRef (branch_name b)
  /\ exists ab, getBranchAheadBehind refs b = Some ab
                /\ ahead ab = 0 /\ 0 < behind ab.
Proof.
  unfold fastForwardBranch.
  destruct (getBranchAheadBehind refs b) as [ab|]; [|done].
  destruct (ahead ab =? 0) eqn:Ha; [|done].
  destruct (0 <? behind ab) eqn:Hb; [|done]. simpl.
  destruct (branch_upstream b) as [up|]; [|done].
  unfold updateRef. intros Hmoved.
  destruct (decide (x = formatAsLocalRef (branch_name b))) as [->|Hne].
  - split; [done|]. exists ab. split; [done|]. split; [lia|lia].
  - by rewrite lookup_partial_alter_ne in Hmoved.
Qed.

Lemma fastForwardBranch_updates (refs : Refs) (b : Branch) (ab : IAheadBehind)
    (up : string) :
  getBranchAheadBehind refs b = Some ab -> ahead ab = 0 -> 0 < behind ab ->
  branch_upstream b = Some up ->
  step refs b !! formatAsLocalRef (branch_name b) = upstreamTip refs up.
Proof.
  intros Hab Ha Hb Hup. unfold fastForwardBranch. rewrite Hab, Hup.
  rewrite (proj2 (Z.eqb_eq _ _) Ha), (proj2 (Z.ltb_lt _ _) Hb). simpl.
  unfold updateRef. by rewrite lookup_partial_alter_eq.
Qed.

Lemma fastForwardLoop_app (pre post : list Branch) (refs : Refs) :
  loop (pre ++ post) refs = loop post (loop pre refs).
Proof. unfold fastForwardLoop. apply fold_left_app. Qed.

(** The remote-tracking refs are never written. *)
Lemma fastForwardLoop_upstreamTip (bs : list Branch) (refs : Refs)
    (up : string) :
  upstreamTip (loop bs refs) up = upstreamTip refs up.
Proof.
  revert refs. induction bs as [|b bs IH]; intros refs; simpl; [done|].
  unfold fastForwardLoop in *. simpl. rewrite IH.
  unfold upstreamTip.
  destruct (decide (step refs b !! ("refs/remotes/" +:+ up)
                    = refs !! ("refs/remotes/" +:+ up))) as [|Hne]; [done|].
  apply fastForwardBranch_moved in Hne as [Heq _].
  symmetry in Heq. by apply localRef_not_remote in Heq.
Qed.

(** Branches of other names leave a local ref alone. *)
Lemma fastForwardLoop_other_names (bs : list Branch) (refs : Refs)
    (name : string) :
  (forall b, In b bs -> branch_name b ≠ name) ->
  loop bs refs !! formatAsLocalRef name = refs !! formatAsLocalRef name.
Proof.
  revert refs. induction bs as [|b bs IH]; intros refs Hnames; [done|].
  unfold fastForwardLoop in *. simpl. rewrite IH.
  - destruct (decide (step refs b !! formatAsLocalRef name
                      = refs !! formatAsLocalRef name)) as [|Hne]; [done|].
    apply fastForwardBranch_moved in Hne as [Heq _].
    apply formatAsLocalRef_inj in Heq. exfalso.
    apply (Hnames b); [by left|done].
  - intros b' Hb'. apply Hnames. by right.
Qed.

(** Whatever ref the loop moved is the local ref of a branch of the
    list that was behind and not ahead when its turn came. *)
Lemma fastForwardLoop_moved (bs : list Branch) (refs : Refs) (x : string) :
  loop bs refs !! x ≠ refs !! x ->
  exists pre b post ab,
    bs = pre ++ b :: post
    /\ x = formatAsLocalRef (branch_name b)
    /\ getBranchAheadBehind (loop pre refs) b = Some ab
    /\ ahead ab = 0 /\ 0 < behind ab.
Proof.
  revert refs. induction bs as [|b bs IH]; intros refs Hmoved; [done|].
  destruct (decide (step refs b !! x = refs !! x)) as [Hsame|Hstep].
  - destruct (IH (step refs b))
      as (pre & b' & post & ab & -> & Hx & Hab & Hahead & Hbehind).
    { unfold fastForwardLoop in *. simpl in Hmoved. by rewrite Hsame. }
    exists (b :: pre), b', post, ab. split_and!; [done|done|exact Hab|done|done].
  - apply fastForwardBranch_moved in Hstep as (Hx & ab & Hab & Hahead & Hbehind).
    exists [], b, bs, ab. split_and!; [done|done|exact Hab|done|done].
Qed.

(** C2.  [fastForwardBranches] moves a ref only if it is the local ref of
    a branch of its list that, when its turn came, was not ahead of its
    upstream and was behind it; a branch of the list that is ahead, or
    has diverged, keeps its ref; and the ref of every branch of the list
    with ahead = 0 and behind > 0 ends at the tip of its upstream.  The
    list is [eligibleBranches] as the loop sees it, and branches are
    told apart by their names. *)
Theorem fastForwardBranches_moves_exactly_the_behind (state : IRepositoryState)
    (refs : Refs) :
  let plan := branchesToFastForward state in
  let refs' := fastForwardBranches getBranchAheadBehind state refs in
  (forall x, refs' !! x ≠ refs !! x ->
     exists pre b post ab,
       plan = pre ++ b :: post
       /\ x = formatAsLocalRef (branch_name b)
       /\ getBranchAheadBehind (loop pre refs) b = Some ab
       /\ ahead ab = 0 /\ 0 < behind ab)
  /\ (forall pre b post ab,
        plan = pre ++ b :: post ->
        (forall b', In b' (pre ++ post) -> branch_name b' ≠ branch_name b) ->
        getBranchAheadBehind (loop pre refs) b = Some ab ->
        0 < ahead ab ->
        refs' !! formatAsLocalRef (branch_name b)
        = refs !! formatAsLocalRef (branch_name b))
  /\ (forall pre b post ab,
        plan = pre ++ b :: post ->
        (forall b', In b' post -> branch_name b' ≠ branch_name b) ->
        getBranchAheadBehind (loop pre refs) b = Some ab ->
        ahead ab = 0 -> 0 < behind ab ->
        exists up, branch_upstream b = Some up
                   /\ refs' !! formatAsLocalRef (branch_name b)
                      = upstreamTip refs up).
Proof.
  intros plan refs'. subst plan refs'. unfold fastForwardBranches.
  split_and!.
  - apply fastForwardLoop_moved.
  - intros pre b post ab -> Hnames Hab Hahead.
    rewrite fastForwardLoop_app.
    change (loop (b :: post) (loop pre refs))
      with (loop post (step (loop pre refs) b)).
    rewrite fastForwardLoop_other_names
      by (intros b' Hb'; apply Hnames, in_or_app; by right).
    destruct (decide (step (loop pre refs) b !! formatAsLocalRef (branch_name b)
                      = loop pre refs !! formatAsLocalRef (branch_name b)))
      as [->|Hne].
    + apply fastForwardLoop_other_names.
      intros b' Hb'. apply Hnames, in_or_app. by left.
    + apply fastForwardBranch_moved in Hne as (_ & ab' & Hab' & Hzero & _).
      rewrite Hab in Hab'. injection Hab' as <-. lia.
  - intros pre b post ab Hplan Hnames Hab Hahead Hbehind.
    assert (Hel : eligibleForFastForward b
                    (currentBranchNameOf (bs_tip (branchesState state))) = true).
    { apply branchesToFastForward_eligible. rewrite Hplan.
      apply in_or_app. right. by left. }
    unfold eligibleForFastForward in Hel.
    apply andb_prop in Hel as [Hup%bool_decide_eq_true _].
    destruct (branch_upstream b) as [up|] eqn:Hupstream; [|done].
    exists up. split; [done|]. rewrite Hplan, fastForwardLoop_app.
    change (loop (b :: post) (loop pre refs))
      with (loop post (step (loop pre refs) b)).
    rewrite fastForwardLoop_other_names by done.
    rewrite (fastForwardBranch_updates _ _ ab up) by done.
    apply fastForwardLoop_upstreamTip.
Qed.

End FastForward.

Lemma fastForwardBranches_moves_exactly_the_behind_witness :
  let refs' :=
    fastForwardBranches threeBranchesAheadBehind threeBranches threeBranchesRefs in
  refs' !! "refs/heads/stale" = Some "s3"
  /\ refs' !! "refs/heads/work" = Some "w2".
Proof.
  intros refs'.
  destruct (fastForwardBranches_moves_exactly_the_behind
              threeBranchesAheadBehind threeBranches threeBranchesRefs)
    as (_ & Hahead & Hbehind).
  split.
  - destruct (Hbehind [] staleBranch [workBranch] (mkAheadBehind 0 2))
      as (up & Hup & Hmoved).
    + reflexivity.
    + intros b' [<-|[]]. vm_compute. discriminate.
    + reflexivity.
    + reflexivity.
    + reflexivity.
    + injection Hup as <-. exact Hmoved.
  - apply (Hahead [staleBranch] workBranch [] (mkAheadBehind 1 1)).
    + reflexivity.
    + intros b' [<-|[]]. vm_compute. discriminate.
    + reflexivity.
    + reflexivity.
Defined.

(** C3, as the code has it.  With at least twenty eligible branches the
    loop sees the default branch alone if it is itself eligible and
    nothing otherwise, and the only ref that can move is the local ref of
    that default branch; with fewer than twenty it sees every eligible
    branch. *)
Theorem fastForwardBranches_threshold (state : IRepositoryState) :
  let currentBranchName := currentBranchNameOf (bs_tip (branchesState state)) in
  ((20 <= length (eligibleBranches state))%nat ->
     branchesToFastForward state
     = match bs_defaultBranch (branchesState state) with
       | Some defaultBranch =>
           if eligibleForFastForward defaultBranch currentBranchName
           then [defaultBranch] else []
       | None => []
       end)
  /\ ((length (eligibleBranches state) < 20)%nat ->
        branchesToFastForward state = eligibleBranches state)
  /\ ((20 <= length (eligibleBranches state))%nat ->
        forall getBranchAheadBehind refs x,
          fastForwardBranches getBranchAheadBehind state refs !! x ≠ refs !! x ->
          exists defaultBranch,
            bs_defaultBranch (branchesState state) = Some defaultBranch
            /\ eligibleForFastForward defaultBranch currentBranchName = true
            /\ x = formatAsLocalRef (branch_name defaultBranch)).
Proof.
  intros currentBranchName.
  assert (Hnarrow : (20 <= length (eligibleBranches state))%nat ->
            branchesToFastForward state = defaultBranchIfEligible state).
  { intros Hmany. unfold branchesToFastForward, FastForwardBranchesThreshold.
    by rewrite (proj2 (Nat.leb_le _ _) Hmany). }
  split_and!.
  - exact Hnarrow.
  - intros Hfew. unfold branchesToFastForward, FastForwardBranchesThreshold.
    by rewrite (proj2 (Nat.leb_gt _ _) Hfew).
  - intros Hmany gab refs x Hmoved.
    apply fastForwardLoop_moved in Hmoved
      as (pre & b & post & ab & Hplan & Hx & _).
    rewrite (Hnarrow Hmany) in Hplan. unfold defaultBranchIfEligible in Hplan.
    fold currentBranchName in Hplan.
    destruct (bs_defaultBranch (branchesState state)) as [d|];
      [|by destruct pre].
    destruct (eligibleForFastForward d currentBranchName) eqn:Hd;
      [|by destruct pre].
    exists d. split_and!; [done|done|].
    destruct pre as [|? [|? ?]]; simplify_eq/=. done.
Qed.

Lemma fastForwardBranches_threshold_witness :
  branchesToFastForward twentyEligible = [mainBranch]
  /\ branchesToFastForward threeBranches = [staleBranch; workBranch].
Proof.
  destruct (fastForwardBranches_threshold twentyEligible) as (Hmany & _ & _).
  destruct (fastForwardBranches_threshold threeBranches) as (_ & Hfew & _).
  split.
  - rewrite Hmany; [reflexivity|]. vm_compute. lia.
  - rewrite Hfew; [reflexivity|]. vm_compute. lia.
Defined.

(** C3 as stated fails at exactly twenty eligible branches: twenty does not
    exceed the threshold, yet the loop sees the default branch alone. *)
Lemma fastForwardBranches_narrowed_at_twenty :
  ~ (~ (20 < length (eligibleBranches twentyEligible))%nat ->
     branchesToFastForward twentyEligible = eligibleBranches twentyEligible).
Proof.
  intros Hclaim.
  assert (Hall : branchesToFastForward twentyEligible
                 = eligibleBranches twentyEligible).
  { apply Hclaim. vm_compute. lia. }
  vm_compute in Hall. discriminate.
Qed.

(** Twenty eligible branches, all behind: only main is fast-forwarded. *)
Example only_main_is_fast_forwarded :
  let refs' := fastForwardBranches oneBehind twentyEligible twentyEligibleRefs in
  refs' !! "refs/heads/main" = Some "m1+1"
  /\ refs' !! "refs/heads/topic-1" = Some "c1"
  /\ refs' !! "refs/heads/topic-19" = Some "c19".
Proof. vm_compute. split_and!; reflexivity. Qed.

(** ** Network operations in flight *)

Lemma filter_delete_hit {A : Type} (P : A -> Prop) `{!forall x, Decision (P x)}
    (l : list A) (i : nat) (x : A) :
  l !! i = Some x -> P x -> (length (filter P l) <= 1)%nat ->
  filter P (delete i l) = [].
Proof.
  intros Hi Hx Hlen. rewrite delete_take_drop.
  rewrite <- (take_drop_middle l i x Hi) in Hlen.
  rewrite filter_app, filter_cons_True in Hlen by done.
  rewrite length_app in Hlen. simpl in Hlen.
  rewrite filter_app.
  destruct (filter P (take i l)); [|simpl in Hlen; lia].
  destruct (filter P (drop (S i) l)); [done|simpl in Hlen; lia].
Qed.

Lemma filter_delete_miss {A : Type} (P : A -> Prop) `{!forall x, Decision (P x)}
    (l : list A) (i : nat) (x : A) :
  l !! i = Some x -> ~ P x -> filter P (delete i l) = filter P l.
Proof.
  intros Hi Hx. rewrite delete_take_drop.
  transitivity (filter P (take i l ++ x :: drop (S i) l));
    [|by rewrite take_drop_middle].
  by rewrite !filter_app, filter_cons_False by done.
Qed.

(** The side condition of a task that the gate filter leaves out. *)
Ltac not_gated := done || (simpl; intros [? ?]; congruence).

Lemma get_withPushPull_exit (s : AppStore) (r r' : RepositoryId) :
  isPushPullFetchInProgress (get (withPushPull_exit s r) r')
  = if bool_decide (r = r') then false
    else isPushPullFetchInProgress (get s r').
Proof.
  unfold withPushPull_exit. rewrite get_emitUpdate. case_bool_decide as Hr.
  - subst. by rewrite get_update_eq.
  - by rewrite get_update_ne.
Qed.

Lemma request_refused (rt : NetworkRuntime) (op : NetworkOp) (r : RepositoryId) :
  usesWithPushPull op = true ->
  ~ (op = OpPush /\ remote (get (net_store rt) r) = None) ->
  isPushPullFetchInProgress (get (net_store rt) r) = true ->
  request rt op r = rt.
Proof.
  intros Hop Hremote Hheld. unfold request, withPushPull_enter.
  rewrite Hop, Hheld.
  destruct (bool_decide (op = OpPush)) eqn:Hpush; simpl; [|done].
  destruct (bool_decide (remote (get (net_store rt) r) = None)) eqn:Hnone; [|done].
  apply bool_decide_eq_true in Hpush, Hnone. by destruct Hremote.
Qed.

Lemma request_without_remote (rt : NetworkRuntime) (r : RepositoryId) :
  remote (get (net_store rt) r) = None ->
  request rt OpPush r
  = mkNetworkRuntime (_showPopup (net_store rt) (publishRepositoryPopup r))
      (net_inFlight rt).
Proof.
  intros Hnone. unfold request. simpl.
  by rewrite (bool_decide_eq_true_2 _ Hnone).
Qed.

Lemma request_enters (rt : NetworkRuntime) (op : NetworkOp) (r : RepositoryId) :
  usesWithPushPull op = true ->
  ~ (op = OpPush /\ remote (get (net_store rt) r) = None) ->
  isPushPullFetchInProgress (get (net_store rt) r) = false ->
  request rt op r
  = mkNetworkRuntime
      (emitUpdate (update (net_store rt) r (with_isPushPullFetchInProgress true)))
      (net_inFlight rt ++ [(op, r)]).
Proof.
  intros Hop Hremote Hfree. unfold request, withPushPull_enter.
  rewrite Hop, Hfree.
  destruct (bool_decide (op = OpPush)) eqn:Hpush; simpl; [|done].
  destruct (bool_decide (remote (get (net_store rt) r) = None)) eqn:Hnone; [|done].
  apply bool_decide_eq_true in Hpush, Hnone. by destruct Hremote.
Qed.

Lemma gateInvariant_request (rt : NetworkRuntime) (op : NetworkOp)
    (r : RepositoryId) :
  gateInvariant rt -> gateInvariant (request rt op r).
Proof.
  intros Hinv. destruct (usesWithPushPull op) eqn:Hop.
  - destruct (decide (op = OpPush /\ remote (get (net_store rt) r) = None))
      as [[-> Hnone]|Hremote].
    { rewrite request_without_remote by done. intros r'.
      destruct (Hinv r') as [Hlen Hiff].
      unfold gatedInFlightOn in *. cbn [net_store net_inFlight].
      by rewrite get_showPopup. }
    destruct (isPushPullFetchInProgress (get (net_store rt) r)) eqn:Hflag.
    { by rewrite request_refused. }
    rewrite request_enters by done.
    intros r'. destruct (Hinv r') as [Hlen Hiff].
    unfold gatedInFlightOn in *. simpl. rewrite filter_app, get_emitUpdate.
    destruct (decide (r = r')) as [<-|Hne].
    + rewrite get_update_eq. simpl.
      rewrite filter_cons_True, filter_nil by done.
      destruct (filter _ (net_inFlight rt)) as [|t ts] eqn:Hempty.
      * simpl. split; [lia|done].
      * rewrite Hflag in Hiff. by destruct Hiff as [_ Hiff]; discriminate Hiff.
    + rewrite get_update_ne by done.
      rewrite filter_cons_False, filter_nil, app_nil_r by not_gated.
      done.
  - unfold request. rewrite Hop. intros r'. destruct (Hinv r') as [Hlen Hiff].
    unfold gatedInFlightOn in *. simpl. rewrite filter_app.
    rewrite filter_cons_False, filter_nil, app_nil_r by not_gated.
    done.
Qed.

Lemma gateInvariant_settle (rt : NetworkRuntime) (i : nat) :
  gateInvariant rt -> gateInvariant (settle rt i).
Proof.
  intros Hinv. unfold settle.
  destruct (net_inFlight rt !! i) as [[op r]|] eqn:Hi; [|done].
  intros r'. destruct (Hinv r') as [Hlen Hiff].
  unfold gatedInFlightOn in *. simpl.
  destruct (usesWithPushPull op) eqn:Hop.
  - rewrite get_withPushPull_exit. case_bool_decide as Hr.
    + subst r'. rewrite (filter_delete_hit _ _ i (op, r)) by done.
      simpl. split; [lia|done].
    + rewrite (filter_delete_miss _ _ i (op, r)) by not_gated. done.
  - rewrite (filter_delete_miss _ _ i (op, r)) by not_gated.
    done.
Qed.

Lemma gateInvariant_write (rt : NetworkRuntime) (r : RepositoryId)
    (f : IRepositoryState -> IRepositoryState) :
  gateInvariant rt ->
  gateInvariant
    (mkNetworkRuntime
       (emitUpdate
          (update (net_store rt) r (fun st =>
             with_isPushPullFetchInProgress (isPushPullFetchInProgress st) (f st))))
       (net_inFlight rt)).
Proof.
  intros Hinv r'. destruct (Hinv r') as [Hlen Hiff].
  unfold gatedInFlightOn in *. simpl. rewrite get_emitUpdate.
  destruct (decide (r = r')) as [<-|Hne].
  - by rewrite get_update_eq.
  - by rewrite get_update_ne.
Qed.

Lemma gateInvariant_run (es : list NetworkEvent) (rt : NetworkRuntime) :
  gateInvariant rt -> gateInvariant (network_run rt es).
Proof.
  revert rt. induction es as [|e es IH]; intros rt Hinv; [done|].
  simpl. apply IH. destruct e as [op r|i|r f]; simpl.
  - by apply gateInvariant_request.
  - by apply gateInvariant_settle.
  - by apply gateInvariant_write.
Qed.

Lemma gateInvariant_quiescent (s : AppStore) :
  (forall r, isPushPullFetchInProgress (get s r) = false) ->
  gateInvariant (mkNetworkRuntime s []).
Proof.
  intros Hfree r. unfold gatedInFlightOn. simpl. rewrite Hfree.
  split; [lia|]. split; [discriminate|done].
Qed.

(** C1, as the code has it.  Start from a store with no network operation
    in progress and let fetches, pushes, pulls, refspec fetches and
    indicator fetches be requested and end in any order, with any other
    writes to the slices in between.  On every repository at most one
    operation that goes through [withPushPull] is in flight; such an
    operation is in flight exactly while [isPushPullFetchInProgress] is
    set; a fetch, push or pull requested while the flag is set starts
    nothing and changes no slice, and leaves the whole store as it is
    unless it is a push on a repository without a remote; that push never
    reaches the gate, whatever the flag, and shows the Publish Repository
    popup, which emits an update; and an operation requested while the
    flag is clear starts and is then the only one in flight.
    [_fetchRefspec] and the fetch of [refreshIndicatorForRepository] are
    outside the gate. *)
Theorem network_gate_exclusive (s : AppStore) (es : list NetworkEvent)
    (r : RepositoryId) :
  (forall r', isPushPullFetchInProgress (get s r') = false) ->
  let rt := network_run (mkNetworkRuntime s []) es in
  (length (gatedInFlightOn r rt) <= 1)%nat
  /\ (isPushPullFetchInProgress (get (net_store rt) r) = true
      <-> gatedInFlightOn r rt ≠ [])
  /\ (forall op, usesWithPushPull op = true ->
        isPushPullFetchInProgress (get (net_store rt) r) = true ->
        net_inFlight (request rt op r) = net_inFlight rt
        /\ repositoryStateCache (net_store (request rt op r))
           = repositoryStateCache (net_store rt)
        /\ (~ (op = OpPush /\ remote (get (net_store rt) r) = None) ->
            request rt op r = rt))
  /\ (remote (get (net_store rt) r) = None ->
        let rt' := request rt OpPush r in
        net_inFlight rt' = net_inFlight rt
        /\ repositoryStateCache (net_store rt')
           = repositoryStateCache (net_store rt)
        /\ currentPopup (net_store rt') = Some (publishRepositoryPopup r)
        /\ (windowHidden (net_store rt) = true ->
            (emitted (net_store rt) < emitted (net_store rt'))%nat)
        /\ (windowHidden (net_store rt) = false ->
            emitQueued (net_store rt') = true))
  /\ (forall op, usesWithPushPull op = true ->
        ~ (op = OpPush /\ remote (get (net_store rt) r) = None) ->
        isPushPullFetchInProgress (get (net_store rt) r) = false ->
        gatedInFlightOn r (request rt op r) = [(op, r)]).
Proof.
  intros Hfree rt.
  assert (Hinv : gateInvariant rt).
  { apply gateInvariant_run. by apply gateInvariant_quiescent. }
  destruct (Hinv r) as [Hlen Hiff].
  split_and!; [done|done|..].
  - intros op Hop Hheld.
    destruct (decide (op = OpPush /\ remote (get (net_store rt) r) = None))
      as [[-> Hnone]|Hremote].
    + rewrite request_without_remote by done. cbn [net_store net_inFlight].
      destruct (showPopup_effect (net_store rt) (publishRepositoryPopup r))
        as (Hcache & _).
      split_and!; [done|done|]. intros Hremote. by destruct Hremote.
    + by rewrite request_refused.
  - intros Hnone rt'. subst rt'. rewrite request_without_remote by done.
    cbn [net_store net_inFlight].
    destruct (showPopup_effect (net_store rt) (publishRepositoryPopup r))
      as (Hcache & Hpopup & Hnow & Hqueued).
    by split_and!.
  - intros op Hop Hremote Hflag. rewrite request_enters by done.
    unfold gatedInFlightOn in *. simpl. rewrite filter_app.
    rewrite filter_cons_True, filter_nil by done.
    destruct (filter _ (net_inFlight rt)) as [|t ts]; [done|].
    rewrite Hflag in Hiff. by destruct Hiff as [_ Hiff]; discriminate Hiff.
Qed.

Lemma remoteStore_quiescent (r : RepositoryId) :
  isPushPullFetchInProgress (get remoteStore r) = false.
Proof.
  unfold remoteStore. destruct (decide (1%N = r)) as [<-|Hne].
  - by rewrite get_update_eq.
  - by rewrite get_update_ne.
Qed.

Lemma network_gate_exclusive_witness :
  let idle := mkNetworkRuntime remoteStore [] in
  let rt :=
    network_run idle [Request OpFetch 1%N; Request OpPush 1%N; Request OpPull 1%N] in
  let fetching := network_run idle [Request OpFetch 2%N] in
  (length (gatedInFlightOn 1%N rt) <= 1)%nat
  /\ request rt OpPush 1%N = rt
  /\ gatedInFlightOn 1%N (request idle OpPush 1%N) = [(OpPush, 1%N)]
  /\ net_inFlight (request fetching OpPush 2%N) = [(OpFetch, 2%N)]
  /\ currentPopup (net_store (request fetching OpPush 2%N))
     = Some (publishRepositoryPopup 2%N).
Proof.
  intros idle rt fetching.
  destruct (network_gate_exclusive remoteStore
              [Request OpFetch 1%N; Request OpPush 1%N; Request OpPull 1%N] 1%N
              remoteStore_quiescent) as (Hone & _ & Hrefused & _).
  destruct (network_gate_exclusive remoteStore [] 1%N remoteStore_quiescent)
    as (_ & _ & _ & _ & Henters).
  destruct (network_gate_exclusive remoteStore [Request OpFetch 2%N] 2%N
              remoteStore_quiescent) as (_ & _ & _ & Hpopup & _).
  destruct (Hrefused OpPush eq_refl eq_refl) as (_ & _ & Hsame).
  destruct (Hpopup eq_refl) as (Hstarted & _ & Hshown & _).
  split_and!.
  - exact Hone.
  - apply Hsame. intros [_ Hnone]. vm_compute in Hnone. discriminate.
  - apply Henters.
    + reflexivity.
    + intros [_ Hnone]. vm_compute in Hnone. discriminate.
    + reflexivity.
  - exact Hstarted.
  - exact Hshown.
Defined.

(** Of a fetch, a push and a pull requested together, the first runs and
    the other two are turned away. *)
Example fetch_push_pull_together :
  net_inFlight
    (network_run (mkNetworkRuntime remoteStore [])
       [Request OpFetch 1%N; Request OpPush 1%N; Request OpPull 1%N])
  = [(OpFetch, 1%N)].
Proof. reflexivity. Qed.

(** C1 as stated fails: a push is in flight on repository 1 and the flag is
    set, a refspec fetch is requested, and both are in flight. *)
Lemma fetchRefspec_runs_beside_push :
  ~ (length
       (inFlightOn 1%N
          (network_run (mkNetworkRuntime remoteStore [])
             [Request OpPush 1%N; Request OpFetchRefspec 1%N])) <= 1)%nat.
Proof. vm_compute. lia. Qed.

(** The fetch of [refreshIndicatorForRepository] is outside the gate as
    well: it starts beside a fetch that holds the flag. *)
Example indicator_fetch_runs_beside_fetch :
  net_inFlight
    (network_run (mkNetworkRuntime remoteStore [])
       [Request OpFetch 1%N; Request OpIndicatorFetch 1%N])
  = [(OpFetch, 1%N); (OpIndicatorFetch, 1%N)].
Proof. reflexivity. Qed.

(** A push on a repository without a remote, requested in a hidden window
    while a fetch holds the gate of that repository: nothing starts, and
    the popup that is shown emits an update. *)
Example push_without_remote_emits :
  let fetching :=
    network_run (mkNetworkRuntime hiddenStore []) [Request OpFetch 1%N] in
  emitted (net_store fetching) = 1%nat
  /\ emitted (net_store (request fetching OpPush 1%N)) = 2%nat
  /\ net_inFlight (request fetching OpPush 1%N) = [(OpFetch, 1%N)].
Proof. by vm_compute. Qed.


(** ** Merge preview *)

Lemma promise_changeCommitSelection (s : AppStore) (r : RepositoryId)
    (sha : string) :
  currentMergeTreePromise (_changeCommitSelection s r sha)
  = currentMergeTreePromise s.
Proof.
  unfold _changeCommitSelection, updateCommitSelection.
  case_bool_decide; [done|]. by autorewrite with store.
Qed.

Lemma promise_updateOrSelectFirstCommit (s : AppStore) (r : RepositoryId)
    (commitSHAs : list string) :
  currentMergeTreePromise (updateOrSelectFirstCommit s r commitSHAs)
  = currentMergeTreePromise s.
Proof.
  unfold updateOrSelectFirstCommit, clearSelectedCommit, updateCommitSelection.
  destruct (cs_sha (commitSelection (get s r))) as [selected|].
  - case_bool_decide; [done|].
    destruct commitSHAs; [done|]. by rewrite promise_changeCommitSelection.
  - destruct commitSHAs; [done|]. by rewrite promise_changeCommitSelection.
Qed.

(** A trigger that reaches the merge preview while a promise is recorded
    returns that promise and starts nothing. *)
Lemma updateCompareToBranch_pending (rt : CompareRuntime) (r : RepositoryId)
    (action : ICompareToBranch) (compare : ICompareResult) (tip : Tip)
    (pending : nat) :
  currentMergeTreePromise (cr_store rt) = Some pending ->
  (updateCompareToBranch_resume rt r action (Some compare) tip).2 = Some pending
  /\ cr_tasks (updateCompareToBranch_resume rt r action (Some compare) tip).1
     = cr_tasks rt
  /\ currentMergeTreePromise
       (cr_store (updateCompareToBranch_resume rt r action (Some compare) tip).1)
     = Some pending.
Proof.
  intros Hpending. unfold updateCompareToBranch_resume.
  rewrite promise_updateOrSelectFirstCommit. unfold updateCompareState.
  autorewrite with store. rewrite Hpending. simpl.
  rewrite promise_updateOrSelectFirstCommit. by autorewrite with store.
Qed.

Lemma mergeTreeInvariant_resume (rt : CompareRuntime) (r : RepositoryId)
    (action : ICompareToBranch) (compare : option ICompareResult) (tip : Tip) :
  mergeTreeInvariant rt ->
  mergeTreeInvariant (updateCompareToBranch_resume rt r action compare tip).1.
Proof.
  intros [Hlen Hfield]. destruct compare as [compare|]; [|done].
  destruct (currentMergeTreePromise (cr_store rt)) as [pending|] eqn:Hpending.
  { destruct (updateCompareToBranch_pending rt r action compare tip pending
                Hpending) as (_ & Htasks & Hstore).
    split; rewrite Htasks; [done|]. intros t Ht. rewrite Hstore.
    by apply Hfield. }
  assert (Hnone : cr_tasks rt = []).
  { destruct (cr_tasks rt) as [|t ts]; [done|].
    specialize (Hfield t (or_introl eq_refl)). congruence. }
  unfold updateCompareToBranch_resume.
  rewrite promise_updateOrSelectFirstCommit. unfold updateCompareState.
  autorewrite with store. rewrite Hpending, Hnone.
  destruct tip as [| | |tipBranch]; simpl; try (split; simpl; [lia|done]).
  destruct (0 <? compare_behind compare); simpl; [|split; simpl; [lia|done]].
  split; simpl; [lia|]. by intros t [<-|[]].
Qed.

Lemma findTask_Some (p : nat) (displayed : bool) (ts : list MergeTreeTask)
    (t : MergeTreeTask) :
  findTask p displayed ts = Some t ->
  In t ts /\ mt_promise t = p /\ mt_displayed t = displayed.
Proof.
  unfold findTask. intros [Hin Hp]%find_some.
  apply andb_prop in Hp as [Hp%bool_decide_eq_true Hd%bool_decide_eq_true].
  done.
Qed.

Lemma mergeTreeInvariant_settled (rt : CompareRuntime) (p : nat)
    (result : Outcome (option MergeResult)) :
  mergeTreeInvariant rt -> mergeTreeInvariant (mergeTreeSettled rt p result).
Proof.
  intros [Hlen Hfield]. unfold mergeTreeSettled.
  destruct (findTask p false (cr_tasks rt)) as [t|]; [|done].
  case_match; [|done]. split; simpl.
  - by rewrite length_map.
  - intros t' (t0 & <- & Ht0)%in_map_iff. unfold updateCompareState.
    autorewrite with store. rewrite (Hfield t0 Ht0).
    unfold markDisplayed. by case_bool_decide.
Qed.

Lemma mergeTreeInvariant_cleanup (rt : CompareRuntime) (p : nat) :
  mergeTreeInvariant rt -> mergeTreeInvariant (mergeTreeCleanup rt p).
Proof.
  intros [Hlen Hfield]. unfold mergeTreeCleanup.
  destruct (findTask p true (cr_tasks rt)) as [t|] eqn:Hfind; [|done].
  apply findTask_Some in Hfind as (Hin & Hp & _).
  destruct (cr_tasks rt) as [|t0 [|t1 ts]]; simpl in *; [done| |lia].
  destruct Hin as [->|[]]. rewrite bool_decide_eq_true_2 by done. simpl.
  split; simpl; [lia|done].
Qed.

Lemma mergeTreeInvariant_run (es : list CompareEvent) (rt : CompareRuntime) :
  mergeTreeInvariant rt -> mergeTreeInvariant (compare_run rt es).
Proof.
  revert rt. induction es as [|e es IH]; intros rt Hinv; [done|].
  simpl. apply IH. destruct e as [r action compare tip|p result|p|ms|f]; simpl.
  - by apply mergeTreeInvariant_resume.
  - by apply mergeTreeInvariant_settled.
  - by apply mergeTreeInvariant_cleanup.
  - done.
  - done.
Qed.

Lemma filter_length_le {A : Type} (f : A -> bool) (l : list A) :
  (length (List.filter f l) <= length l)%nat.
Proof. induction l as [|x l IH]; simpl; [lia|]. destruct (f x); simpl; lia. Qed.

(** C8.  Start from a store with no merge-tree promise recorded and let
    comparisons resume, merge-tree promises settle, their cleanups run,
    time pass and other code write the store, in any order.  At any moment at most one merge-tree
    computation is in flight, on every repository and in the store as a
    whole; a comparison that reaches the merge preview while a promise is
    held returns that same promise and starts no computation; and a
    merge-tree promise settles, and so writes the merge status, no sooner
    than [mergeTreeMinimumTimeout] after it was created. *)
Theorem mergeTree_single_flight (s : AppStore) (now : Z)
    (es : list CompareEvent) :
  currentMergeTreePromise s = None ->
  let rt := compare_run (mkCompareRuntime s [] now) es in
  (forall r, (length (computingOn r rt) <= 1)%nat)
  /\ (length (cr_tasks rt) <= 1)%nat
  /\ (forall t r action compare tip,
        In t (cr_tasks rt) ->
        (updateCompareToBranch_resume rt r action (Some compare) tip).2
        = Some (mt_promise t)
        /\ cr_tasks (updateCompareToBranch_resume rt r action (Some compare) tip).1
           = cr_tasks rt)
  /\ (forall p result,
        mergeTreeSettled rt p result ≠ rt ->
        exists t, In t (cr_tasks rt) /\ mt_promise t = p
                  /\ mt_startedAt t + mergeTreeMinimumTimeout <= cr_now rt).
Proof.
  intros Hnone rt.
  assert (Hinv : mergeTreeInvariant rt).
  { apply mergeTreeInvariant_run. split; simpl; [lia|done]. }
  destruct Hinv as [Hlen Hfield]. split_and!.
  - intros r. unfold computingOn.
    etransitivity; [apply filter_length_le|done].
  - done.
  - intros t r action compare tip Ht.
    destruct (updateCompareToBranch_pending rt r action compare tip (mt_promise t))
      as (Hret & Htasks & _); [by apply Hfield|done].
  - intros p result Hchanged. unfold mergeTreeSettled in Hchanged.
    destruct (findTask p false (cr_tasks rt)) as [t|] eqn:Hfind; [|done].
    apply findTask_Some in Hfind as (Hin & Hp & _).
    destruct (Z.leb_spec (mt_startedAt t + mergeTreeMinimumTimeout) (cr_now rt));
      [|done].
    by exists t.
Qed.

Lemma mergeTree_single_flight_witness :
  let rt := compare_run (mkCompareRuntime emptyStore [] 0) [firstTrigger] in
  let later :=
    compare_run (mkCompareRuntime emptyStore [] 0) [firstTrigger; Elapsed 600] in
  (length (computingOn 1%N rt) <= 1)%nat
  /\ (updateCompareToBranch_resume rt 1%N compareToMain (Some twoBehind)
        (TipValid featureBranch)).2 = Some 0%nat
  /\ (exists t, In t (cr_tasks later) /\ mt_promise t = 0%nat
                /\ mt_startedAt t + mergeTreeMinimumTimeout <= cr_now later).
Proof.
  intros rt later.
  destruct (mergeTree_single_flight emptyStore 0 [firstTrigger] eq_refl)
    as (Hone & _ & Hsame & _).
  destruct (mergeTree_single_flight emptyStore 0 [firstTrigger; Elapsed 600]
              eq_refl) as (_ & _ & _ & Hlatency).
  split_and!.
  - apply Hone.
  - apply (Hsame (mkMergeTreeTask 0 1%N featureBranch mainBranch 0 false)).
    vm_compute. by left.
  - apply (Hlatency 0%nat (Returned (Some MergeClean))).
    intros Hsame'.
    apply (f_equal (fun rt => map mt_displayed (cr_tasks rt))) in Hsame'.
    vm_compute in Hsame'. discriminate.
Defined.

(** Two comparisons in a row share one computation; its result is not
    written before the minimum latency has passed, and is written after. *)
Example second_trigger_shares_the_computation :
  let rt := compare_run (mkCompareRuntime emptyStore [] 0)
              [firstTrigger; firstTrigger] in
  map mt_promise (cr_tasks rt) = [0%nat]
  /\ mergeTreeSettled rt 0 (Returned (Some MergeClean)) = rt
  /\ cmp_mergeStatus
       (compareState
          (get (cr_store
                  (compare_run rt
                     [Elapsed 500; MergeTreeSettled 0 (Returned (Some MergeClean))]))
             1%N))
     = Some MergeClean.
Proof. vm_compute. split_and!; reflexivity. Qed.

(** * Further properties *)

(** ** findNext *)

Lemma findNext_from_found (array : list string) (toFind : string) :
  toFind ∉ array -> findNext_from true array toFind = head array.
Proof.
  destruct array as [|s rest]; [done|]. intros Hnot. simpl.
  rewrite bool_decide_eq_false_2; [done|].
  intros ->. apply Hnot. by left.
Qed.

(** In a list without repetitions, such as the commit SHAs of a history,
    [findNext] is the element that follows [toFind], and nothing when
    [toFind] comes last. *)
Theorem findNext_is_the_successor (array : list string) (toFind : string)
    (i : nat) :
  NoDup array -> array !! i = Some toFind ->
  findNext array toFind = array !! S i.
Proof.
  unfold findNext. revert i.
  induction array as [|s rest IH]; intros i Hnodup Hi; [done|].
  apply NoDup_cons in Hnodup as [Hs Hrest]. simpl.
  destruct i as [|i]; simpl in Hi.
  - injection Hi as ->. rewrite bool_decide_eq_true_2 by done.
    rewrite findNext_from_found by done. by destruct rest.
  - rewrite bool_decide_eq_false_2.
    + by apply IH.
    + intros ->. apply Hs. by eapply list_elem_of_lookup_2.
Qed.

Lemma findNext_is_the_successor_witness :
  findNext ["c3"; "c2"; "c1"] "c2" = Some "c1"
  /\ findNext ["c3"; "c2"; "c1"] "c1" = None.
Proof.
  assert (Hnodup : NoDup ["c3"; "c2"; "c1"]).
  { apply (bool_decide_unpack _). vm_compute. exact I. }
  split.
  - apply (findNext_is_the_successor ["c3"; "c2"; "c1"] "c2" 1 Hnodup).
    reflexivity.
  - apply (findNext_is_the_successor ["c3"; "c2"; "c1"] "c1" 2 Hnodup).
    reflexivity.
Defined.

Lemma findNext_from_Some (found : bool) (array : list string)
    (toFind s : string) :
  findNext_from found array toFind = Some s ->
  s ≠ toFind /\ s ∈ array /\ (found = true \/ toFind ∈ array).
Proof.
  revert found. induction array as [|a rest IH]; intros found H; [done|].
  simpl in H. case_bool_decide as Ha.
  - subst a. apply IH in H as (Hne & Hin & _).
    split_and!; [done|by right|right; by left].
  - destruct found.
    + injection H as <-. split_and!; [done|by left|by left].
    + apply IH in H as (Hne & Hin & Hfound).
      destruct Hfound as [?|Hfound]; [done|].
      split_and!; [done|by right|right; by right].
Qed.

(** Whatever the list, [findNext] never returns [toFind] itself, returns
    only elements of the list, and returns nothing when [toFind] does not
    occur in it. *)
Theorem findNext_never_the_element_itself (array : list string)
    (toFind : string) :
  (toFind ∉ array -> findNext array toFind = None)
  /\ (forall s, findNext array toFind = Some s ->
        s ≠ toFind /\ s ∈ array /\ toFind ∈ array).
Proof.
  split.
  - intros Hnot. destruct (findNext array toFind) as [s|] eqn:H; [|done].
    apply findNext_from_Some in H as (_ & _ & [?|?]); done.
  - intros s H. apply findNext_from_Some in H as (? & ? & [?|?]); done.
Qed.

Lemma findNext_never_the_element_itself_witness :
  findNext ["c3"; "c2"; "c1"] "c9" = None
  /\ "c2" ≠ "c3" /\ "c2" ∈ ["c3"; "c3"; "c2"].
Proof.
  destruct (findNext_never_the_element_itself ["c3"; "c2"; "c1"] "c9")
    as [Habsent _].
  destruct (findNext_never_the_element_itself ["c3"; "c3"; "c2"] "c3")
    as [_ Hsome].
  split.
  - apply Habsent. rewrite !elem_of_cons, elem_of_nil.
    intros [?|[?|[?|[]]]]; discriminate.
  - destruct (Hsome "c2" eq_refl) as (Hne & Hin & _). by split.
Defined.

(** ** Emitted updates *)

Lemma writesWithEmits_cache (ws : list SliceWrite) (s : AppStore) :
  repositoryStateCache (writesWithEmits s ws)
  = repositoryStateCache (writesAlone s ws).
Proof.
  unfold writesWithEmits, writesAlone.
  assert (Hgen : forall s1 s2,
            repositoryStateCache s1 = repositoryStateCache s2 ->
            repositoryStateCache (fold_left writeAndEmit ws s1)
            = repositoryStateCache
                (fold_left (fun s w => update s w.1 w.2) ws s2)).
  { induction ws as [|w ws IH]; intros s1 s2 Hcache; [done|].
    simpl. apply IH. unfold writeAndEmit, emitUpdate, update, get.
    repeat case_match; simpl; by rewrite Hcache. }
  by apply Hgen.
Qed.

Lemma writesWithEmits_visible (ws : list SliceWrite) (s : AppStore) :
  windowHidden s = false ->
  windowHidden (writesWithEmits s ws) = false
  /\ emitted (writesWithEmits s ws) = emitted s
  /\ emitQueued (writesWithEmits s ws)
     = (emitQueued s || negb (bool_decide (ws = []))).
Proof.
  unfold writesWithEmits. revert s.
  induction ws as [|w ws IH]; intros s Hvisible; simpl.
  - by rewrite orb_false_r.
  - destruct (IH (writeAndEmit s w)) as (Hw & He & Hq).
    { unfold writeAndEmit, emitUpdate. simpl. rewrite Hvisible.
      by destruct (emitQueued s). }
    rewrite Hw, He, Hq. unfold writeAndEmit, emitUpdate. simpl.
    rewrite Hvisible. split_and!; [done|by destruct (emitQueued s)|].
    destruct (emitQueued s) eqn:Hqueued; simpl; [by rewrite Hqueued|done].
Qed.

Lemma writesWithEmits_hidden (ws : list SliceWrite) (s : AppStore) :
  windowHidden s = true ->
  windowHidden (writesWithEmits s ws) = true
  /\ emitted (writesWithEmits s ws) = (emitted s + length ws)%nat.
Proof.
  unfold writesWithEmits. revert s.
  induction ws as [|w ws IH]; intros s Hhidden; simpl.
  - split; [done|lia].
  - destruct (IH (writeAndEmit s w)) as (Hw & He).
    { unfold writeAndEmit, emitUpdate. simpl. by rewrite Hhidden. }
    rewrite Hw, He. unfold writeAndEmit, emitUpdate. simpl.
    rewrite Hhidden. simpl. split; [done|lia].
Qed.



(** ** The history list *)

Lemma compareState_changeCommitSelection (s : AppStore) (r r' : RepositoryId)
    (sha : string) :
  compareState (get (_changeCommitSelection s r sha) r')
  = compareState (get s r').
Proof.
  unfold _changeCommitSelection, updateCommitSelection.
  case_bool_decide; [done|]. rewrite get_emitUpdate.
  destruct (decide (r = r')) as [<-|Hne].
  - by rewrite get_update_eq.
  - by rewrite get_update_ne.
Qed.

Lemma compareState_updateOrSelectFirstCommit (s : AppStore)
    (r r' : RepositoryId) (commitSHAs : list string) :
  compareState (get (updateOrSelectFirstCommit s r commitSHAs) r')
  = compareState (get s r').
Proof.
  assert (Hclear : compareState (get (clearSelectedCommit s r) r')
                   = compareState (get s r')).
  { unfold clearSelectedCommit, updateCommitSelection.
    destruct (decide (r = r')) as [<-|Hne].
    - by rewrite get_update_eq.
    - by rewrite get_update_ne. }
  unfold updateOrSelectFirstCommit.
  destruct (cs_sha (commitSelection (get s r))) as [selected|].
  - case_bool_decide; [done|].
    destruct commitSHAs; [done|].
    by rewrite compareState_changeCommitSelection.
  - destruct commitSHAs; [done|].
    by rewrite compareState_changeCommitSelection.
Qed.

Lemma updateOrSelectFirstCommit_selected (s : AppStore) (r : RepositoryId)
    (commitSHAs : list string) :
  match cs_sha (commitSelection (get (updateOrSelectFirstCommit s r commitSHAs) r)) with
  | Some sha => sha ∈ commitSHAs
  | None => commitSHAs = []
  end.
Proof.
  unfold updateOrSelectFirstCommit.
  destruct (cs_sha (commitSelection (get s r))) as [selected|] eqn:Hsel.
  - case_bool_decide as Hin; [by rewrite Hsel|].
    destruct commitSHAs as [|first rest].
    + unfold clearSelectedCommit, updateCommitSelection.
      by rewrite get_update_eq.
    + rewrite changeCommitSelection_reset.
      * simpl. by left.
      * unfold clearSelectedCommit, updateCommitSelection.
        by rewrite get_update_eq.
  - destruct commitSHAs as [|first rest]; [by rewrite Hsel|].
    rewrite changeCommitSelection_reset by (by rewrite Hsel).
    simpl. by left.
Qed.

(** After [updateOrSelectFirstCommit] the selected commit is one of the
    listed commits, and none is selected only when the list is empty; a
    selection that is in the list is kept with its file and diff, the
    store being left as it was; no other repository is touched. *)
Theorem updateOrSelectFirstCommit_selects_from_the_list (s : AppStore)
    (r : RepositoryId) (commitSHAs : list string) :
  let s' := updateOrSelectFirstCommit s r commitSHAs in
  match cs_sha (commitSelection (get s' r)) with
  | Some sha => sha ∈ commitSHAs
  | None => commitSHAs = []
  end
  /\ (forall sha, cs_sha (commitSelection (get s r)) = Some sha ->
        sha ∈ commitSHAs -> s' = s)
  /\ (forall r', r' ≠ r -> get s' r' = get s r').
Proof.
  intros s'. subst s'. split_and!.
  - apply updateOrSelectFirstCommit_selected.
  - intros sha Hsel Hin. unfold updateOrSelectFirstCommit.
    rewrite Hsel. by rewrite bool_decide_eq_true_2.
  - intros r' Hne.
    assert (Hchange : forall s0 sha,
              get (_changeCommitSelection s0 r sha) r' = get s0 r').
    { intros s0 sha. unfold _changeCommitSelection, updateCommitSelection.
      case_bool_decide; [done|].
      rewrite get_emitUpdate. by rewrite get_update_ne. }
    unfold updateOrSelectFirstCommit, clearSelectedCommit, updateCommitSelection.
    destruct (cs_sha (commitSelection (get s r))) as [selected|].
    + case_bool_decide; [done|].
      destruct commitSHAs; rewrite ?Hchange; by rewrite get_update_ne.
    + destruct commitSHAs; by rewrite ?Hchange.
Qed.

Lemma updateOrSelectFirstCommit_selects_from_the_list_witness :
  updateOrSelectFirstCommit selectedStore 1%N ["b2"; "a1"] = selectedStore
  /\ cs_sha (commitSelection
               (get (updateOrSelectFirstCommit selectedStore 1%N ["b2"; "b1"]) 1%N))
     = Some "b2".
Proof.
  destruct (updateOrSelectFirstCommit_selects_from_the_list selectedStore 1%N
              ["b2"; "a1"]) as (_ & Hkept & _).
  split.
  - apply (Hkept "a1"); [reflexivity|]. right. by left.
  - reflexivity.
Defined.

(** A history refresh that loaded commits leaves the compare view in
    History mode with exactly those commits, the tip it started from, an
    empty filter and the branch list closed; the selected commit is one of
    them (none only if there are none); and asking again while the tip is
    still the same returns before loading anything. *)
Theorem history_refresh_shows_the_loaded_commits (s : AppStore)
    (r : RepositoryId) (currentSha : option string) (commits : list string) :
  let s' := _executeCompare_history_resume s r currentSha (Some commits) in
  let cs := compareState (get s' r) in
  cmp_formState cs = DisplayHistory
  /\ cmp_tip cs = currentSha
  /\ cmp_commitSHAs cs = commits
  /\ cmp_filterText cs = ""
  /\ cmp_showBranchList cs = false
  /\ match cs_sha (commitSelection (get s' r)) with
     | Some sha => sha ∈ commits
     | None => commits = []
     end
  /\ (forall tip, currentSha ≠ None -> currentShaOf tip = currentSha ->
        commits ≠ [] -> _executeCompare_history_start s' r tip = None).
Proof.
  intros s' cs.
  assert (Hcs : cs = mkCompareState DisplayHistory currentSha
                       (cmp_mergeStatus (compareState (get s r))) false ""
                       commits (cmp_allBranches (compareState (get s r)))
                       (cmp_recentBranches (compareState (get s r)))
                       (cmp_defaultBranch (compareState (get s r)))
                       (cmp_aheadBehindCache (compareState (get s r)))
                       (cmp_inferredComparisonBranch (compareState (get s r)))
                       (cmp_isDivergingBranchBannerVisible (compareState (get s r)))).
  { subst cs s'. unfold _executeCompare_history_resume.
    rewrite get_emitUpdate, compareState_updateOrSelectFirstCommit.
    unfold updateCompareState. by rewrite get_update_eq. }
  split_and!; try (by rewrite Hcs).
  - subst s'. unfold _executeCompare_history_resume. rewrite get_emitUpdate.
    apply updateOrSelectFirstCommit_selected.
  - intros tip Hknown Htip Hcommits. unfold _executeCompare_history_start.
    fold cs. rewrite Hcs. simpl. rewrite Htip.
    destruct currentSha as [sha|]; [|done].
    rewrite !bool_decide_eq_true_2 by done.
    by rewrite bool_decide_eq_false_2.
Qed.

Lemma history_refresh_shows_the_loaded_commits_witness :
  _executeCompare_history_start
    (_executeCompare_history_resume emptyStore 1%N (Some "t1") (Some ["t1"; "t0"]))
    1%N (TipValid featureBranch) = None.
Proof.
  apply (history_refresh_shows_the_loaded_commits emptyStore 1%N (Some "t1")
           ["t1"; "t0"]); [discriminate|reflexivity|discriminate].
Defined.

(** ** Rounding to the nearest double does not change the order *)

Lemma rne_cases (x : Q) :
  let f := Qfloor x in
  (Double.rne x = f /\ (x - inject_Z f <= 1 # 2)%Q
   /\ ((x - inject_Z f == 1 # 2)%Q -> Z.even f = true))
  \/ (Double.rne x = f + 1 /\ (1 # 2 <= x - inject_Z f)%Q
      /\ ((x - inject_Z f == 1 # 2)%Q -> Z.even f = false)).
Proof.
  cbn zeta. unfold Double.rne.
  destruct (x - inject_Z (Qfloor x) ?= 1 # 2)%Q eqn:Hcmp.
  - apply Qeq_alt in Hcmp. destruct (Z.even (Qfloor x)) eqn:Heven.
    + left. split; [reflexivity|]. split; [rewrite Hcmp; apply Qle_refl|auto].
    + right. split; [reflexivity|]. split; [rewrite Hcmp; apply Qle_refl|auto].
  - apply Qlt_alt in Hcmp. left. split; [reflexivity|].
    split; [apply Qlt_le_weak, Hcmp|].
    intros Heq. rewrite Heq in Hcmp. exfalso. apply (Qlt_irrefl _ Hcmp).
  - apply Qgt_alt in Hcmp. right. split; [reflexivity|].
    split; [apply Qlt_le_weak, Hcmp|].
    intros Heq. rewrite Heq in Hcmp. exfalso. apply (Qlt_irrefl _ Hcmp).
Qed.

Lemma rne_mono (x y : Q) : (x <= y)%Q -> Double.rne x <= Double.rne y.
Proof.
  intros Hxy.
  pose proof (Qfloor_resp_le x y Hxy) as Hfloor.
  pose proof (Qfloor_le y) as Hy.
  pose proof (Qlt_floor x) as Hx.
  destruct (rne_cases x) as [(-> & Hx1 & Hx2)|(-> & Hx1 & Hx2)];
    destruct (rne_cases y) as [(-> & Hy1 & Hy2)|(-> & Hy1 & Hy2)]; try lia.
  destruct (Z.eq_dec (Qfloor x) (Qfloor y)) as [Heq|Hne]; [|lia].
  exfalso. rewrite <- Heq in Hy1, Hy2.
  assert (Hhalf : (x - inject_Z (Qfloor x) == 1 # 2)%Q) by lra.
  assert (Hhalf' : (y - inject_Z (Qfloor x) == 1 # 2)%Q) by lra.
  specialize (Hx2 Hhalf). specialize (Hy2 Hhalf'). congruence.
Qed.

Lemma rne_inject_Z (n : Z) : Double.rne (inject_Z n) = n.
Proof.
  destruct (rne_cases (inject_Z n)) as [(-> & _)|(_ & Hhalf & _)];
    rewrite Qfloor_Z in *; [reflexivity|].
  exfalso. lra.
Qed.

Lemma div_pow2_le (x : Q) (a s : Z) :
  0 <= s -> (x <= inject_Z (a * 2 ^ s))%Q ->
  (x / inject_Z (2 ^ s) <= inject_Z a)%Q.
Proof.
  intros Hs Hx. apply Qle_shift_div_r.
  - change 0%Q with (inject_Z 0). rewrite <- Zlt_Qlt. lia.
  - by rewrite <- inject_Z_mult.
Qed.

Lemma div_pow2_ge (x : Q) (a s : Z) :
  0 <= s -> (inject_Z (a * 2 ^ s) <= x)%Q ->
  (inject_Z a <= x / inject_Z (2 ^ s))%Q.
Proof.
  intros Hs Hx. apply Qle_shift_div_l.
  - change 0%Q with (inject_Z 0). rewrite <- Zlt_Qlt. lia.
  - by rewrite <- inject_Z_mult.
Qed.

Lemma succ_le_pow_log2 (n : Z) : 0 <= n -> n + 1 <= 2 ^ (Z.log2 n + 1).
Proof.
  intros Hn. destruct (Z.eq_dec n 0) as [->|Hpos]; [discriminate|].
  pose proof (Z.log2_spec n ltac:(lia)) as [_ Hup].
  unfold Z.succ in Hup. lia.
Qed.

(** Two values that keep the same number of bits are rounded on the same
    grid; otherwise a power of two lies between them, which both roundings
    respect. *)
Lemma roundUnits_mono (x y : Q) :
  (0 <= x)%Q -> (x <= y)%Q -> Double.roundUnits x <= Double.roundUnits y.
Proof.
  intros Hx Hxy. unfold Double.roundUnits. cbn zeta.
  pose proof (Qfloor_resp_le _ _ Hx) as Hnx. change (Qfloor 0) with 0 in Hnx.
  pose proof (Qfloor_resp_le _ _ Hxy) as Hn.
  pose proof (Z.log2_le_mono _ _ Hn) as Hlog.
  set (nx := Qfloor x) in *. set (ny := Qfloor y) in *.
  set (sx := Z.max 0 (Z.log2 nx - 52)). set (sy := Z.max 0 (Z.log2 ny - 52)).
  assert (Hsx : 0 <= sx) by lia. assert (Hsy : 0 <= sy) by lia.
  destruct (Z.eq_dec sx sy) as [Heq|Hne].
  - rewrite <- Heq. apply Z.mul_le_mono_nonneg_r; [lia|].
    apply rne_mono. apply Qmult_le_compat_r; [exact Hxy|].
    apply Qinv_le_0_compat. change 0%Q with (inject_Z 0).
    rewrite <- Zle_Qle. lia.
  - assert (Hlt : sx < sy) by lia.
    assert (Hsy' : Z.log2 ny = sy + 52) by lia.
    assert (Hny : 0 < ny).
    { destruct (Z.lt_ge_cases 0 ny) as [?|Hle]; [assumption|].
      rewrite (Z.log2_nonpos ny) in Hsy' by lia. lia. }
    assert (Hlow : 2 ^ 52 <= Double.rne (y / inject_Z (2 ^ sy))).
    { rewrite <- (rne_inject_Z (2 ^ 52)). apply rne_mono.
      apply div_pow2_ge; [lia|].
      apply Qle_trans with (inject_Z ny); [|apply Qfloor_le].
      rewrite <- Zle_Qle. rewrite <- Z.pow_add_r by lia.
      replace (52 + sy) with (Z.log2 ny) by lia.
      apply Z.log2_spec. exact Hny. }
    assert (Hhigh : Double.rne (x / inject_Z (2 ^ sx)) <= 2 ^ 53).
    { rewrite <- (rne_inject_Z (2 ^ 53)). apply rne_mono.
      apply div_pow2_le; [lia|].
      apply Qle_trans with (inject_Z (nx + 1)).
      { apply Qlt_le_weak. apply Qlt_floor. }
      rewrite <- Zle_Qle. rewrite <- Z.pow_add_r by lia.
      apply Z.le_trans with (2 ^ (Z.log2 nx + 1));
        [by apply succ_le_pow_log2|].
      apply Z.pow_le_mono_r; lia. }
    apply Z.le_trans with (2 ^ 53 * 2 ^ sx).
    { apply Z.mul_le_mono_nonneg_r; [lia|exact Hhigh]. }
    apply Z.le_trans with (2 ^ 52 * 2 ^ sy).
    { rewrite <- !Z.pow_add_r by lia. apply Z.pow_le_mono_r; lia. }
    apply Z.mul_le_mono_nonneg_r; [lia|exact Hlow].
Qed.

Lemma units_pos : (0 < Double.units)%Q.
Proof. reflexivity. Qed.

Lemma roundMagnitude_mono (a b : Q) :
  (0 <= a)%Q -> (a <= b)%Q ->
  (Double.roundMagnitude a <= Double.roundMagnitude b)%Q.
Proof.
  intros Ha Hab. unfold Double.roundMagnitude.
  apply Qmult_le_compat_r.
  - rewrite <- Zle_Qle. apply roundUnits_mono.
    + apply Qmult_le_0_compat; [exact Ha|apply Qlt_le_weak, units_pos].
    + apply Qmult_le_compat_r; [exact Hab|apply Qlt_le_weak, units_pos].
  - apply Qinv_le_0_compat, Qlt_le_weak, units_pos.
Qed.

Lemma roundMagnitude_nonneg (q : Q) :
  (0 <= q)%Q -> (0 <= Double.roundMagnitude q)%Q.
Proof.
  intros Hq. apply Qle_trans with (Double.roundMagnitude 0).
  - apply Qle_bool_imp_le. by vm_compute.
  - apply roundMagnitude_mono; [apply Qle_refl|exact Hq].
Qed.

Lemma round_mono (a b : Q) :
  (a <= b)%Q -> (Double.round a <= Double.round b)%Q.
Proof.
  intros Hab. unfold Double.round.
  destruct (a ?= 0)%Q eqn:Ha; destruct (b ?= 0)%Q eqn:Hb;
    first [apply Qeq_alt in Ha | apply Qlt_alt in Ha | apply Qgt_alt in Ha];
    first [apply Qeq_alt in Hb | apply Qlt_alt in Hb | apply Qgt_alt in Hb];
    try (exfalso; lra); try (apply roundMagnitude_mono; lra).
  - apply Qle_trans with 0%Q; [|apply roundMagnitude_nonneg; lra].
    apply (Qopp_le_compat 0). apply roundMagnitude_nonneg. lra.
  - apply Qopp_le_compat. apply roundMagnitude_mono; lra.
  - apply Qle_trans with 0%Q; [|apply roundMagnitude_nonneg; lra].
    apply (Qopp_le_compat 0). apply roundMagnitude_nonneg. lra.
Qed.

Lemma round_nonneg (q : Q) : (0 <= q)%Q -> (0 <= Double.round q)%Q.
Proof.
  intros Hq. apply Qle_trans with (Double.round 0).
  - apply Qle_bool_imp_le. by vm_compute.
  - by apply round_mono.
Qed.

(** ** Progress of a pull and of a fetch *)

Section PullFetchProgress.
Local Open Scope Q_scope.

Lemma pullWeight_value : Pull.pullWeight == 3 # 5.
Proof. reflexivity. Qed.

Lemma pull_refreshStartProgress_value : Pull.refreshStartProgress == 9 # 10.
Proof. reflexivity. Qed.

Lemma pull_refreshWeight_value : Pull.refreshWeight == 1 # 10.
Proof. reflexivity. Qed.

(** The doubles of a fetch: 0.9 is 0x1.ccccccccccccdp-1, and the last
    value 0.9 + 0.1 * 0.5 is 0x1.e666666666667p-1, which JS prints as
    0.9500000000000001. *)
Lemma fetch_fetchWeight_value :
  Fetch.fetchWeight == 8106479329266893 # 9007199254740992.
Proof. by vm_compute. Qed.

Lemma fetch_lastValue_value :
  Double.add Fetch.fetchWeight
    (Double.mul Fetch.refreshWeight (Double.round 0.5))
  == 8556839292003943 # 9007199254740992.
Proof. by vm_compute. Qed.

Lemma fetchWeight_is_a_double :
  Double.round Fetch.fetchWeight == Fetch.fetchWeight.
Proof. by vm_compute. Qed.

(** From here on the doubles are known by their values only. *)
#[local] Opaque Double.round.

Lemma fetch_value_bounds (f : Q) :
  0 <= f /\ f <= 1 ->
  0 <= Double.mul f Fetch.fetchWeight
  /\ Double.mul f Fetch.fetchWeight <= Fetch.fetchWeight.
Proof.
  intros [Hlow Hhigh]. unfold Double.mul.
  pose proof fetch_fetchWeight_value as Hw. split.
  - apply round_nonneg. rewrite Hw. nra.
  - rewrite <- fetchWeight_is_a_double at 2. apply round_mono.
    rewrite Hw. nra.
Qed.

Lemma pull_progressValues (remoteName : string) (pull : PhaseRun)
    (refreshed filesUpdated : bool) :
  progressValues (Pull.progressReports remoteName pull refreshed filesUpdated)
  = (0 :: map (fun f => f * Pull.pullWeight) (fractions pull))
    ++ Pull.refreshStartProgress
       :: (if refreshed then
             (Pull.refreshStartProgress + Pull.refreshWeight * 0.2)
             :: (if filesUpdated
                 then [Pull.refreshStartProgress + Pull.refreshWeight * 0.5]
                 else [])
           else []).
Proof.
  unfold Pull.progressReports, progressValues, fractions.
  rewrite !omap_app. simpl. f_equal.
  fold (progressValues
          (map (fun progress =>
                  Some (with_value (p_value progress * Pull.pullWeight) progress))
             (reports pull))).
  rewrite progressValues_some. simpl. rewrite map_map. f_equal. f_equal.
  destruct refreshed; [|done]. simpl. f_equal. by destruct filesUpdated.
Qed.

Lemma fetch_progressValues (fetch : PhaseRun) (refreshed : bool) :
  progressValues (Fetch.progressReports fetch refreshed)
  = map (fun f => Double.mul f Fetch.fetchWeight) (fractions fetch)
    ++ (if completed fetch then
          Fetch.fetchWeight
          :: (if refreshed
              then [Double.add Fetch.fetchWeight
                      (Double.mul Fetch.refreshWeight (Double.round 0.5))]
              else [])
        else []).
Proof.
  unfold Fetch.progressReports, progressValues, fractions.
  rewrite !omap_app. simpl.
  fold (progressValues
          (map (fun progress =>
                  Some (with_value
                          (Double.mul (p_value progress) Fetch.fetchWeight)
                          progress))
             (reports fetch))).
  rewrite progressValues_some. simpl. rewrite map_map, app_nil_r. f_equal.
  destruct (completed fetch); [|done]. simpl. f_equal. by destruct refreshed.
Qed.

Lemma reports_end_with_null (l : list (option Progress)) :
  Forall is_Some l -> exists shown, l ++ [None] = map Some shown ++ [None].
Proof. intros [shown ->]%all_shown. by exists shown. Qed.

Lemma reportAll_ends_cleared (s : AppStore) (r : RepositoryObject)
    (l : list (option Progress)) :
  pushPullFetchProgress (get (Push.reportAll s r (l ++ [None])) r) = None.
Proof.
  unfold Push.reportAll. rewrite fold_left_app. simpl.
  apply progress_after_report.
Qed.

(** The values that [performPull] reports never decrease when the command
    layer's pull fractions lie in [0,1] and do not go back; they stay
    between 0 and 0.95; the report of 0.9 that opens the refresh always
    comes, even after a pull that failed or reported nothing; and the last
    report is the one [null], whatever failed, which leaves the slice
    without progress. *)
Theorem pull_progress_nondecreasing_up_to_095 (s : AppStore)
    (r : RepositoryObject) (remoteName : string) (pull : PhaseRun)
    (refreshed filesUpdated : bool) :
  fractionsInUnitInterval pull -> fractionsNondecreasing pull ->
  let log := Pull.progressReports remoteName pull refreshed filesUpdated in
  (exists shown, log = map Some shown ++ [None])
  /\ StronglySorted Qle (progressValues log)
  /\ Forall (fun v => 0 <= v /\ v <= 19 # 20) (progressValues log)
  /\ In Pull.refreshStartProgress (progressValues log)
  /\ pushPullFetchProgress (get (Push.reportAll s r log) r) = None.
Proof.
  intros Hunit Hsorted log. subst log.
  unfold fractionsInUnitInterval, fractionsNondecreasing in *.
  rewrite List.Forall_forall in Hunit.
  rewrite pull_progressValues. split_and!.
  - unfold Pull.progressReports. rewrite !app_assoc.
    apply reports_end_with_null. rewrite !Forall_app. split_and!.
    + constructor; [by eexists|constructor].
    + apply shown_map.
    + constructor; [by eexists|constructor].
    + destruct refreshed; [|constructor].
      rewrite Forall_app. split.
      * constructor; [by eexists|constructor].
      * destruct filesUpdated; constructor; [by eexists|constructor].
  - apply nondecreasing_app.
    + constructor.
      * apply nondecreasing_map; [|done].
        intros x y Hxy. rewrite pullWeight_value. lra.
      * apply List.Forall_forall. intros v (f & <- & Hf)%in_map_iff.
        apply Hunit in Hf. rewrite pullWeight_value. lra.
    + destruct refreshed; [|repeat constructor].
      destruct filesUpdated; repeat constructor;
        rewrite ?pull_refreshStartProgress_value, ?pull_refreshWeight_value; lra.
    + intros x y Hx Hy.
      assert (Hx' : 0 <= x /\ x <= 3 # 5).
      { destruct Hx as [<-|Hx]; [lra|].
        apply in_map_iff in Hx as (f & <- & Hf). apply Hunit in Hf.
        rewrite pullWeight_value. lra. }
      assert (Hy' : 9 # 10 <= y).
      { destruct Hy as [<-|Hy]; [by rewrite pull_refreshStartProgress_value|].
        destruct refreshed; [|done].
        destruct Hy as [<-|Hy];
          [rewrite pull_refreshStartProgress_value, pull_refreshWeight_value; lra|].
        destruct filesUpdated; [|done]. destruct Hy as [<-|[]].
        rewrite pull_refreshStartProgress_value, pull_refreshWeight_value. lra. }
      lra.
  - apply Forall_app. split.
    + apply List.Forall_forall. intros v [<-|Hv]; [lra|].
      apply in_map_iff in Hv as (f & <- & Hf). apply Hunit in Hf.
      rewrite pullWeight_value. lra.
    + apply List.Forall_forall. intros v Hv.
      destruct Hv as [<-|Hv]; [rewrite pull_refreshStartProgress_value; lra|].
      destruct refreshed; [|done].
      destruct Hv as [<-|Hv];
        [rewrite pull_refreshStartProgress_value, pull_refreshWeight_value; lra|].
      destruct filesUpdated; [|done]. destruct Hv as [<-|[]].
      rewrite pull_refreshStartProgress_value, pull_refreshWeight_value. lra.
  - apply in_or_app. right. by left.
  - unfold Pull.progressReports. rewrite !app_assoc.
    apply reportAll_ends_cleared.
Qed.

Lemma pull_progress_nondecreasing_up_to_095_witness :
  let log := Pull.progressReports "origin" (steadyPhase "pull") true true in
  StronglySorted Qle (progressValues log)
  /\ pushPullFetchProgress (get (Push.reportAll emptyStore repositoryOne log) 1%N) = None.
Proof.
  assert (Hunit : fractionsInUnitInterval (steadyPhase "pull")).
  { repeat constructor; vm_compute; discriminate. }
  assert (Hsorted : fractionsNondecreasing (steadyPhase "pull")).
  { repeat constructor; vm_compute; discriminate. }
  destruct (pull_progress_nondecreasing_up_to_095 emptyStore repositoryOne
              "origin"
              (steadyPhase "pull") true true Hunit Hsorted)
    as (_ & Hmono & _ & _ & Hnull).
  by split.
Defined.

Lemma fetch_reports_shape (fetch : PhaseRun) (refreshed : bool) :
  exists shown, Fetch.progressReports fetch refreshed = map Some shown ++ [None].
Proof.
  unfold Fetch.progressReports. rewrite !app_assoc.
  apply reports_end_with_null. rewrite !Forall_app. split.
  - apply shown_map.
  - destruct (completed fetch); [|constructor].
    rewrite Forall_app. split.
    + constructor; [eexists; reflexivity|constructor].
    + destruct refreshed; constructor; [eexists; reflexivity|constructor].
Qed.

(** A stream of scaled fractions followed by the two refresh values. *)
Lemma scaled_stream_nondecreasing (scaled : Q -> Q) (weight final : Q)
    (fs : list Q) (completed refreshed : bool) :
  (forall x y, x <= y -> scaled x <= scaled y) ->
  (forall f, In f fs -> 0 <= scaled f /\ scaled f <= weight) ->
  0 <= weight -> weight <= final ->
  StronglySorted Qle fs ->
  let values :=
    map scaled fs
    ++ (if completed then weight :: (if refreshed then [final] else [])
        else []) in
  StronglySorted Qle values
  /\ Forall (fun v => 0 <= v /\ v <= final) values.
Proof.
  intros Hmono Hbounds Hweight Hfinal Hsorted values. subst values. split.
  - apply nondecreasing_app.
    + by apply nondecreasing_map.
    + destruct completed; [|constructor].
      destruct refreshed; repeat constructor. exact Hfinal.
    + intros x y (f & <- & Hf)%in_map_iff Hy.
      apply Hbounds in Hf as [_ Hf].
      destruct completed; [|destruct Hy].
      destruct Hy as [<-|Hy]; [exact Hf|].
      destruct refreshed; [|destruct Hy]. destruct Hy as [<-|[]]. lra.
  - apply Forall_app. split.
    + apply List.Forall_forall. intros v (f & <- & Hf)%in_map_iff.
      apply Hbounds in Hf as [Hlow Hhigh]. split; [exact Hlow|lra].
    + destruct completed; [|constructor].
      apply List.Forall_forall. intros v Hv.
      destruct Hv as [<-|Hv]; [lra|].
      destruct refreshed; [|destruct Hv]. destruct Hv as [<-|[]]. lra.
Qed.

(** X7.  The values that [performFetch] reports are computed in doubles.
    When the command layer's fetch fractions lie in [0,1] and do not go
    back, the values never decrease; they stay between 0 and the value of
    the last report of a fetch whose steps all succeed, which is
    0.9 + 0.1 * 0.5 in doubles: 0.9500000000000001, above 0.95 and below
    1.  The last report is the one [null], also when the fetch or the
    refresh throws. *)
Theorem fetch_progress_nondecreasing_below_one (fetch : PhaseRun)
    (refreshed : bool) :
  fractionsInUnitInterval fetch -> fractionsNondecreasing fetch ->
  let log := Fetch.progressReports fetch refreshed in
  let final :=
    Double.add Fetch.fetchWeight
      (Double.mul Fetch.refreshWeight (Double.round 0.5)) in
  (exists shown, log = map Some shown ++ [None])
  /\ StronglySorted Qle (progressValues log)
  /\ Forall (fun v => 0 <= v /\ v <= final) (progressValues log)
  /\ (completed fetch = true -> refreshed = true ->
      last (progressValues log) = Some final)
  /\ final == 8556839292003943 # 9007199254740992
  /\ 19 # 20 < final /\ final < 1.
Proof.
  intros Hunit Hsorted log final. subst log.
  unfold fractionsInUnitInterval, fractionsNondecreasing in *.
  rewrite List.Forall_forall in Hunit.
  pose proof fetch_fetchWeight_value as Hw.
  pose proof fetch_lastValue_value as Hlast. fold final in Hlast.
  rewrite fetch_progressValues. fold final.
  assert (Hweight : 0 <= Fetch.fetchWeight) by (rewrite Hw; lra).
  assert (Hfinal : Fetch.fetchWeight <= final) by (rewrite Hw, Hlast; lra).
  clearbody final.
  destruct (scaled_stream_nondecreasing
              (fun f => Double.mul f Fetch.fetchWeight) Fetch.fetchWeight
              final (fractions fetch) (completed fetch) refreshed)
    as [Hmono Hrange]; try assumption.
  { intros x y Hxy. apply round_mono. rewrite Hw. nra. }
  { intros f Hf. by apply fetch_value_bounds, Hunit. }
  split; [apply fetch_reports_shape|].
  split; [exact Hmono|]. split; [exact Hrange|].
  split; [|split; [exact Hlast|split; rewrite Hlast; lra]].
  intros -> ->.
  change (Fetch.fetchWeight :: [final]) with ([Fetch.fetchWeight] ++ [final]).
  rewrite app_assoc. apply last_snoc.
Qed.

Lemma fetch_progress_nondecreasing_below_one_witness :
  let log := Fetch.progressReports (steadyPhase "fetch") true in
  StronglySorted Qle (progressValues log)
  /\ (exists v, last (progressValues log) = Some v /\ 19 # 20 < v).
Proof.
  assert (Hunit : fractionsInUnitInterval (steadyPhase "fetch")).
  { repeat constructor; vm_compute; discriminate. }
  assert (Hsorted : fractionsNondecreasing (steadyPhase "fetch")).
  { repeat constructor; vm_compute; discriminate. }
  destruct (fetch_progress_nondecreasing_below_one (steadyPhase "fetch") true
              Hunit Hsorted) as (_ & Hmono & _ & Hfinal & _ & Habove & _).
  split; [exact Hmono|]. eexists. split; [by apply Hfinal|exact Habove].
Defined.

End PullFetchProgress.

Lemma fetch_reports_end_cleared (s : AppStore) (r : RepositoryObject)
    (fetch : PhaseRun) (refreshed : bool) :
  pushPullFetchProgress
    (get (Push.reportAll s r (Fetch.progressReports fetch refreshed)) r) = None.
Proof.
  unfold Fetch.progressReports. rewrite !app_assoc.
  apply reportAll_ends_cleared.
Qed.

(** A fetch that finds the gate free ends with no progress shown and the
    gate free again, whether it returned or one of its steps threw, and
    what was thrown reaches the caller; a fetch that finds the gate held
    changes nothing and returns. *)
Theorem performFetch_clears_progress_and_gate (s : AppStore)
    (r : RepositoryObject) (fetch : PhaseRun) (refreshed forwarded : bool)
    (err : string) :
  (isPushPullFetchInProgress (get s r) = false ->
     let result := performFetch s r fetch refreshed forwarded err in
     pushPullFetchProgress (get result.1 r) = None
     /\ isPushPullFetchInProgress (get result.1 r) = false
     /\ result.2 = (if completed fetch && refreshed && forwarded
                    then Returned tt else Thrown err))
  /\ (isPushPullFetchInProgress (get s r) = true ->
        performFetch s r fetch refreshed forwarded err = (s, Returned tt)).
Proof.
  split.
  - intros Hfree result. subst result.
    unfold performFetch, withPushPull, withPushPull_enter. rewrite Hfree.
    cbn [fst snd]. unfold withPushPull_exit. autorewrite with store.
    split_and!; [|done|done].
    cbn [with_isPushPullFetchInProgress pushPullFetchProgress].
    apply fetch_reports_end_cleared.
  - intros Hheld. unfold performFetch, withPushPull, withPushPull_enter.
    by rewrite Hheld.
Qed.

Lemma performFetch_clears_progress_and_gate_witness :
  let failed := mkPhaseRun [report "fetch" 0.5] false in
  let result :=
    performFetch emptyStore repositoryOne failed false false "network down" in
  pushPullFetchProgress (get result.1 1%N) = None
  /\ isPushPullFetchInProgress (get result.1 1%N) = false
  /\ result.2 = Thrown "network down".
Proof.
  intros failed result.
  destruct (performFetch_clears_progress_and_gate emptyStore repositoryOne failed false
              false "network down") as [Hfree _].
  apply Hfree. reflexivity.
Defined.

Lemma performPush_clears_progress_and_gate_witness :
  let result :=
    performPush behindStore repositoryOne (steadyPhase "push")
      (steadyPhase "fetch") true in
  pushPullFetchProgress (get result.1 1%N) = None
  /\ isPushPullFetchInProgress (get result.1 1%N) = false.
Proof.
  apply (performPush_clears_progress_and_gate behindStore repositoryOne "origin"
           featureBranch (steadyPhase "push") (steadyPhase "fetch") true);
    reflexivity.
Defined.

(** The test of line 2756 compares objects: a report for the object that
    is selected emits an update, a report for another object of the same
    repository writes the slice and emits nothing. *)
Example progress_emits_for_the_selected_object :
  let selected :=
    mkAppStore ∅ (Some repositoryOne) true false 0 None 0 None None None in
  let other := mkRepositoryObject 1 1%N in
  emitted (updatePushPullFetchProgress selected repositoryOne None) = 1%nat
  /\ emitted (updatePushPullFetchProgress selected other None) = 0%nat
  /\ get (updatePushPullFetchProgress selected other None) 1%N
     = get (updatePushPullFetchProgress selected repositoryOne None) 1%N.
Proof. by split_and!. Qed.


(** ** Pull *)

(** A pull that finds the gate free always leaves it free.  Without a
    remote it throws before any progress is reported and leaves the
    progress of the slice as it was; on a branch whose merge base could be
    computed it ends with no progress shown, whatever step failed. *)
Theorem performPull_releases_the_gate (s : AppStore) (r : RepositoryObject)
    (currentRemote : option string) (mergeBase : Outcome (option string))
    (pull : PhaseRun) (refreshed filesUpdated forwarded : bool) (err : string) :
  isPushPullFetchInProgress (get s r) = false ->
  let result := performPull s r currentRemote mergeBase pull refreshed
                  filesUpdated forwarded err in
  isPushPullFetchInProgress (get result.1 r) = false
  /\ (currentRemote = None ->
      result.2 = Thrown "The repository has no remotes."
      /\ pushPullFetchProgress (get result.1 r) = pushPullFetchProgress (get s r))
  /\ (forall remoteName branch base,
        currentRemote = Some remoteName ->
        bs_tip (branchesState (get s r)) = TipValid branch ->
        mergeBase = Returned base ->
        pushPullFetchProgress (get result.1 r) = None
        /\ result.2 = (if refreshed && filesUpdated && forwarded
                       then Returned tt else Thrown err)).
Proof.
  intros Hfree result. subst result.
  unfold performPull, withPushPull, withPushPull_enter. rewrite Hfree.
  set (s1 := emitUpdate (update s r (with_isPushPullFetchInProgress true))).
  assert (Htip : bs_tip (branchesState (get s1 r))
                 = bs_tip (branchesState (get s r))).
  { subst s1. by autorewrite with store. }
  assert (Hprogress : pushPullFetchProgress (get s1 r)
                      = pushPullFetchProgress (get s r)).
  { subst s1. by autorewrite with store. }
  split_and!.
  - destruct (match currentRemote with | None => _ | Some _ => _ end)
      as [s2 res]. cbn [fst]. unfold withPushPull_exit.
    by autorewrite with store.
  - intros ->. cbn [fst snd]. split; [done|].
    unfold withPushPull_exit. by autorewrite with store.
  - intros remoteName branch base -> Hbranch ->. rewrite Htip, Hbranch.
    assert (Hrun : (match branch_upstream branch with
                    | Some _ | _ =>
                        (Push.reportAll s1 r
                           (Pull.progressReports remoteName pull refreshed
                              filesUpdated),
                         if refreshed && filesUpdated && forwarded
                         then Returned tt else Thrown err)
                    end : AppStore * Outcome unit)
                   = (Push.reportAll s1 r
                        (Pull.progressReports remoteName pull refreshed
                           filesUpdated),
                      if refreshed && filesUpdated && forwarded
                      then Returned tt else Thrown err)).
    { by destruct (branch_upstream branch). }
    rewrite Hrun. cbn [fst snd]. split; [|done].
    unfold withPushPull_exit. autorewrite with store.
    cbn [with_isPushPullFetchInProgress pushPullFetchProgress].
    unfold Pull.progressReports. rewrite !app_assoc.
    apply reportAll_ends_cleared.
Qed.

Lemma performPull_releases_the_gate_witness :
  let result :=
    performPull emptyStore repositoryOne None (Returned None)
      (steadyPhase "pull")
      true true true "" in
  isPushPullFetchInProgress (get result.1 1%N) = false
  /\ result.2 = Thrown "The repository has no remotes.".
Proof.
  intros result.
  destruct (performPull_releases_the_gate emptyStore repositoryOne None
              (Returned None)
              (steadyPhase "pull") true true true "" eq_refl)
    as (Hfree & Hnone & _).
  split; [exact Hfree|]. by apply Hnone.
Defined.

(** ** Loading the diff of the selected file *)

Lemma changeFileSelection_start_slice (s : AppStore) (r : RepositoryId)
    (file : CommittedFileChange) (diffId : DiffId) :
  let started := _changeFileSelection_start s r file diffId in
  let before := commitSelection (get s r) in
  commitSelection (get started.1 r)
  = mkCommitSelection (cs_sha before) (Some file) (cs_changedFiles before) None
      (if falsyString (cs_sha before) then None else Some diffId)
  /\ started.2
     = (if falsyString (cs_sha before) then None else Some (get started.1 r)).
Proof.
  unfold _changeFileSelection_start, updateCommitSelection.
  autorewrite with store. simpl.
  destruct (falsyString (cs_sha (commitSelection (get s r)))); simpl;
    by autorewrite with store.
Qed.

Lemma diff_load_slice (s : AppStore) (r : RepositoryId)
    (file : CommittedFileChange) (diffId : DiffId) (diff : IDiff) :
  falsyString (cs_sha (commitSelection (get s r))) = false ->
  exists stateBeforeLoad,
    (_changeFileSelection_start s r file diffId).2 = Some stateBeforeLoad
    /\ commitSelection
         (get (_changeFileSelection_resume
                 (_changeFileSelection_start s r file diffId).1 r file
                 stateBeforeLoad diff) r)
       = mkCommitSelection (cs_sha (commitSelection (get s r))) (Some file)
           (cs_changedFiles (commitSelection (get s r))) (Some diff)
           (if bool_decide (diff_kind diff = DiffSketch)
            then Some diffId else None).
Proof.
  intros Hsha.
  destruct (changeFileSelection_start_slice s r file diffId)
    as [Hslice Hstate].
  cbn zeta in Hslice, Hstate. rewrite Hsha in Hslice, Hstate.
  eexists. split; [exact Hstate|].
  unfold _changeFileSelection_resume.
  rewrite bool_decide_eq_false_2 by (intros Hne; by apply Hne).
  rewrite Hslice. cbn [cs_file].
  rewrite bool_decide_eq_false_2 by (intros Hne; by apply Hne).
  unfold updateCommitSelection. autorewrite with store.
  cbn [with_commitSelection commitSelection]. rewrite Hslice. simpl.
  by repeat case_bool_decide.
Qed.

(** A diff load that nothing interrupts: selecting a file of the selected
    commit and completing the load leaves that file selected with the
    loaded diff, and no loading token unless the diff is a sketch diff,
    which keeps the token for its previews.  With no commit selected
    nothing is loaded: the file is recorded, without diff or token. *)
Theorem diff_load_round_trip (s : AppStore) (r : RepositoryId)
    (file : CommittedFileChange) (diffId : DiffId) (diff : IDiff) :
  let started := _changeFileSelection_start s r file diffId in
  let before := commitSelection (get s r) in
  (falsyString (cs_sha before) = true ->
     started.2 = None
     /\ commitSelection (get started.1 r)
        = mkCommitSelection (cs_sha before) (Some file)
            (cs_changedFiles before) None None)
  /\ (falsyString (cs_sha before) = false ->
        exists stateBeforeLoad,
          started.2 = Some stateBeforeLoad
          /\ commitSelection
               (get (_changeFileSelection_resume started.1 r file
                       stateBeforeLoad diff) r)
             = mkCommitSelection (cs_sha before) (Some file)
                 (cs_changedFiles before) (Some diff)
                 (if bool_decide (diff_kind diff = DiffSketch)
                  then Some diffId else None)).
Proof.
  intros started before. split.
  - intros Hfalsy.
    destruct (changeFileSelection_start_slice s r file diffId)
      as [Hslice Hstate].
    cbn zeta in Hslice, Hstate. fold started before in Hslice, Hstate.
    rewrite Hfalsy in Hslice, Hstate. done.
  - intros Hsha. by apply diff_load_slice.
Qed.

Lemma diff_load_round_trip_witness :
  exists stateBeforeLoad,
    firstLoad.2 = Some stateBeforeLoad
    /\ commitSelection
         (get (_changeFileSelection_resume firstLoad.1 1%N exampleFile
                 stateBeforeLoad exampleDiff) 1%N)
       = mkCommitSelection (Some "a1") (Some exampleFile) [] (Some exampleDiff)
           None.
Proof.
  destruct (diff_load_round_trip commitSelectedStore 1%N exampleFile 7%N
              exampleDiff) as [_ Hloads].
  apply Hloads. reflexivity.
Defined.

(** The sketch previews of a load wait for its diff: a preview callback
    that comes before the diff changes nothing and re-arms itself; once a
    sketch diff has landed the callback merges the previews into it and
    clears the token, so that a repeated callback is ignored; and when the
    diff that landed is not a sketch diff the callback is ignored and the
    diff stays. *)
Theorem sketch_previews_wait_for_the_diff (s s1 : AppStore)
    (r : RepositoryId) (file : CommittedFileChange) (diffId : DiffId)
    (stateBeforeLoad : IRepositoryState) (diff : IDiff) (previews : string) :
  diffId ≠ 0%N ->
  _changeFileSelection_start s r file diffId = (s1, Some stateBeforeLoad) ->
  let s2 := _changeFileSelection_resume s1 r file stateBeforeLoad diff in
  let merged := updateDiffWithSketchPreview r diffId true s2 None (Some previews) in
  updateDiffWithSketchPreview r diffId true s1 None (Some previews) = (s1, true)
  /\ (diff_kind diff = DiffSketch ->
      merged.2 = false
      /\ cs_diff (commitSelection (get merged.1 r))
         = Some (mergePreviews diff previews)
      /\ cs_loadingDiff (commitSelection (get merged.1 r)) = None
      /\ updateDiffWithSketchPreview r diffId true merged.1 None (Some previews)
         = (merged.1, false))
  /\ (diff_kind diff ≠ DiffSketch -> merged = (s2, false)).
Proof.
  intros Hid Hstart s2 merged.
  destruct (changeFileSelection_start_slice s r file diffId)
    as [Hslice Hstate].
  rewrite Hstart in Hslice, Hstate. cbn [fst snd] in Hslice, Hstate.
  destruct (falsyString (cs_sha (commitSelection (get s r)))) eqn:Hsha;
    [done|].
  injection Hstate as ->.
  assert (Hs2 : commitSelection (get s2 r)
                = mkCommitSelection (cs_sha (commitSelection (get s r)))
                    (Some file) (cs_changedFiles (commitSelection (get s r)))
                    (Some diff)
                    (if bool_decide (diff_kind diff = DiffSketch)
                     then Some diffId else None)).
  { destruct (diff_load_slice s r file diffId diff Hsha) as (st & Hst & Hres).
    rewrite Hstart in Hst. cbn [snd fst] in Hst, Hres.
    injection Hst as <-. by rewrite Hstart in Hres. }
  split_and!.
  - unfold updateDiffWithSketchPreview. rewrite Hslice. cbn [cs_loadingDiff cs_diff].
    unfold falsyNumber. rewrite bool_decide_eq_false_2 by done.
    by rewrite bool_decide_eq_false_2 by (intros Hne; by apply Hne).
  - intros Hsketch. rewrite bool_decide_eq_true_2 in Hs2 by done.
    assert (Hmerged : merged
              = (emitUpdate
                   (updateCommitSelection s2 r (fun state =>
                      mkCommitSelection (cs_sha state) (cs_file state)
                        (cs_changedFiles state)
                        (previewedDiff (cs_diff state) previews) None)),
                 false)).
    { subst merged. unfold updateDiffWithSketchPreview. rewrite Hs2.
      cbn [cs_loadingDiff cs_diff]. unfold falsyNumber.
      rewrite bool_decide_eq_false_2 by done.
      by rewrite bool_decide_eq_false_2 by (intros Hne; by apply Hne). }
    rewrite Hmerged. cbn [fst snd]. unfold updateCommitSelection.
    autorewrite with store. cbn [with_commitSelection commitSelection].
    rewrite Hs2. cbn [cs_diff cs_loadingDiff previewedDiff].
    rewrite bool_decide_eq_false_2 by (intros Hne; by apply Hne).
    split_and!; [done..|].
    unfold updateDiffWithSketchPreview. autorewrite with store.
    cbn [with_commitSelection commitSelection cs_loadingDiff].
    rewrite (bool_decide_eq_true_2 (None ≠ Some diffId)) by done.
    by rewrite orb_true_r.
  - intros Hother. rewrite bool_decide_eq_false_2 in Hs2 by done.
    subst merged. unfold updateDiffWithSketchPreview. rewrite Hs2.
    cbn [cs_loadingDiff]. rewrite (bool_decide_eq_true_2 (None ≠ Some diffId)) by done.
    by rewrite orb_true_r.
Qed.

Lemma sketch_previews_wait_for_the_diff_witness :
  let s2 := _changeFileSelection_resume firstLoad.1 1%N exampleFile
              (get firstLoad.1 1%N) sketchDiff in
  updateDiffWithSketchPreview 1%N 7%N true firstLoad.1 None (Some "previews")
  = (firstLoad.1, true)
  /\ cs_diff (commitSelection
                (get (updateDiffWithSketchPreview 1%N 7%N true s2 None
                        (Some "previews")).1 1%N))
     = Some (mkDiff DiffSketch "page 1" (Some "previews")).
Proof.
  intros s2.
  destruct (sketch_previews_wait_for_the_diff commitSelectedStore firstLoad.1
              1%N exampleFile 7%N (get firstLoad.1 1%N) sketchDiff "previews")
    as (Hearly & Hsketch & _); [discriminate|reflexivity|].
  split; [exact Hearly|]. by apply Hsketch.
Defined.

Lemma diff_load_discarded_after_commit_change_witness :
  let s2 := _changeCommitSelection firstLoad.1 1%N "b2" in
  _changeFileSelection_resume s2 1%N exampleFile (get firstLoad.1 1%N)
    exampleDiff = s2.
Proof.
  apply (diff_load_discarded_after_commit_change commitSelectedStore firstLoad.1
           1%N exampleFile 7%N (get firstLoad.1 1%N) "b2" exampleDiff).
  - reflexivity.
  - vm_compute. discriminate.
Defined.

Lemma diff_load_discarded_after_file_change_witness :
  let s2 := (_changeFileSelection_start firstLoad.1 1%N otherFile 9%N).1 in
  _changeFileSelection_resume s2 1%N exampleFile (get firstLoad.1 1%N)
    exampleDiff = s2
  /\ updateDiffWithSketchPreview 1%N 7%N true s2 None (Some "previews")
     = (s2, false).
Proof.
  apply (diff_load_discarded_after_file_change firstLoad.1 1%N exampleFile
           otherFile 7%N 9%N (get firstLoad.1 1%N) exampleDiff None
           (Some "previews")); discriminate.
Defined.

(** ** Changed files of the selected commit *)

(** When the changed files of a commit arrive, they are written into the
    slice together with the selected file: the file selected when the load
    began, or else the first changed file, and its diff load starts at once
    with a fresh token; when there is neither, no file is selected and
    nothing loads.  Line 1034 compares the SHA read when the load began
    with the same snapshot, so the files are written whichever commit is
    selected by then. *)
Theorem changed_files_select_the_first_file (s : AppStore) (r : RepositoryId)
    (state : IRepositoryState) (changedFiles : list CommittedFileChange)
    (diffId : DiffId) :
  let loaded :=
    _loadChangedFilesForCurrentSelection_resume s r state (Some changedFiles)
      diffId in
  let chosen :=
    match cs_file (commitSelection state) with
    | Some file => Some file
    | None => head changedFiles
    end in
  let now := cs_sha (commitSelection (get s r)) in
  commitSelection (get loaded.1 r)
  = mkCommitSelection now chosen changedFiles None
      (match chosen with
       | Some _ => if falsyString now then None else Some diffId
       | None => None
       end)
  /\ (loaded.2 ≠ None <-> chosen ≠ None /\ falsyString now = false).
Proof.
  intros loaded chosen now. subst loaded.
  unfold _loadChangedFilesForCurrentSelection_resume.
  rewrite bool_decide_eq_false_2 by (intros Hne; by apply Hne).
  set (first := if bool_decide (cs_file (commitSelection state) = None)
                   && negb (bool_decide (changedFiles = []))
                then head changedFiles else cs_file (commitSelection state)).
  assert (Hfirst : first = chosen).
  { subst first chosen. destruct (cs_file (commitSelection state)); [done|].
    rewrite bool_decide_eq_true_2 by done. by destruct changedFiles. }
  rewrite Hfirst.
  set (s1 := emitUpdate (updateCommitSelection s r _)).
  assert (Hs1 : commitSelection (get s1 r)
                = mkCommitSelection now chosen changedFiles None None).
  { subst s1. unfold updateCommitSelection. by autorewrite with store. }
  destruct chosen as [file|].
  - destruct (changeFileSelection_start_slice s1 r file diffId)
      as [Hslice Hstate].
    cbn zeta in Hslice, Hstate. rewrite Hs1 in Hslice, Hstate.
    cbn [cs_sha cs_changedFiles] in Hslice, Hstate.
    split; [done|]. rewrite Hstate.
    destruct (falsyString now); split; try done.
    + by intros [_ ?].
  - split; [done|]. cbn [snd]. split; [done|by intros [? _]].
Qed.

Lemma changed_files_select_the_first_file_witness :
  commitSelection
    (get (_loadChangedFilesForCurrentSelection_resume commitSelectedStore 1%N
            (get commitSelectedStore 1%N) (Some [exampleFile; otherFile]) 7%N).1
       1%N)
  = mkCommitSelection (Some "a1") (Some exampleFile) [exampleFile; otherFile]
      None (Some 7%N).
Proof.
  apply (changed_files_select_the_first_file commitSelectedStore 1%N
           (get commitSelectedStore 1%N) [exampleFile; otherFile] 7%N).
Defined.

(** ** Initialising the compare view *)

Lemma get_setDivergingBranchBannerVisibility (s : AppStore)
    (r : RepositoryId) (visible : bool) :
  get (_setDivergingBranchBannerVisibility s r visible) r
  = with_compareState (with_bannerVisible visible) (get s r).
Proof.
  unfold _setDivergingBranchBannerVisibility. case_bool_decide as Hne.
  - unfold updateCompareState. by autorewrite with store.
  - destruct (get s r) as [? ? cs ? ? ? ? ?]. simpl in *.
    destruct cs. simpl in *. by subst visible.
Qed.

Lemma withoutBranch_names (current : Branch) (bs : list Branch) :
  Forall (fun b => branch_name b ≠ branch_name current)
    (withoutBranch (Some current) bs)
  /\ (forall b, In b (withoutBranch (Some current) bs) -> In b bs)
  /\ (forall b, In b bs -> branch_name b ≠ branch_name current ->
        In b (withoutBranch (Some current) bs)).
Proof.
  unfold withoutBranch. split_and!.
  - apply List.Forall_forall. intros b [_ Hb]%filter_In.
    by apply bool_decide_eq_true in Hb.
  - by intros b [Hb _]%filter_In.
  - intros b Hb Hne. apply filter_In. split; [done|].
    by apply bool_decide_eq_true.
Qed.

(** The compare state that [_initializeCompare] writes, whatever the
    banner: the lists and the inferred branch. *)
Lemma initializeCompare_compareState (state : IRepositoryState)
    (inferred : option Branch) (s : AppStore) (r : RepositoryId) :
  let s' := _initializeCompare_resume state inferred s r in
  let current :=
    match bs_tip (branchesState state) with
    | TipValid branch => Some branch
    | _ => None
    end in
  cmp_allBranches (compareState (get s' r))
  = withoutBranch current (bs_allBranches (branchesState state))
  /\ cmp_recentBranches (compareState (get s' r))
     = withoutBranch current (bs_recentBranches (branchesState state))
  /\ cmp_defaultBranch (compareState (get s' r))
     = match current, bs_defaultBranch (branchesState state) with
       | Some cb, Some db =>
           if bool_decide (branch_name cb ≠ branch_name db) then Some db
           else None
       | _, _ => None
       end
  /\ cmp_aheadBehindCache (compareState (get s' r))
     = cmp_aheadBehindCache (compareState (get s r))
  /\ branchesState (get s' r) = branchesState (get s r)
  /\ icb_aheadBehind (cmp_inferredComparisonBranch (compareState (get s' r)))
     = match bs_tip (branchesState state),
             cmp_aheadBehindCache (compareState state), inferred with
       | TipValid branch, Some cache, Some ib =>
           cache_get cache (branch_tip_sha branch) (branch_tip_sha ib)
       | _, _, _ => None
       end.
Proof.
  intros s' current. subst s' current. unfold _initializeCompare_resume.
  destruct (bs_tip (branchesState state)) as [| |sha|tipBranch];
    destruct (cmp_aheadBehindCache (compareState state)) as [cache|];
    try destruct inferred as [ib|];
    rewrite get_setDivergingBranchBannerVisibility;
    unfold updateCompareState; autorewrite with store; simpl;
    by split_and!.
Qed.

(** X16.  After [_initializeCompare] on a branch, each of the two branch
    lists of the compare view is the repository's list with the entries
    of the current branch's name filtered out: every other branch is kept,
    in order, nothing else comes in, and the current branch is never
    offered.  The default branch is offered exactly when the repository
    has one and it is not the current branch.  Off a branch the lists are
    passed whole and no default branch is offered. *)
Theorem initializeCompare_leaves_out_the_current_branch
    (state : IRepositoryState) (inferred : option Branch) (s : AppStore)
    (r : RepositoryId) :
  let cs := compareState (get (_initializeCompare_resume state inferred s r) r) in
  (forall current, bs_tip (branchesState state) = TipValid current ->
     let other := fun b => bool_decide (branch_name b ≠ branch_name current) in
     cmp_allBranches cs
     = List.filter other (bs_allBranches (branchesState state))
     /\ cmp_recentBranches cs
        = List.filter other (bs_recentBranches (branchesState state))
     /\ (forall b, In b (cmp_allBranches cs) <->
           In b (bs_allBranches (branchesState state))
           /\ branch_name b ≠ branch_name current)
     /\ (forall b, In b (cmp_recentBranches cs) <->
           In b (bs_recentBranches (branchesState state))
           /\ branch_name b ≠ branch_name current)
     /\ (forall db, cmp_defaultBranch cs = Some db <->
           bs_defaultBranch (branchesState state) = Some db
           /\ branch_name db ≠ branch_name current))
  /\ ((forall current, bs_tip (branchesState state) ≠ TipValid current) ->
        cmp_allBranches cs = bs_allBranches (branchesState state)
        /\ cmp_recentBranches cs = bs_recentBranches (branchesState state)
        /\ cmp_defaultBranch cs = None).
Proof.
  intros cs.
  destruct (initializeCompare_compareState state inferred s r)
    as (Hall & Hrecent & Hdefault & _).
  cbn zeta in Hall, Hrecent, Hdefault. fold cs in Hall, Hrecent, Hdefault.
  split.
  - intros current Htip other. rewrite Htip in Hall, Hrecent, Hdefault.
    rewrite Hall, Hrecent, Hdefault.
    assert (Hmember : forall bs b,
      In b (withoutBranch (Some current) bs)
      <-> In b bs /\ branch_name b ≠ branch_name current).
    { intros bs b.
      destruct (withoutBranch_names current bs) as (Hnames & Hfrom & Hkept).
      rewrite List.Forall_forall in Hnames. split.
      - intros Hin. split; [by apply Hfrom|by apply Hnames].
      - intros [Hin Hne]. by apply Hkept. }
    split_and!; [done|done|by apply Hmember|by apply Hmember|].
    intros db. destruct (bs_defaultBranch (branchesState state)) as [d|].
    + case_bool_decide as Hne; split.
      * intros [= <-]. split; [done|]. by intros Heq.
      * by intros [[= <-] _].
      * done.
      * intros [[= <-] Hdb]. by destruct Hdb.
    + split; [done|by intros [? _]].
  - intros Hoff.
    destruct (bs_tip (branchesState state)) as [| |sha|current];
      try by split_and!.
    by destruct (Hoff current).
Qed.

Lemma initializeCompare_leaves_out_the_current_branch_witness :
  cmp_allBranches
    (compareState (get (_initializeCompare behindStore 1%N (Some mainBranch)) 1%N))
  = [mainBranch]
  /\ cmp_defaultBranch
       (compareState (get (_initializeCompare behindStore 1%N (Some mainBranch)) 1%N))
     = Some mainBranch.
Proof.
  destruct (initializeCompare_leaves_out_the_current_branch
              (get behindStore 1%N) (Some mainBranch) behindStore 1%N)
    as [Hon _].
  destruct (Hon featureBranch eq_refl) as (_ & _ & _ & _ & Hdefault).
  split; [reflexivity|].
  apply Hdefault. split; [reflexivity|discriminate].
Defined.

(** Running [_initializeCompare] again with the same inferred branch, when
    nothing else has touched the repository in between, always leaves the
    banner hidden: the behind count stored by the first run is the count
    the second run computes. *)
Theorem initializeCompare_twice_hides_the_banner (s : AppStore)
    (r : RepositoryId) (inferred : option Branch) :
  bannerVisible (_initializeCompare (_initializeCompare s r inferred) r inferred) r
  = false.
Proof.
  set (s1 := _initializeCompare s r inferred).
  destruct (initializeCompare_compareState (get s r) inferred s r)
    as (_ & _ & _ & Hcache & Hbranches & Hstored).
  cbn zeta in Hcache, Hbranches, Hstored.
  fold (_initializeCompare s r inferred) in Hcache, Hbranches, Hstored.
  fold s1 in Hcache, Hbranches, Hstored.
  unfold _initializeCompare at 1. unfold _initializeCompare_resume.
  rewrite Hbranches, Hcache, Hstored.
  destruct (bs_tip (branchesState (get s r))) as [| |sha|tipBranch];
    destruct (cmp_aheadBehindCache (compareState (get s r))) as [cache|];
    try destruct inferred as [ib|];
    rewrite bannerVisible_set; try reflexivity.
  rewrite Z.eqb_refl. simpl. apply andb_false_r.
Qed.

(** ** Comparing to a branch *)

(** What [updateCompareToBranch] has written when it reaches the merge
    preview. *)
Lemma updateCompareToBranch_before_preview (s : AppStore) (r : RepositoryId)
    (action : ICompareToBranch) (compare : ICompareResult) :
  let aheadBehind :=
    mkAheadBehind (compare_ahead compare) (compare_behind compare) in
  let s4 :=
    updateOrSelectFirstCommit
      (emitUpdate
         (updateCompareState
            (updateCompareState s r (fun cs =>
               mkCompareState
                 (CompareBranch (action_branch action)
                    (action_comparisonMode action) aheadBehind)
                 (cmp_tip cs) (cmp_mergeStatus cs) (cmp_showBranchList cs)
                 (branch_name (action_branch action)) (compare_commits compare)
                 (cmp_allBranches cs) (cmp_recentBranches cs)
                 (cmp_defaultBranch cs) (cmp_aheadBehindCache cs)
                 (cmp_inferredComparisonBranch cs)
                 (cmp_isDivergingBranchBannerVisible cs)))
            r (with_mergeStatus (Some MergeLoading))))
      r (compare_commits compare) in
  cmp_formState (compareState (get s4 r))
  = CompareBranch (action_branch action) (action_comparisonMode action) aheadBehind
  /\ cmp_commitSHAs (compareState (get s4 r)) = compare_commits compare
  /\ cmp_filterText (compareState (get s4 r)) = branch_name (action_branch action)
  /\ cmp_mergeStatus (compareState (get s4 r)) = Some MergeLoading
  /\ currentMergeTreePromise s4 = currentMergeTreePromise s.
Proof.
  intros aheadBehind s4. subst s4.
  rewrite compareState_updateOrSelectFirstCommit,
    promise_updateOrSelectFirstCommit.
  unfold updateCompareState. autorewrite with store. by split_and!.
Qed.

(** When no merge-tree promise is held, a comparison shows the branch, its
    commits and its counts, and then: on a branch that is behind it shows
    the merge status as loading, starts one computation and records its
    promise, which it returns; otherwise it clears the merge status, starts
    nothing and returns nothing. *)
Theorem updateCompareToBranch_starts_only_when_behind (rt : CompareRuntime)
    (r : RepositoryId) (action : ICompareToBranch) (compare : ICompareResult)
    (tip : Tip) :
  currentMergeTreePromise (cr_store rt) = None ->
  let result := updateCompareToBranch_resume rt r action (Some compare) tip in
  let cs := compareState (get (cr_store result.1) r) in
  cmp_formState cs
  = CompareBranch (action_branch action) (action_comparisonMode action)
      (mkAheadBehind (compare_ahead compare) (compare_behind compare))
  /\ cmp_commitSHAs cs = compare_commits compare
  /\ cmp_filterText cs = branch_name (action_branch action)
  /\ (forall tipBranch, tip = TipValid tipBranch -> 0 < compare_behind compare ->
        cmp_mergeStatus cs = Some MergeLoading
        /\ result.2 ≠ None
        /\ currentMergeTreePromise (cr_store result.1) = result.2
        /\ exists t, cr_tasks result.1 = cr_tasks rt ++ [t]
                     /\ Some (mt_promise t) = result.2
                     /\ mt_repository t = r /\ mt_ours t = tipBranch
                     /\ mt_theirs t = action_branch action
                     /\ mt_startedAt t = cr_now rt /\ mt_displayed t = false)
  /\ ((forall tipBranch, tip ≠ TipValid tipBranch) \/ compare_behind compare <= 0 ->
        cmp_mergeStatus cs = None
        /\ result.2 = None
        /\ currentMergeTreePromise (cr_store result.1) = None
        /\ cr_tasks result.1 = cr_tasks rt).
Proof.
  intros Hnone result cs.
  destruct (updateCompareToBranch_before_preview (cr_store rt) r action compare)
    as (Hform & Hcommits & Hfilter & Hstatus & Hfield).
  cbn zeta in Hform, Hcommits, Hfilter, Hstatus, Hfield.
  rewrite Hnone in Hfield.
  subst cs result. unfold updateCompareToBranch_resume. rewrite Hfield.
  set (s4 := updateOrSelectFirstCommit _ r (compare_commits compare)) in *.
  assert (Hotherwise :
            let s5 := emitUpdate (updateCompareState s4 r (with_mergeStatus None)) in
            cmp_formState (compareState (get s5 r)) = cmp_formState (compareState (get s4 r))
            /\ cmp_commitSHAs (compareState (get s5 r)) = cmp_commitSHAs (compareState (get s4 r))
            /\ cmp_filterText (compareState (get s5 r)) = cmp_filterText (compareState (get s4 r))
            /\ cmp_mergeStatus (compareState (get s5 r)) = None
            /\ currentMergeTreePromise s5 = None).
  { unfold updateCompareState. autorewrite with store. by split_and!. }
  cbn zeta in Hotherwise.
  destruct Hotherwise as (Hform' & Hcommits' & Hfilter' & Hstatus' & Hfield').
  destruct tip as [| |sha|tipBranch]; cbn [fst snd cr_store cr_tasks];
    try (rewrite Hform', Hcommits', Hfilter';
         split_and!; [done|done|done|by intros ? [=]|by intros _]).
  cbn [behind].
  destruct (Z.ltb_spec 0 (compare_behind compare)) as [Hbehind|Hbehind];
    cbn [fst snd cr_store cr_tasks newPromise].
  - rewrite get_with_currentMergeTreePromise.
    change (get (newPromise s4).2 r) with (get s4 r).
    split_and!; [done|done|done| |].
    + intros tb [= <-] _. split_and!; [done|done|done|].
      eexists. split; [reflexivity|]. by split_and!.
    + intros [Hoff|Hle]; [by destruct (Hoff tipBranch)|lia].
  - rewrite Hform', Hcommits', Hfilter'.
    split_and!; [done|done|done| |by intros _].
    intros tb _ Hlt. lia.
Qed.

Lemma updateCompareToBranch_starts_only_when_behind_witness :
  let idle := mkCompareRuntime emptyStore [] 0 in
  (updateCompareToBranch_resume idle 1%N compareToMain (Some twoBehind)
     (TipValid featureBranch)).2 ≠ None
  /\ (updateCompareToBranch_resume idle 1%N compareToMain (Some twoBehind)
        (TipDetached "t1")).2 = None.
Proof.
  intros idle.
  destruct (updateCompareToBranch_starts_only_when_behind idle 1%N compareToMain
              twoBehind (TipValid featureBranch) eq_refl)
    as (_ & _ & _ & Hstarts & _).
  destruct (updateCompareToBranch_starts_only_when_behind idle 1%N compareToMain
              twoBehind (TipDetached "t1") eq_refl)
    as (_ & _ & _ & _ & Hskips).
  split.
  - apply (Hstarts featureBranch); [reflexivity|]. vm_compute. reflexivity.
  - apply Hskips. by left.
Defined.

(** Once the minimum latency has passed, the merge-tree promise in flight
    settles, whether the computation returned or threw: the merge status
    of its repository becomes the result, or nothing after a failure; the
    promise stays recorded until its cleanup has run, and after the
    cleanup no promise is recorded and none is left in the event loop, so
    that the next comparison can start a computation. *)
Theorem mergeTree_promise_is_released (s : AppStore) (now : Z)
    (es : list CompareEvent) (t : MergeTreeTask)
    (result : Outcome (option MergeResult)) :
  currentMergeTreePromise s = None ->
  let rt := compare_run (mkCompareRuntime s [] now) es in
  In t (cr_tasks rt) -> mt_displayed t = false ->
  mt_startedAt t + mergeTreeMinimumTimeout <= cr_now rt ->
  let settled := mergeTreeSettled rt (mt_promise t) result in
  let cleaned := mergeTreeCleanup settled (mt_promise t) in
  cmp_mergeStatus (compareState (get (cr_store settled) (mt_repository t)))
  = match result with Returned m => m | Thrown _ => None end
  /\ currentMergeTreePromise (cr_store settled) = Some (mt_promise t)
  /\ mergeTreeCleanup rt (mt_promise t) = rt
  /\ currentMergeTreePromise (cr_store cleaned) = None
  /\ cr_tasks cleaned = [].
Proof.
  intros Hnone rt Hin Hcomputing Hlate settled cleaned.
  assert (Hinv : mergeTreeInvariant rt).
  { apply mergeTreeInvariant_run. split; simpl; [lia|done]. }
  destruct Hinv as [Hlen Hfield].
  assert (Htasks : cr_tasks rt = [t]).
  { destruct (cr_tasks rt) as [|t0 [|t1 ts]]; simpl in *; [done| |lia].
    by destruct Hin as [->|[]]. }
  assert (Hfind : findTask (mt_promise t) false (cr_tasks rt) = Some t).
  { rewrite Htasks. unfold findTask. simpl.
    by rewrite !bool_decide_eq_true_2. }
  assert (Hsettled : settled
            = mkCompareRuntime
                (emitUpdate
                   (updateCompareState (cr_store rt) (mt_repository t)
                      (with_mergeStatus
                         match result with Returned m => m | Thrown _ => None end)))
                (map (markDisplayed (mt_promise t)) (cr_tasks rt)) (cr_now rt)).
  { subst settled. unfold mergeTreeSettled. rewrite Hfind.
    by rewrite (proj2 (Z.leb_le _ _) Hlate). }
  assert (Hcleaned : cleaned
            = mkCompareRuntime
                (with_currentMergeTreePromise None (cr_store settled)) []
                (cr_now rt)).
  { subst cleaned. rewrite Hsettled. unfold mergeTreeCleanup, findTask.
    cbn [cr_tasks cr_store cr_now]. rewrite Htasks.
    cbn [map List.find List.filter]. unfold markDisplayed.
    rewrite (bool_decide_eq_true_2 (mt_promise t = mt_promise t)) by done.
    cbn [mt_promise mt_displayed].
    rewrite (bool_decide_eq_true_2 (mt_promise t = mt_promise t)) by done.
    by rewrite (bool_decide_eq_true_2 (true = true)). }
  split_and!.
  - rewrite Hsettled. unfold updateCompareState. simpl.
    by autorewrite with store.
  - rewrite Hsettled. unfold updateCompareState. simpl.
    autorewrite with store. by apply Hfield.
  - unfold mergeTreeCleanup, findTask. rewrite Htasks. simpl.
    rewrite Hcomputing. by rewrite bool_decide_eq_true_2.
  - by rewrite Hcleaned.
  - by rewrite Hcleaned.
Qed.

Lemma mergeTree_promise_is_released_witness :
  let rt := compare_run (mkCompareRuntime emptyStore [] 0)
              [firstTrigger; Elapsed 500] in
  let cleaned :=
    mergeTreeCleanup (mergeTreeSettled rt 0 (Thrown "merge-tree failed")) 0 in
  currentMergeTreePromise (cr_store cleaned) = None /\ cr_tasks cleaned = [].
Proof.
  intros rt cleaned.
  destruct (mergeTree_promise_is_released emptyStore 0
              [firstTrigger; Elapsed 500]
              (mkMergeTreeTask 0 1%N featureBranch mainBranch 0 false)
              (Thrown "merge-tree failed") eq_refl)
    as (_ & _ & _ & Hfield & Htasks).
  - vm_compute. by left.
  - reflexivity.
  - vm_compute. discriminate.
  - by split.
Defined.

(** ** Background fetch policy *)

Lemma backgroundFetchPolicy_runs_iff_witness :
  backgroundFetchPolicy (Some 1000) (1000 + BackgroundFetchMinimumInterval) = true
  /\ backgroundFetchPolicy None 0 = true.
Proof.
  split.
  - apply (backgroundFetchPolicy_runs_iff (Some 1000)
             (1000 + BackgroundFetchMinimumInterval)).
    right. exists 1000. split; [reflexivity|lia].
  - apply (backgroundFetchPolicy_runs_iff None 0). by left.
Defined.

(** ** Repository selection and the pollers *)

Lemma selectRepository_returns getAccount (s : Shell)
    (repository : option Selection) :
  exists s', _selectRepository getAccount s repository = (s', Returned tt)
             /\ shell_selectedRepository s' = repository.
Proof.
  destruct s as [sel last [f|] [p|] [a|]];
    destruct repository as [[repo|c]|]; simpl; try (by eexists);
    destruct (repo_missing repo); try (by eexists);
    (rewrite bool_decide_eq_false_2 by (by intros H; apply H));
    unfold startBackgroundFetching, startPullRequestUpdater; simpl;
    destruct (getAccount repo), (repo_gitHubRepository repo); simpl;
    by eexists.
Qed.

(** X21.  [_selectRepository] never runs into the fatal error of the three
    start functions, whichever pollers are active when it is called.  It
    records the selection; for a repository that is not missing it leaves
    the ahead/behind updater on that repository, and the background fetcher
    and the pull request updater on it exactly when the repository has an
    account and a GitHub repository; for [null], a cloning repository or a
    missing repository it stops the fetcher and the pull request updater
    and leaves the ahead/behind updater as it was. *)
Theorem selectRepository_restarts_the_pollers
    (getAccount : Repository -> option string) (s : Shell)
    (repository : option Selection) :
  exists s',
    _selectRepository getAccount s repository = (s', Returned tt)
    /\ shell_selectedRepository s' = repository
    /\ match repository with
       | Some (ARepository repo) =>
           shell_lastSelectedRepositoryID s' = Some (Z.of_N (repo_id repo))
           /\ if repo_missing repo
              then currentBackgroundFetcher s' = None
                   /\ currentPullRequestUpdater s' = None
                   /\ currentAheadBehindUpdater s' = currentAheadBehindUpdater s
              else
                let poller :=
                  match getAccount repo, repo_gitHubRepository repo with
                  | Some _, Some _ => Some (repo_id repo)
                  | _, _ => None
                  end in
                currentBackgroundFetcher s' = poller
                /\ currentPullRequestUpdater s' = poller
                /\ currentAheadBehindUpdater s' = Some (repo_id repo)
       | _ =>
           shell_lastSelectedRepositoryID s' = shell_lastSelectedRepositoryID s
           /\ currentBackgroundFetcher s' = None
           /\ currentPullRequestUpdater s' = None
           /\ currentAheadBehindUpdater s' = currentAheadBehindUpdater s
       end.
Proof.
  destruct s as [sel last [f|] [p|] [a|]];
    destruct repository as [[repo|c]|]; simpl; try (by eexists);
    destruct (repo_missing repo); try (by eexists);
    (rewrite bool_decide_eq_false_2 by (by intros H; apply H));
    unfold startBackgroundFetching, startPullRequestUpdater; simpl;
    destruct (getAccount repo), (repo_gitHubRepository repo); simpl;
    by eexists.
Qed.

Lemma find_repository_Some (P : Repository -> bool)
    (repositories : list Repository) (r : Repository) :
  List.find P repositories = Some r -> r ∈ repositories /\ P r = true.
Proof.
  intros Hfind. apply find_some in Hfind as [Hin HP].
  split; [by apply list_elem_of_In|done].
Qed.

Lemma newSelectedRepository_nil (s : Shell) :
  newSelectedRepository s [] = None.
Proof.
  unfold newSelectedRepository.
  destruct (shell_selectedRepository s) as [[sel|c]|]; reflexivity.
Qed.

Lemma newSelectedRepository_cons (s : Shell) (first : Repository)
    (rest : list Repository) :
  exists r, r ∈ first :: rest
            /\ newSelectedRepository s (first :: rest) = Some (ARepository r).
Proof.
  unfold newSelectedRepository.
  assert (Hfallback :
    exists r, r ∈ first :: rest /\
      match
        (if 0 <? getLastSelectedRepositoryID s
         then List.find
                (fun r => bool_decide
                            (Z.of_N (repo_id r) = getLastSelectedRepositoryID s))
                (first :: rest)
         else None)
      with
      | Some r => Some (ARepository r)
      | None => Some (ARepository first)
      end = Some (ARepository r)).
  { destruct (0 <? getLastSelectedRepositoryID s).
    - destruct (List.find _ (first :: rest)) as [r|] eqn:Hfind.
      + apply find_repository_Some in Hfind as [Hin _]. by exists r.
      + exists first. split; [left|done].
    - exists first. split; [left|done]. }
  destruct (shell_selectedRepository s) as [[sel|c]|];
    cbn [findSelected fmap option_fmap option_map]; try exact Hfallback.
  destruct (List.find (fun r => bool_decide (repo_id r = repo_id sel))
              (first :: rest)) as [r|] eqn:Hfind;
    cbn [fmap option_fmap option_map].
  - apply find_repository_Some in Hfind as [Hin _]. by exists r.
  - exact Hfallback.
Qed.

Lemma repositoryChanged_false (a b : option Selection) :
  repositoryChanged a b = false ->
  selection_hash <$> a = selection_hash <$> b.
Proof.
  destruct a as [a|], b as [b|]; simpl; try done.
  intros Hsame. apply bool_decide_eq_false_1 in Hsame.
  f_equal. by destruct (decide (selection_hash a = selection_hash b)).
Qed.

(** X22.  [updateRepositorySelectionAfterRepositoriesChanged] never runs
    into a fatal error.  With no repository left nothing is selected
    afterwards; otherwise the selection afterwards has the hash of a
    repository of the list, namely of the one that
    [newSelectedRepository] settles on. *)
Theorem selection_follows_the_repositories
    (getAccount : Repository -> option string) (s : Shell)
    (repositories : list Repository) :
  let result :=
    updateRepositorySelectionAfterRepositoriesChanged getAccount s
      repositories in
  result.2 = Returned tt
  /\ match repositories with
     | [] => shell_selectedRepository result.1 = None
     | _ :: _ =>
         exists r, r ∈ repositories
           /\ newSelectedRepository s repositories = Some (ARepository r)
           /\ selection_hash <$> shell_selectedRepository result.1
              = Some (repo_hash r)
     end.
Proof.
  cbn zeta. unfold updateRepositorySelectionAfterRepositoriesChanged.
  destruct (repositoryChanged _ _) eqn:Hchanged.
  - destruct (selectRepository_returns getAccount s
                (newSelectedRepository s repositories)) as (s' & -> & Hsel).
    cbn [fst snd]. split; [done|].
    destruct repositories as [|first rest].
    + by rewrite Hsel, newSelectedRepository_nil.
    + destruct (newSelectedRepository_cons s first rest) as (r & Hin & Hnew).
      exists r. split_and!; [done|done|]. by rewrite Hsel, Hnew.
  - cbn [fst snd]. split; [done|].
    apply repositoryChanged_false in Hchanged.
    destruct repositories as [|first rest].
    + rewrite newSelectedRepository_nil in Hchanged.
      by destruct (shell_selectedRepository s).
    + destruct (newSelectedRepository_cons s first rest) as (r & Hin & Hnew).
      exists r. split_and!; [done|done|]. by rewrite Hchanged, Hnew.
Qed.

(** X23.  A selected repository whose id is still in the list stays
    selected: afterwards the selection is a repository with the same id and
    with the hash of the list's entry.  When the hash of that entry is the
    hash of the selection, nothing changes at all, so the pollers keep
    running. *)
Theorem selected_repository_is_kept
    (getAccount : Repository -> option string) (s : Shell)
    (repositories : list Repository) (selected r : Repository) :
  shell_selectedRepository s = Some (ARepository selected) ->
  List.find (fun r => bool_decide (repo_id r = repo_id selected)) repositories
  = Some r ->
  let result :=
    updateRepositorySelectionAfterRepositoriesChanged getAccount s
      repositories in
  (exists kept,
      shell_selectedRepository result.1 = Some (ARepository kept)
      /\ repo_id kept = repo_id selected
      /\ repo_hash kept = repo_hash r)
  /\ (repo_hash r = repo_hash selected -> result = (s, Returned tt))
  /\ (repo_hash r ≠ repo_hash selected ->
      shell_selectedRepository result.1 = Some (ARepository r)).
Proof.
  intros Hsel Hfind. cbn zeta.
  assert (Hnew : newSelectedRepository s repositories = Some (ARepository r)).
  { unfold newSelectedRepository. rewrite Hsel. cbn [findSelected].
    by rewrite Hfind. }
  pose proof Hfind as Hr. apply find_repository_Some in Hr as [_ Hid].
  apply bool_decide_eq_true_1 in Hid.
  unfold updateRepositorySelectionAfterRepositoriesChanged.
  rewrite Hnew, Hsel. cbn [repositoryChanged selection_hash].
  case_bool_decide as Hhash.
  - destruct (selectRepository_returns getAccount s (Some (ARepository r)))
      as (s' & -> & Hsel').
    cbn [fst snd]. split_and!.
    + by exists r.
    + intros Heq. by destruct Hhash.
    + done.
  - cbn [fst snd]. split_and!.
    + exists selected. split_and!; [done|done|].
      by destruct (decide (repo_hash selected = repo_hash r)).
    + done.
    + intros Hne. destruct Hhash. congruence.
Qed.

Lemma selected_repository_is_kept_witness :
  shell_selectedRepository
    (updateRepositorySelectionAfterRepositoriesChanged everyAccount
       kactusSelected [notesRepo; kactusRenamed]).1
  = Some (ARepository kactusRenamed).
Proof.
  destruct (selected_repository_is_kept everyAccount kactusSelected
              [notesRepo; kactusRenamed] kactusRepo kactusRenamed
              eq_refl eq_refl) as (_ & _ & Hreplaced).
  apply Hreplaced. discriminate.
Defined.

(** ** Repository indicators *)

Lemma refreshIndicatorForRepository_lookup
    (lookup : gmap RepositoryId ILocalRepositoryState)
    (repo : Repository) (probe : IndicatorProbe) :
  let result := refreshIndicatorForRepository lookup repo probe in
  result.1 !! repo_id repo
  = (if repo_missing repo || negb (probe_exists probe) then None
     else mkLocalRepositoryState (probe_aheadBehind probe)
            <$> probe_status probe)
  /\ (forall id, id ≠ repo_id repo -> result.1 !! id = lookup !! id)
  /\ (result.2 = true ->
      repo_missing repo = false /\ probe_exists probe = true
      /\ is_Some (probe_status probe)
      /\ shouldBackgroundFetch (probe_lastFetched probe) (probe_now probe)
           (probe_lastPush probe) = true).
Proof.
  cbn zeta. unfold refreshIndicatorForRepository.
  destruct (repo_missing repo), (probe_exists probe),
    (probe_status probe) as [n|];
    cbn [fst snd orb negb fmap option_fmap option_map];
    (split_and!;
     [ by rewrite ?lookup_delete_eq, ?lookup_insert_eq
     | by intros id Hne; rewrite ?lookup_delete_ne, ?lookup_insert_ne
     | done ]).
Qed.

(** X24.  After [refreshIndicatorsForRepositories] over repositories with
    distinct ids, a repository of the list has an indicator exactly when it
    is not missing, its path exists and its status could be loaded, and the
    indicator then carries the ahead/behind of its git store and the number
    of changed files; an indicator it had before is dropped otherwise.  The
    indicators of repositories outside the list are untouched, and a fetch
    is made only for a repository that gets an indicator and that
    [shouldBackgroundFetch] lets through. *)
Theorem indicators_after_refresh
    (lookup : gmap RepositoryId ILocalRepositoryState)
    (repositories : list (Repository * IndicatorProbe)) :
  NoDup (map (fun p => repo_id p.1) repositories) ->
  let result := refreshIndicatorsForRepositories lookup repositories in
  (forall repo probe, (repo, probe) ∈ repositories ->
     result.1 !! repo_id repo
     = (if repo_missing repo || negb (probe_exists probe) then None
        else mkLocalRepositoryState (probe_aheadBehind probe)
               <$> probe_status probe))
  /\ (forall id, id ∉ map (fun p => repo_id p.1) repositories ->
        result.1 !! id = lookup !! id)
  /\ (forall id, id ∈ result.2 ->
        exists repo probe,
          (repo, probe) ∈ repositories /\ repo_id repo = id
          /\ repo_missing repo = false /\ probe_exists probe = true
          /\ is_Some (probe_status probe)
          /\ shouldBackgroundFetch (probe_lastFetched probe) (probe_now probe)
               (probe_lastPush probe) = true).
Proof.
  cbn zeta. revert lookup.
  induction repositories as [|[repo probe] rest IH]; intros lookup Hnodup.
  - cbn [refreshIndicatorsForRepositories fst snd]. split_and!.
    + intros repo probe Hin. by apply elem_of_nil in Hin.
    + done.
    + intros id Hin. by apply elem_of_nil in Hin.
  - cbn [map fst] in Hnodup. apply NoDup_cons in Hnodup as [Hfresh Hnodup].
    cbn [refreshIndicatorsForRepositories].
    destruct (refreshIndicatorForRepository_lookup lookup repo probe)
      as (Hhere & Hother & Hfetched).
    destruct (refreshIndicatorForRepository lookup repo probe)
      as [lookup1 fetched].
    cbn [fst snd] in Hhere, Hother, Hfetched.
    destruct (IH lookup1 Hnodup) as (Hrest & Hout & Hfetch).
    destruct (refreshIndicatorsForRepositories lookup1 rest)
      as [lookup2 fetchedRest].
    cbn [fst snd] in *. split_and!.
    + intros repo' probe' Hin. apply elem_of_cons in Hin as [Heq|Hin].
      * injection Heq as -> ->. by rewrite (Hout _ Hfresh).
      * by apply Hrest.
    + intros id Hout'. cbn [map fst] in Hout'.
      apply not_elem_of_cons in Hout' as [Hne Hout'].
      rewrite (Hout _ Hout'). by apply Hother.
    + intros id Hin.
      assert (Hcases : (fetched = true /\ id = repo_id repo)
                       \/ id ∈ fetchedRest).
      { destruct fetched; [|by right].
        apply elem_of_cons in Hin as [->|Hin]; [by left|by right]. }
      destruct Hcases as [[Htrue ->]|Hin'].
      * destruct (Hfetched Htrue) as (? & ? & ? & ?).
        exists repo, probe. split_and!; try done. left.
      * destruct (Hfetch id Hin') as (repo' & probe' & Hin'' & Hrest').
        exists repo', probe'. split; [by right|done].
Qed.

Lemma indicators_after_refresh_witness :
  let result :=
    refreshIndicatorsForRepositories
      {[ 2%N := mkLocalRepositoryState None 7 ]}
      [(kactusRepo, healthyProbe); (notesRepo, vanishedProbe)] in
  result.1 !! 1%N = Some (mkLocalRepositoryState (Some (mkAheadBehind 1 2)) 3)
  /\ result.1 !! 2%N = None.
Proof.
  assert (Hnodup : NoDup (map (fun p : Repository * IndicatorProbe =>
                                 repo_id p.1)
                            [(kactusRepo, healthyProbe);
                             (notesRepo, vanishedProbe)])).
  { apply (bool_decide_unpack _). vm_compute. exact I. }
  destruct (indicators_after_refresh
              {[ 2%N := mkLocalRepositoryState None 7 ]}
              [(kactusRepo, healthyProbe); (notesRepo, vanishedProbe)]
              Hnodup) as (Hin & _ & _).
  cbn zeta. split.
  - apply (Hin kactusRepo healthyProbe). left.
  - apply (Hin notesRepo vanishedProbe). right. left.
Defined.

(** ** Parsing and importing sketch files *)

Lemma kactusFiles_markFile (k : KactusFiles) (r : RepositoryId) (id : string)
    (key : TransformKey) (value : bool) :
  kactusFiles (markFile k r id key value) r
  = map (fun f => if bool_decide (kf_id f = id) then setKey key value f else f)
      (kactusFiles k r).
Proof. unfold kactusFiles at 1, markFile. by rewrite lookup_insert_eq. Qed.

Lemma markFile_other (k : KactusFiles) (r r' : RepositoryId) (id : string)
    (key : TransformKey) (value : bool) :
  r' ≠ r -> markFile k r id key value !! r' = k !! r'.
Proof. intros Hne. unfold markFile. by rewrite lookup_insert_ne. Qed.

Lemma kf_id_setKey (key : TransformKey) (value : bool) (f : IKactusFile) :
  kf_id (setKey key value f) = kf_id f.
Proof. by destruct key. Qed.

Lemma getKey_setKey (key : TransformKey) (value : bool) (f : IKactusFile) :
  getKey key (setKey key value f) = value.
Proof. by destruct key. Qed.

Lemma find_marked (id : string) (key : TransformKey) (value : bool)
    (files : list IKactusFile) :
  List.find (fun f => bool_decide (kf_id f = id))
    (map (fun f => if bool_decide (kf_id f = id) then setKey key value f
                   else f) files)
  = setKey key value <$> List.find (fun f => bool_decide (kf_id f = id)) files.
Proof.
  induction files as [|f files IH]; [done|].
  cbn [map List.find]. destruct (decide (kf_id f = id)) as [Hid|Hid].
  - rewrite (bool_decide_eq_true_2 _ Hid), kf_id_setKey.
    by rewrite (bool_decide_eq_true_2 _ Hid).
  - by rewrite !(bool_decide_eq_false_2 _ Hid).
Qed.

Lemma isParsingOrImporting_ran (k : KactusFiles) (r : RepositoryId)
    (file : IKactusFile) (key : TransformKey)
    (fn : KactusFiles -> KactusFiles * Outcome unit) :
  (isParsingOrImporting k r file key fn).1.2 = true <->
  exists currentFile,
    List.find (fun f => bool_decide (kf_id f = kf_id file)) (kactusFiles k r)
    = Some currentFile
    /\ kf_isParsing currentFile = false
    /\ kf_isImporting currentFile = false.
Proof.
  unfold isParsingOrImporting.
  destruct (List.find (fun f => bool_decide (kf_id f = kf_id file))
              (kactusFiles k r)) as [currentFile|] eqn:Hfind.
  2:{ cbn [fst snd]. split; [done|]. by intros (? & ? & _). }
  destruct (kf_isParsing currentFile || kf_isImporting currentFile)
    eqn:Hbusy.
  - cbn [fst snd]. split; [done|]. intros (? & Heq & Hp & Hi).
    injection Heq as <-. by rewrite Hp, Hi in Hbusy.
  - apply orb_false_iff in Hbusy as [Hparsing Himporting].
    destruct (fn _) as [k2 res]. cbn [fst snd].
    split; [|done]. intros _. by exists currentFile.
Qed.

(** X25.  [isParsingOrImporting] runs [fn] exactly when the repository has
    a file with the id of [file] and the first such file is neither being
    parsed nor being imported; otherwise it changes nothing.  In the state
    that [fn] starts from, a second call for the same file, with either
    key, is refused.  The gate reads the files of the moment: once
    [_loadStatus], which the wrapped functions of [_parseSketchFile] and
    [_importSketchFile] call, has replaced the files, a second call runs
    exactly when the new files hold the file without a flag, although the
    first transform has not finished.  When [fn] has returned or thrown,
    its outcome is passed on and the flag is false on every file with that
    id, whatever [fn] did to the files; the ids of the files and the files
    of the other repositories are as [fn] left them. *)
Theorem isParsingOrImporting_releases_the_file (k : KactusFiles)
    (r : RepositoryId) (file : IKactusFile) (key : TransformKey)
    (fn : KactusFiles -> KactusFiles * Outcome unit) :
  let started := markFile k r (kf_id file) key true in
  let result := isParsingOrImporting k r file key fn in
  (result.1.2 = true <->
   exists currentFile,
     List.find (fun f => bool_decide (kf_id f = kf_id file)) (kactusFiles k r)
     = Some currentFile
     /\ kf_isParsing currentFile = false
     /\ kf_isImporting currentFile = false)
  /\ (result.1.2 = false -> result = (k, false, Returned tt))
  /\ (result.1.2 = true ->
      result.2 = (fn started).2
      /\ (forall key' fn',
            isParsingOrImporting started r file key' fn'
            = (started, false, Returned tt))
      /\ (forall files key' fn',
            (isParsingOrImporting (_loadStatus_files started r files) r file
               key' fn').1.2 = true
            <-> exists reloaded,
                  List.find (fun f => bool_decide (kf_id f = kf_id file)) files
                  = Some reloaded
                  /\ kf_isParsing reloaded = false
                  /\ kf_isImporting reloaded = false)
      /\ (forall f, f ∈ kactusFiles result.1.1 r -> kf_id f = kf_id file ->
            getKey key f = false)
      /\ map kf_id (kactusFiles result.1.1 r)
         = map kf_id (kactusFiles (fn started).1 r)
      /\ (forall r', r' ≠ r -> result.1.1 !! r' = (fn started).1 !! r')).
Proof.
  cbn zeta. split; [apply isParsingOrImporting_ran|].
  destruct (List.find (fun f => bool_decide (kf_id f = kf_id file))
              (kactusFiles k r)) as [currentFile|] eqn:Hfind.
  2:{ assert (Hrefused : isParsingOrImporting k r file key fn
                         = (k, false, Returned tt)).
      { unfold isParsingOrImporting. by rewrite Hfind. }
      rewrite Hrefused. cbn [fst snd]. by split. }
  destruct (kf_isParsing currentFile || kf_isImporting currentFile)
    eqn:Hbusy.
  { assert (Hrefused : isParsingOrImporting k r file key fn
                       = (k, false, Returned tt)).
    { unfold isParsingOrImporting. by rewrite Hfind, Hbusy. }
    rewrite Hrefused. cbn [fst snd]. by split. }
  apply orb_false_iff in Hbusy as Hflags.
  destruct Hflags as [Hparsing Himporting].
  destruct (fn (markFile k r (kf_id file) key true)) as [k2 res] eqn:Hfn.
  assert (Hran : isParsingOrImporting k r file key fn
                 = (markFile k2 r (kf_id file) key false, true, res)).
  { unfold isParsingOrImporting. by rewrite Hfind, Hbusy, Hfn. }
  rewrite Hran. cbn [fst snd]. split; [done|].
  intros _. split_and!.
  - done.
  - intros key' fn'. unfold isParsingOrImporting.
    rewrite kactusFiles_markFile, find_marked, Hfind.
    cbn [fmap option_fmap option_map].
    destruct key; cbn [setKey kf_isParsing kf_isImporting orb];
      [done|by rewrite Hparsing].
  - intros files key' fn'. rewrite isParsingOrImporting_ran.
    unfold _loadStatus_files, kactusFiles. by rewrite lookup_insert_eq.
  - intros f Hin Hid. rewrite kactusFiles_markFile in Hin.
    apply list_elem_of_fmap in Hin as (f0 & -> & _).
    case_bool_decide as Hid0.
    + apply getKey_setKey.
    + by destruct Hid0.
  - rewrite kactusFiles_markFile, map_map. apply map_ext. intros f.
    case_bool_decide; [apply kf_id_setKey|done].
  - intros r' Hne. by apply markFile_other.
Qed.

(** The parse of a file is running.  A second parse of the same file is
    refused at first; after the [_loadStatus] of the first has put fresh
    files in place, it runs beside the first. *)
Example second_parse_runs_after_the_reload :
  let second := fun k : KactusFiles => (k, Returned tt) in
  let started := markFile oneFile 1%N "home" KeyIsParsing true in
  (isParsing started 1%N homeFile second).1.2 = false
  /\ (isParsing (_loadStatus_files started 1%N [homeFile]) 1%N homeFile
        second).1.2 = true.
Proof. by split. Qed.

(** ** The action of a compare view that is opened again *)

Lemma formState_updateCompareToBranch (rt : CompareRuntime) (r : RepositoryId)
    (action : ICompareToBranch) (compare : ICompareResult) (tip : Tip) :
  cmp_formState
    (compareState
       (get (cr_store
               (updateCompareToBranch_resume rt r action (Some compare) tip).1)
          r))
  = CompareBranch (action_branch action) (action_comparisonMode action)
      (mkAheadBehind (compare_ahead compare) (compare_behind compare)).
Proof.
  destruct (updateCompareToBranch_before_preview (cr_store rt) r action compare)
    as (Hform & _).
  cbn zeta in Hform. unfold updateCompareToBranch_resume. cbn zeta.
  destruct (currentMergeTreePromise _); [exact Hform|].
  assert (Hotherwise : forall s4,
    cmp_formState
      (compareState
         (get (emitUpdate (updateCompareState s4 r (with_mergeStatus None))) r))
    = cmp_formState (compareState (get s4 r))).
  { intros s4. unfold updateCompareState. by autorewrite with store. }
  destruct tip as [| |tipBranch|]; cbn [fst cr_store];
    try (by rewrite Hotherwise).
  destruct (0 <? _); cbn [fst cr_store newPromise]; [|by rewrite Hotherwise].
  exact Hform.
Qed.

(** X26.  A compare view that is initialised without an initial action
    replays what the form last showed: after an [updateCompareToBranch]
    that got its commits, the comparison with the same branch and mode,
    whether or not a merge preview was started; after a history load that
    got its commits, the history.  A given initial action always wins. *)
Theorem compare_view_replays_the_last_action (rt : CompareRuntime)
    (s : AppStore) (r : RepositoryId) (action : ICompareToBranch)
    (compare : ICompareResult) (tip : Tip) (currentSha : option string)
    (commits : list string) (state : IRepositoryState)
    (given : CompareAction) :
  initialCompareAction
    (get (cr_store
            (updateCompareToBranch_resume rt r action (Some compare) tip).1) r)
    None
  = ActionCompare action
  /\ initialCompareAction
       (get (_executeCompare_history_resume s r currentSha (Some commits)) r)
       None
     = ActionHistory
  /\ initialCompareAction state (Some given) = given.
Proof.
  split_and!.
  - unfold initialCompareAction. cbn zeta.
    rewrite formState_updateCompareToBranch. cbn [getInitialAction].
    by destruct action.
  - unfold initialCompareAction, _executeCompare_history_resume. cbn zeta.
    rewrite get_emitUpdate, compareState_updateOrSelectFirstCommit.
    unfold updateCompareState. by autorewrite with store.
  - reflexivity.
Qed.
